(** * HTML-to-Markdown converter: path mapping, title extraction, HTML
      rewriting, sitemap resolution and the retrying batch pipeline.

    A shallow embedding of [src/index.ts], [src/htmlProcessor.ts] and
    [src/sitemapParser.ts].  JavaScript strings are sequences of UTF-16
    code units; the npm packages and platform classes the program calls
    (the WHATWG [URL] class, [sanitize-filename], [jsdom], [xml2js],
    [axios], [turndown], [fs]) are not part of the repository: they are
    taken as parameters, bundled in records, and a small reference
    instance of each is given for evaluating the program on concrete
    inputs. *)

From Stdlib Require Import String Ascii ZArith List Bool Lia.
Import ListNotations.

Open Scope Z_scope.

(** ** JavaScript strings and the string primitives the program uses *)

Module JS.

(** A string is the list of its UTF-16 code units ([charCodeAt]). *)
Definition jsstring := list Z.

(** String literal of the source, for ASCII text. *)
Definition lit (s : string) : jsstring :=
  map (fun a => Z.of_nat (nat_of_ascii a)) (list_ascii_of_string s).

Fixpoint eqb (a b : jsstring) : bool :=
  match a, b with
  | [], [] => true
  | x :: a', y :: b' => (x =? y) && eqb a' b'
  | _, _ => false
  end.

(** Truthiness of a string: [if (s)] holds for non-empty strings. *)
Definition truthy (s : jsstring) : bool :=
  match s with [] => false | _ => true end.

(** [s.startsWith(p)] *)
Fixpoint startsWith (s p : jsstring) {struct p} : bool :=
  match p, s with
  | [], _ => true
  | c :: p', d :: s' => (c =? d) && startsWith s' p'
  | _ :: _, [] => false
  end.

(** [s.endsWith(p)] *)
Definition endsWith (s p : jsstring) : bool := startsWith (rev s) (rev p).

(** [s.slice(0, -n)] for a positive [n]: all but the last [n] units. *)
Definition slice_drop_last (s : jsstring) (n : nat) : jsstring :=
  firstn (length s - n) s.

(** [s.substring(0, n)] *)
Definition substring0 (s : jsstring) (n : nat) : jsstring := firstn n s.

(** [s.replace(/^p/, '')] for a literal prefix [p]. *)
Definition strip_prefix (p s : jsstring) : jsstring :=
  if startsWith s p then skipn (length p) s else s.

(** [s.replace(/\/$/, '')]: one trailing [c] removed. *)
Definition strip_trailing (c : Z) (s : jsstring) : jsstring :=
  match rev s with
  | d :: r => if d =? c then rev r else s
  | [] => s
  end.

(** [s.split(sep)] for a separator that is one code unit out of a class
    [p]; the result always has at least one element. *)
Fixpoint split_on (p : Z -> bool) (s : jsstring) : list jsstring :=
  match s with
  | [] => [[]]
  | c :: s' =>
      if p c then [] :: split_on p s'
      else match split_on p s' with
           | w :: ws => (c :: w) :: ws
           | [] => [[c]]
           end
  end.

(** [arr.filter(Boolean)] on an array of strings. *)
Definition filter_Boolean (l : list jsstring) : list jsstring :=
  filter truthy l.

(** [s.toLowerCase()] on the ASCII range.  It is applied to the
    [pathname] of a parsed URL only, which the URL serializer keeps in
    ASCII. *)
Definition lower_unit (c : Z) : Z :=
  if (65 <=? c) && (c <=? 90) then c + 32 else c.

Definition toLowerCase (s : jsstring) : jsstring := map lower_unit s.

(** JavaScript whitespace and line terminators, as [String.prototype.trim]
    removes them. *)
Definition is_space (c : Z) : bool :=
  ((9 <=? c) && (c <=? 13)) || (c =? 32) || (c =? 160) || (c =? 5760)
  || ((8192 <=? c) && (c <=? 8202)) || (c =? 8232) || (c =? 8233)
  || (c =? 8239) || (c =? 8287) || (c =? 12288) || (c =? 65279).

Fixpoint trim_start (s : jsstring) : jsstring :=
  match s with
  | c :: s' => if is_space c then trim_start s' else s
  | [] => []
  end.

Definition trim (s : jsstring) : jsstring :=
  rev (trim_start (rev (trim_start s))).

(** [ToInt32]: wrap-around into the signed 32-bit range. *)
Definition toInt32 (x : Z) : Z := (x + 2 ^ 31) mod 2 ^ 32 - 2 ^ 31.

(** [a << k] on numbers: the left operand is taken as a 32-bit integer and
    the result wraps. *)
Definition shl (a k : Z) : Z := toInt32 (Z.shiftl (toInt32 a) k).

(** [a & b] *)
Definition band (a b : Z) : Z := toInt32 (Z.land (toInt32 a) (toInt32 b)).

(** [n.toString(16)] for a non-negative integer: lowercase digits. *)
Definition hex_digit (d : Z) : Z := if d <? 10 then 48 + d else 87 + d.

Fixpoint toString16_aux (fuel : nat) (n : Z) (acc : jsstring) : jsstring :=
  match fuel with
  | O => acc
  | S f =>
      let acc' := hex_digit (n mod 16) :: acc in
      if n / 16 =? 0 then acc' else toString16_aux f (n / 16) acc'
  end.

Definition toString16 (n : Z) : jsstring :=
  toString16_aux (S (Z.to_nat (Z.log2 n))) n [].

(** [arr.slice(start, end)] with JavaScript's treatment of negative and
    oversized indexes. *)
Definition clamp_index (len k : Z) : Z :=
  if k <? 0 then Z.max (len + k) 0 else Z.min k len.

Definition slice {A} (l : list A) (start stop : Z) : list A :=
  let len := Z.of_nat (length l) in
  let a := clamp_index len start in
  let b := clamp_index len stop in
  firstn (Z.to_nat (b - a)) (skipn (Z.to_nat a) l).

(** The longest prefix without a unit of the class [p], and the rest. *)
Fixpoint break_at (p : Z -> bool) (s : jsstring) : jsstring * jsstring :=
  match s with
  | [] => ([], [])
  | c :: s' =>
      if p c then ([], s)
      else let (a, b) := break_at p s' in (c :: a, b)
  end.

(** What [.] of a regular expression matches: anything but a line
    terminator. *)
Definition re_dot (c : Z) : bool :=
  negb ((c =? 10) || (c =? 13) || (c =? 8232) || (c =? 8233)).

End JS.

Import JS.

(** ** Configuration ([src/config.ts]) *)

Inductive SourceType := SourceFile | SourceSitemap.

Record UrlSource := {
  source_type : SourceType;
  source_file : jsstring;
  source_sitemap : jsstring }.

Record Selectors := {
  exclude : list jsstring;
  unwrap : list jsstring;
  removeAttributes : bool }.

Record TurndownOptions := {
  headingStyle : jsstring;
  hr : jsstring;
  bulletListMarker : jsstring;
  codeBlockStyle : jsstring;
  emDelimiter : jsstring;
  linkStyle : jsstring;
  strongDelimiter : jsstring }.

Record FileOptions := {
  addSourceUrl : bool;
  addDate : bool;
  useDomainSubfolders : bool;
  usePageTitlesForFilenames : bool;
  preserveUrlFilenames : bool }.

Record Config := {
  outputDir : jsstring;
  maxConcurrent : Z;
  timeout : Z;
  retryAttempts : Z;
  retryDelay : Z;
  urlSource : UrlSource;
  selectors : Selectors;
  turndownOptions : TurndownOptions;
  userAgent : jsstring;
  fileOptions : FileOptions }.

Definition DEFAULT_CONFIG : Config := {|
  outputDir := lit "dist";
  maxConcurrent := 3;
  timeout := 30000;
  retryAttempts := 3;
  retryDelay := 3000;
  urlSource := {| source_type := SourceFile;
                  source_file := lit "urls.txt";
                  source_sitemap := [] |};
  selectors := {| exclude := [lit "footer"; lit "header"; lit "nav";
                              lit "script"; lit ".cookie-banner";
                              lit "#sidebar"];
                  unwrap := [lit ".container"; lit ".wrapper"];
                  removeAttributes := true |};
  turndownOptions := {| headingStyle := lit "atx";
                        hr := lit "---";
                        bulletListMarker := lit "-";
                        codeBlockStyle := lit "fenced";
                        emDelimiter := lit "*";
                        linkStyle := lit "referenced";
                        strongDelimiter := lit "**" |};
  userAgent := lit "Mozilla/5.0";
  fileOptions := {| addSourceUrl := true;
                    addDate := true;
                    useDomainSubfolders := true;
                    usePageTitlesForFilenames := false;
                    preserveUrlFilenames := true |} |}.

(** The ambient state a call can read: the shared configuration object
    and the wall clock ([new Date()]). *)
Record Env := {
  config : Config;
  now : jsstring }.

(** ** Path mapping: [parseUrl] and [getOutputPaths] ([src/index.ts]) *)

Module PathMapper.

(** What [new URL(url)] exposes to the program. *)
Record URLObj := {
  hostname : jsstring;
  pathname : jsstring;
  search : jsstring }.

(** The packages the path mapper calls.  [URL_new] is [None] where the
    constructor throws; [searchParams_get search name] is
    [new URLSearchParams(search).get(name)]. *)
Record Packages := {
  URL_new : jsstring -> option URLObj;
  searchParams_get : jsstring -> jsstring -> option jsstring;
  sanitize : jsstring -> jsstring;
  path_join : list jsstring -> jsstring }.

Record ParsedUrl := {
  domain : jsstring;
  pathParts : list jsstring;
  filename : jsstring;
  originalUrl : jsstring }.

Record OutputPaths := {
  dirPath : jsstring;
  filePath : jsstring }.

Definition fileExtensions : list jsstring :=
  [lit ".html"; lit ".htm"; lit ".php"; lit ".asp"; lit ".aspx"; lit ".jsp"].

(** The loop over [fileExtensions]: the first extension the lowercased
    pathname ends with is sliced off, then the loop breaks. *)
Fixpoint strip_extension (exts : list jsstring) (pathname : jsstring)
  : jsstring :=
  match exts with
  | [] => pathname
  | ext :: rest =>
      if endsWith (toLowerCase pathname) ext
      then slice_drop_last pathname (length ext)
      else strip_extension rest pathname
  end.

(** [pathname.replace(/^\/|\/$/g, '')] *)
Definition trim_slashes (s : jsstring) : jsstring :=
  strip_trailing 47 (strip_prefix [47] s).

(** The local arrow function [hashCode] of [parseUrl]. *)
Definition hash_step (hash char : Z) : Z :=
  let hash := (shl hash 5 - hash) + char in
  band hash hash.

Definition hashCode (s : jsstring) : jsstring :=
  toString16 (Z.abs (fold_left hash_step s 0)).

(** [a || b] on values that are a string or [null]. *)
Definition or_else (a b : option jsstring) : option jsstring :=
  match a with
  | Some (_ :: _) => a
  | _ => b
  end.

(** [url.replace(/^https?:\/\/(www\.)?/, '')] *)
Definition strip_scheme (url : jsstring) : jsstring :=
  if startsWith url (lit "https://")
  then strip_prefix (lit "www.") (skipn 8 url)
  else if startsWith url (lit "http://")
  then strip_prefix (lit "www.") (skipn 7 url)
  else url.

Definition is_query_or_hash (c : Z) : bool := (c =? 63) || (c =? 35).
Definition is_slash (c : Z) : bool := c =? 47.

(** [pathParts] of [parseUrl] before the file name is popped: the
    pathname without its outer slashes and recognised extension, split on
    slashes, empty parts dropped. *)
Definition url_pathParts (urlObj : URLObj) : list jsstring :=
  let pathname := trim_slashes (pathname urlObj) in
  let pathname := strip_extension fileExtensions pathname in
  if truthy pathname then filter_Boolean (split_on is_slash pathname)
  else [].

(** Path separators and the characters file systems reserve: slash,
    question mark, angle brackets, backslash, colon, asterisk, vertical
    bar, double quote. *)
Definition reserved_unit (c : Z) : bool :=
  (c =? 47) || (c =? 63) || (c =? 60) || (c =? 62) || (c =? 92)
  || (c =? 58) || (c =? 42) || (c =? 124) || (c =? 34).

Definition clean (s : jsstring) : Prop :=
  Forall (fun c => reserved_unit c = false) s.

Section WithPackages.

Variable P : Packages.
Variable env : Env.

Let fopts : FileOptions := fileOptions (config env).
Let OUTPUT_DIR : jsstring := outputDir (config env).

(** The URL-derived name before clean-up: the last path part or ['index'],
    extended by the query suffix. *)
Definition query_suffixed (urlObj : URLObj) (filename : jsstring)
  : jsstring :=
  if truthy (search urlObj) then
    if preserveUrlFilenames fopts then
      let queryStr := strip_prefix (lit "?") (search urlObj) in
      if (0 <? Z.of_nat (length queryStr)) then
        filename ++ lit "-" ++ hashCode queryStr
      else filename
    else
      let keyParam :=
        or_else (searchParams_get P (search urlObj) (lit "id"))
          (or_else (searchParams_get P (search urlObj) (lit "page"))
             (searchParams_get P (search urlObj) (lit "slug"))) in
      match keyParam with
      | Some (c :: k) => filename ++ lit "-" ++ sanitize P (c :: k)
      | _ => filename
      end
  else filename.

(** The [try] block of [parseUrl]. *)
Definition parseUrl_try (url : jsstring) (urlObj : URLObj) : ParsedUrl :=
  let domain := strip_prefix (lit "www.") (hostname urlObj) in
  let pathParts := url_pathParts urlObj in
  let filename := last pathParts (lit "index") in
  let filename := query_suffixed urlObj filename in
  let filename := sanitize P filename in
  let filename := if truthy filename then filename else lit "index" in
  let pathParts := removelast pathParts in
  {| domain := domain;
     pathParts := pathParts;
     filename := filename ++ lit ".md";
     originalUrl := url |}.

(** The [catch] block of [parseUrl]. *)
Definition parseUrl_catch (url : jsstring) : ParsedUrl :=
  let sanitizedUrl :=
    strip_trailing 47
      (hd [] (split_on is_query_or_hash (strip_scheme url))) in
  let parts := split_on is_slash sanitizedUrl in
  let domain := hd [] parts in
  let pathParts := removelast (tl parts) in
  let filename :=
    if (1 <? Z.of_nat (length parts)) then last parts [] else lit "index" in
  {| domain := domain;
     pathParts := pathParts;
     filename :=
       sanitize P (if truthy filename then filename else lit "index")
       ++ lit ".md";
     originalUrl := url |}.

Definition parseUrl (url : jsstring) : ParsedUrl :=
  match URL_new P url with
  | Some urlObj => parseUrl_try url urlObj
  | None => parseUrl_catch url
  end.

(** [dirParts] of [getOutputPaths]: the output root, the domain directory
    when configured, and the sanitized path parts. *)
Definition dirSegments (url : jsstring) : list jsstring :=
  let p := parseUrl url in
  let domainDir := sanitize P (domain p) in
  let pathDirs := map (sanitize P) (pathParts p) in
  if useDomainSubfolders fopts then domainDir :: pathDirs else pathDirs.

Definition dirParts (url : jsstring) : list jsstring :=
  OUTPUT_DIR :: dirSegments url.

(** [filename] of [getOutputPaths]. *)
Definition outputFilename (url : jsstring) (pageTitle : option jsstring)
  : jsstring :=
  let defaultFilename := filename (parseUrl url) in
  match pageTitle with
  | Some (c :: t) =>
      if usePageTitlesForFilenames fopts
         && negb (preserveUrlFilenames fopts)
      then
        let titleFilename := sanitize P (c :: t) in
        let titleFilename :=
          if (100 <? Z.of_nat (length titleFilename))
          then substring0 titleFilename 100 else titleFilename in
        if truthy titleFilename then titleFilename ++ lit ".md"
        else defaultFilename
      else defaultFilename
  | _ => defaultFilename
  end.

Definition getOutputPaths (url : jsstring) (pageTitle : option jsstring)
  : OutputPaths :=
  let dirPath := path_join P (dirParts url) in
  {| dirPath := dirPath;
     filePath := path_join P [dirPath; outputFilename url pageTitle] |}.

End WithPackages.

(** *** Notions used in the statements about the path mapper *)

(** Two configurations with the same path policy. *)
Definition same_policy (c1 c2 : Config) : Prop :=
  useDomainSubfolders (fileOptions c1) = useDomainSubfolders (fileOptions c2)
  /\ usePageTitlesForFilenames (fileOptions c1)
     = usePageTitlesForFilenames (fileOptions c2)
  /\ preserveUrlFilenames (fileOptions c1)
     = preserveUrlFilenames (fileOptions c2).

(** What [sanitize-filename] promises about the characters it leaves. *)
Definition sanitize_clean (P : Packages) : Prop :=
  forall s, clean (sanitize P s).





End PathMapper.

(** ** Reference instances of the packages of the path mapper

    [sanitize-filename] is reproduced from its five replacement passes
    and its UTF-8 truncation; the [URL] and [path] instances cover plain
    [http(s)://host/path?query#fragment] addresses and plain segments. *)

Module Ref.

Import PathMapper.

(** [illegalRe]: the class of slash, question mark, angle brackets,
    backslash, colon, asterisk, vertical bar and double quote. *)
Definition illegalRe (c : Z) : bool := reserved_unit c.

(** [controlRe = /[\x00-\x1f\x80-\x9f]/g] *)
Definition controlRe (c : Z) : bool :=
  ((0 <=? c) && (c <=? 31)) || ((128 <=? c) && (c <=? 159)).

(** [reservedRe = /^\.+$/] *)
Definition reservedRe (s : jsstring) : bool :=
  truthy s && forallb (fun c => c =? 46) s.

Definition is_digit (c : Z) : bool := (48 <=? c) && (c <=? 57).

(** [windowsReservedRe]: one of con, prn, aux, nul, com0-9, lpt0-9 in
    any letter case, alone or followed by a dot and any characters. *)
Definition reserved_tail (s : jsstring) : bool :=
  match s with
  | [] => true
  | c :: t => (c =? 46) && forallb re_dot t
  end.

Definition windowsReservedRe (s : jsstring) : bool :=
  let l := toLowerCase s in
  let three := firstn 3 l in
  if eqb three (lit "con") || eqb three (lit "prn")
     || eqb three (lit "aux") || eqb three (lit "nul")
  then reserved_tail (skipn 3 s)
  else if eqb three (lit "com") || eqb three (lit "lpt")
  then match skipn 3 s with
       | d :: t => is_digit d && reserved_tail t
       | [] => false
       end
  else false.

(** [windowsTrailingRe = /[\. ]+$/] *)
Fixpoint drop_dots_spaces (r : jsstring) : jsstring :=
  match r with
  | c :: r' => if (c =? 46) || (c =? 32) then drop_dots_spaces r' else r
  | [] => []
  end.

Definition windowsTrailing (s : jsstring) : jsstring :=
  rev (drop_dots_spaces (rev s)).

(** [truncate(sanitized, 255)]: the longest prefix of whole characters
    whose UTF-8 encoding fits in 255 bytes. *)
Definition isHighSurrogate (c : Z) : bool := (55296 <=? c) && (c <=? 56319).
Definition isLowSurrogate (c : Z) : bool := (56320 <=? c) && (c <=? 57343).

Definition utf8_len (c : Z) : Z :=
  if c <? 128 then 1 else if c <? 2048 then 2 else 3.

Fixpoint truncate_from (cur limit : Z) (s : jsstring) : jsstring :=
  match s with
  | [] => []
  | c :: rest =>
      match rest with
      | d :: rest' =>
          if isHighSurrogate c && isLowSurrogate d then
            let cur' := cur + 4 in
            if cur' =? limit then [c; d]
            else if limit <? cur' then []
            else c :: d :: truncate_from cur' limit rest'
          else
            let cur' := cur + utf8_len c in
            if cur' =? limit then [c]
            else if limit <? cur' then []
            else c :: truncate_from cur' limit rest
      | [] =>
          let cur' := cur + utf8_len c in
          if limit <? cur' then [] else [c]
      end
  end.

Definition sanitize (input : jsstring) : jsstring :=
  let s := filter (fun c => negb (illegalRe c)) input in
  let s := filter (fun c => negb (controlRe c)) s in
  let s := if reservedRe s then [] else s in
  let s := if windowsReservedRe s then [] else s in
  let s := windowsTrailing s in
  truncate_from 0 255 s.

(** [new URL(url)] on [http://] and [https://] addresses with a plain
    host: the fragment is cut, the query starts at the first [?], the
    path at the first [/] and is [/] when absent.  Everything else
    throws. *)
Definition URL_of_rest (rest : jsstring) : option URLObj :=
  let (nofrag, _) := break_at (fun c => c =? 35) rest in
  let (hostpath, query) := break_at (fun c => c =? 63) nofrag in
  let (host, path) := break_at is_slash hostpath in
  if truthy host then
    Some {| hostname := host;
            pathname := if truthy path then path else lit "/";
            search := match query with
                      | [_] => []
                      | _ => query
                      end |}
  else None.

Definition URL_new (url : jsstring) : option URLObj :=
  if startsWith url (lit "https://") then URL_of_rest (skipn 8 url)
  else if startsWith url (lit "http://") then URL_of_rest (skipn 7 url)
  else None.

(** [new URLSearchParams(search).get(name)] on a query without escapes:
    the value of the first [name=value] pair. *)
Fixpoint first_param (name : jsstring) (pairs : list jsstring)
  : option jsstring :=
  match pairs with
  | [] => None
  | p :: rest =>
      let (k, v) := break_at (fun c => c =? 61) p in
      if truthy p && eqb k name then Some (tl v) else first_param name rest
  end.

Definition searchParams_get (search name : jsstring) : option jsstring :=
  first_param name
    (split_on (fun c => c =? 38) (strip_prefix (lit "?") search)).

(** [path.join] on segments that need no normalization: the non-empty
    ones, separated by [/]; [.] when nothing is left. *)
Fixpoint join_segments (l : list jsstring) : jsstring :=
  match l with
  | [] => []
  | [s] => s
  | s :: rest => s ++ lit "/" ++ join_segments rest
  end.

Definition path_join (l : list jsstring) : jsstring :=
  match filter truthy l with
  | [] => lit "."
  | l' => join_segments l'
  end.

Definition packages : Packages := {|
  PathMapper.URL_new := URL_new;
  PathMapper.searchParams_get := searchParams_get;
  PathMapper.sanitize := sanitize;
  PathMapper.path_join := path_join |}.

Definition env : Env :=
  {| config := DEFAULT_CONFIG; now := lit "2024-01-01T00:00:00.000Z" |}.

(** An environment that differs from [env] in everything but the path
    policy and the output root. *)
Definition other_env : Env :=
  {| config :=
       {| outputDir := lit "dist";
          maxConcurrent := 8;
          timeout := 1;
          retryAttempts := 0;
          retryDelay := 7;
          urlSource := {| source_type := SourceSitemap;
                          source_file := [];
                          source_sitemap := lit "https://example.com/s.xml" |};
          selectors := {| exclude := []; unwrap := [];
                          removeAttributes := false |};
          turndownOptions := turndownOptions DEFAULT_CONFIG;
          userAgent := lit "curl";
          fileOptions := {| addSourceUrl := false;
                            addDate := false;
                            useDomainSubfolders := true;
                            usePageTitlesForFilenames := false;
                            preserveUrlFilenames := true |} |};
     now := lit "1999-12-31T23:59:59.000Z" |}.

Definition with_fileOptions (c : Config) (f : FileOptions) : Config :=
  {| outputDir := outputDir c; maxConcurrent := maxConcurrent c;
     timeout := timeout c; retryAttempts := retryAttempts c;
     retryDelay := retryDelay c; urlSource := urlSource c;
     selectors := selectors c; turndownOptions := turndownOptions c;
     userAgent := userAgent c; fileOptions := f |}.


Definition pageTitleOptions : FileOptions :=
  {| addSourceUrl := true; addDate := true; useDomainSubfolders := true;
     usePageTitlesForFilenames := true; preserveUrlFilenames := false |}.

Definition bothOptions : FileOptions :=
  {| addSourceUrl := true; addDate := true; useDomainSubfolders := true;
     usePageTitlesForFilenames := true; preserveUrlFilenames := true |}.

Definition env_with (f : FileOptions) : Env :=
  {| config := with_fileOptions DEFAULT_CONFIG f; now := now env |}.

(** Sample addresses. *)
Definition url_about : jsstring := lit "https://example.com/about/".


Definition url_dots : jsstring := lit "https://example.com/.../page".

Definition url_books_123 : jsstring :=
  lit "https://example.com/products?id=123&category=books".


End Ref.

(** ** The document tree

    The part of the DOM the program touches: elements with attributes and
    children, text and comment nodes.  Elements carry an identity, which
    is what a [NodeList] of a selector query holds on to while the tree
    is mutated. *)

Module Dom.

Set Warnings "-register-all".

Definition Attrs := list (jsstring * jsstring).

Inductive node :=
| Element (id : nat) (tagName : jsstring) (attributes : Attrs)
          (childNodes : list node)
| Text (data : jsstring)
| Comment (data : jsstring).

(** The children of the document node. *)
Definition Document := list node.

(** [document.documentElement] *)
Fixpoint documentElement (doc : Document) : option node :=
  match doc with
  | [] => None
  | Element i t a cs :: _ => Some (Element i t a cs)
  | _ :: rest => documentElement rest
  end.

(** [el.getAttribute(name)]; [None] is [null]. *)
Fixpoint getAttribute (a : Attrs) (name : jsstring) : option jsstring :=
  match a with
  | [] => None
  | (k, v) :: rest => if eqb k name then Some v else getAttribute rest name
  end.

(** [el.setAttribute(name, value)] *)
Fixpoint setAttribute (a : Attrs) (name value : jsstring) : Attrs :=
  match a with
  | [] => [(name, value)]
  | (k, v) :: rest =>
      if eqb k name then (k, value) :: rest
      else (k, v) :: setAttribute rest name value
  end.

(** [node.textContent] *)
Fixpoint textContent (n : node) : jsstring :=
  match n with
  | Element _ _ _ cs =>
      flat_map (fun c => match c with
                         | Comment _ => []
                         | _ => textContent c
                         end) cs
  | Text d => d
  | Comment d => d
  end.

(** The elements of a subtree in document order, with their identity, tag
    and attributes. *)
Fixpoint elements (n : node) : list (nat * jsstring * Attrs) :=
  match n with
  | Element i t a cs => (i, t, a) :: flat_map elements cs
  | _ => []
  end.

Definition doc_elements (doc : Document) : list (nat * jsstring * Attrs) :=
  flat_map elements doc.

(** Replace the nodes a rule selects by the nodes it gives, everywhere in
    a subtree. *)
Fixpoint rewrite_node (rule : node -> option (list node)) (n : node)
  : list node :=
  match rule n with
  | Some repl => repl
  | None =>
      match n with
      | Element i t a cs => [Element i t a (flat_map (rewrite_node rule) cs)]
      | _ => [n]
      end
  end.

(** Change the attributes of every element of a subtree. *)
Fixpoint map_attrs (g : nat -> jsstring -> Attrs -> Attrs) (n : node)
  : node :=
  match n with
  | Element i t a cs => Element i t (g i t a) (map (map_attrs g) cs)
  | _ => n
  end.

(** [parent.removeChild(element)] for the element [id], wherever it is
    attached; an element that is not in the document is left alone. *)
Definition is_element (id : nat) (n : node) : bool :=
  match n with
  | Element i _ _ _ => Nat.eqb i id
  | _ => false
  end.

Definition removeChild (id : nat) (doc : Document) : Document :=
  flat_map (rewrite_node (fun n => if is_element id n then Some [] else None))
    doc.

(** The unwrap loop on an element below the document element: its
    children are inserted before it, then it is removed. *)
Definition unwrap_inner (id : nat) (doc : Document) : Document :=
  flat_map
    (rewrite_node (fun n => match n with
                            | Element i _ _ cs =>
                                if Nat.eqb i id then Some cs else None
                            | _ => None
                            end))
    doc.

Definition is_comment (n : node) : bool :=
  match n with Comment _ => true | _ => false end.

Fixpoint leading_comments (l : list node) : list node * list node :=
  match l with
  | c :: rest =>
      if is_comment c
      then let (cm, r) := leading_comments rest in (c :: cm, r)
      else ([], l)
  | [] => ([], [])
  end.

(** The unwrap loop on a child of the document node.  The document
    accepts comments, but neither text nor a second element:
    [insertBefore] throws at the first such child, and what was moved
    before stays moved.  [None] when [id] is not a child of the
    document. *)
Fixpoint unwrap_top (id : nat) (doc : Document)
  : option (Document * bool) :=
  match doc with
  | [] => None
  | n :: rest =>
      match n with
      | Element i t a cs =>
          if Nat.eqb i id then
            let (cm, r) := leading_comments cs in
            match r with
            | [] => Some (cm ++ rest, false)
            | _ => Some (cm ++ Element i t a r :: rest, true)
            end
          else
            match unwrap_top id rest with
            | Some (d, threw) => Some (n :: d, threw)
            | None => None
            end
      | _ =>
          match unwrap_top id rest with
          | Some (d, threw) => Some (n :: d, threw)
          | None => None
          end
      end
  end.

(** One step of the unwrap [forEach]: the new document and whether the
    step threw. *)
Definition unwrapElement (id : nat) (doc : Document) : Document * bool :=
  match unwrap_top id doc with
  | Some r => r
  | None => (unwrap_inner id doc, false)
  end.

(** [document.getElementsByTagName(tag)] followed by an attribute update
    of each element found. *)
Definition update_by_tag (tags : list jsstring) (g : Attrs -> Attrs)
  (doc : Document) : Document :=
  map (map_attrs (fun _ t a => if existsb (eqb t) tags then g a else a)) doc.

(** *** Notions used in the statements about the rewriter *)

(** Two attribute lists with the same [src] and the same [href]. *)
Definition same_links (a a0 : Attrs) : Prop :=
  getAttribute a (lit "src") = getAttribute a0 (lit "src")
  /\ getAttribute a (lit "href") = getAttribute a0 (lit "href").

(** Every element of [out] is an element of [inp], with its [src] and
    [href] as they were. *)
Definition links_kept (out inp : list (nat * jsstring * Attrs)) : Prop :=
  forall i t a, In (i, t, a) out ->
    exists a0, In (i, t, a0) inp /\ same_links a a0.

End Dom.

(** ** The HTML rewriter and the title extractor ([src/htmlProcessor.ts]) *)

Module HtmlProcessor.

Import Dom.

(** The [jsdom] package and the [URL] class as the rewriter uses them.
    [JSDOM] is [None] where the constructor throws;
    [querySelectorAll] gives the identities of the matching elements in
    document order, or [None] where the selector does not parse;
    [querySelector] gives the first match or [null]. *)
Record Packages := {
  JSDOM : jsstring -> option Document;
  querySelectorAll : Document -> jsstring -> option (list nat);
  querySelector : Document -> jsstring -> option node;
  outerHTML : node -> jsstring;
  URL_origin : jsstring -> option jsstring }.

(** [arr.join(', ')] *)
Fixpoint join (sep : jsstring) (l : list jsstring) : jsstring :=
  match l with
  | [] => []
  | [s] => s
  | s :: rest => s ++ sep ++ join sep rest
  end.

(** The selector of the meta title: [meta], an opening bracket, [name=],
    the quoted word [title], a closing bracket. *)
Definition meta_title_selector : jsstring :=
  lit "meta[name=" ++ [34] ++ lit "title" ++ [34] ++ lit "]".

Definition keepAttributes : list jsstring :=
  [lit "href"; lit "src"; lit "alt"; lit "title"].

Definition mediaTags : list (jsstring * jsstring) :=
  [(lit "img", lit "src"); (lit "audio", lit "src"); (lit "video", lit "src");
   (lit "source", lit "src"); (lit "picture", lit "src")].

(** The tail of [markdownImageRegex] after the lazy part: a closing
    bracket, an opening parenthesis, then the captured group (a slash
    and at least one character other than a closing parenthesis) and the
    closing parenthesis.  Gives the group and what follows the match. *)
Definition match_link_tail (r : jsstring) : option (jsstring * jsstring) :=
  if startsWith r (lit "](/") then
    match break_at (fun c => c =? 41) (skipn 3 r) with
    | (c :: run, _ :: after) => Some (47 :: c :: run, after)
    | _ => None
    end
  else None.

(** The lazy [.*?]: the shortest run of [.] after which the tail
    matches. *)
Fixpoint match_lazy (r : jsstring) : option (jsstring * jsstring) :=
  match match_link_tail r with
  | Some m => Some m
  | None =>
      match r with
      | c :: r' => if re_dot c then match_lazy r' else None
      | [] => None
      end
  end.

(** A match of [markdownImageRegex] at the start of [s]. *)
Definition match_markdown_image (s : jsstring)
  : option (jsstring * jsstring) :=
  if startsWith s (lit "![") then match_lazy (skipn 2 s) else None.

(** [alt.replace(markdownImageRegex, (_, p1) => ...)]: every match, left
    to right, becomes an image reference to [origin + p1]; [skip] counts
    the units of a match still to pass over. *)
Fixpoint replace_from (origin : jsstring) (skip : nat) (s : jsstring)
  : jsstring :=
  match s with
  | [] => []
  | c :: s' =>
      match skip with
      | S k => replace_from origin k s'
      | O =>
          match match_markdown_image s with
          | Some (p1, after) =>
              lit "![Image](" ++ origin ++ p1 ++ lit ")"
              ++ replace_from origin (length s' - length after) s'
          | None => c :: replace_from origin 0 s'
          end
      end
  end.

Definition replace_markdown_images (origin alt : jsstring) : jsstring :=
  replace_from origin 0 alt.

(** A value starting with one slash gets the origin in front. *)
Definition absolutize_attr (origin name : jsstring) (a : Attrs) : Attrs :=
  match getAttribute a name with
  | Some val =>
      if truthy val && startsWith val (lit "/")
      then if negb (startsWith val (lit "//"))
           then setAttribute a name (origin ++ val)
           else a
      else a
  | None => a
  end.

Definition fix_alt (origin : jsstring) (a : Attrs) : Attrs :=
  match getAttribute a (lit "alt") with
  | Some (c :: alt) =>
      setAttribute a (lit "alt") (replace_markdown_images origin (c :: alt))
  | _ => a
  end.

Section WithPackages.

Variable P : Packages.
Variable env : Env.

Let sel : Selectors := selectors (config env).

(** [absolutizeMediaUrls]: nothing when the page URL does not parse. *)
Definition absolutizeMediaUrls (doc : Document) (pageUrl : jsstring)
  : Document :=
  match URL_origin P pageUrl with
  | None => doc
  | Some origin =>
      let doc :=
        fold_left
          (fun d m => update_by_tag [fst m] (absolutize_attr origin (snd m)) d)
          mediaTags doc in
      let doc :=
        update_by_tag [lit "a"]
          (fun a => fix_alt origin (absolutize_attr origin (lit "href") a))
          doc in
      update_by_tag [lit "img"] (fix_alt origin) doc
  end.

(** [processExcludeSelectors]: a selector that does not parse is caught
    and logged, the document stays as it is. *)
Definition processExcludeSelectors (doc : Document) : Document :=
  match exclude sel with
  | [] => doc
  | _ =>
      match querySelectorAll P doc (join (lit ", ") (exclude sel)) with
      | Some elements => fold_left (fun d id => removeChild id d) elements doc
      | None => doc
      end
  end.

(** The [forEach] of [processUnwrapSelectors]; a throwing step ends it. *)
Fixpoint unwrap_each (elements : list nat) (doc : Document) : Document :=
  match elements with
  | [] => doc
  | id :: rest =>
      let (doc', threw) := unwrapElement id doc in
      if threw then doc' else unwrap_each rest doc'
  end.

Definition processUnwrapSelectors (doc : Document) : Document :=
  match unwrap sel with
  | [] => doc
  | _ =>
      match querySelectorAll P doc (join (lit ", ") (unwrap sel)) with
      | Some elements => unwrap_each elements doc
      | None => doc
      end
  end.

(** [removeAttributes]: every attribute outside [keepAttributes] is
    removed from the elements the universal selector returns. *)
Definition removeAttributes_of (doc : Document) : Document :=
  match querySelectorAll P doc (lit "*") with
  | Some elements =>
      map (map_attrs
             (fun i _ a =>
                if existsb (Nat.eqb i) elements
                then filter (fun kv => existsb (eqb (fst kv)) keepAttributes) a
                else a))
        doc
  | None => doc
  end.

Definition applySelectors (doc : Document) : Document :=
  let doc := processExcludeSelectors doc in
  let doc := processUnwrapSelectors doc in
  if removeAttributes sel then removeAttributes_of doc else doc.

(** The [try] block of [process]; [None] where it throws. *)
Definition process_try (html : jsstring) (pageUrl : option jsstring)
  : option jsstring :=
  match JSDOM P html with
  | None => None
  | Some document =>
      let document := applySelectors document in
      let document :=
        match pageUrl with
        | Some (c :: u) => absolutizeMediaUrls document (c :: u)
        | _ => document
        end in
      match documentElement document with
      | Some root => Some (outerHTML P root)
      | None => None
      end
  end.

Definition process (html : jsstring) (pageUrl : option jsstring)
  : jsstring :=
  match process_try html pageUrl with
  | Some out => out
  | None => html
  end.

(** [extractPageTitle]; [None] is [null]. *)
Definition extractPageTitle (html : jsstring) : option jsstring :=
  match JSDOM P html with
  | None => None
  | Some document =>
      let from_text (el : option node) : option jsstring :=
        match el with
        | Some e => if truthy (textContent e)
                    then Some (trim (textContent e)) else None
        | None => None
        end in
      match from_text (querySelector P document (lit "title")) with
      | Some t => Some t
      | None =>
          match from_text (querySelector P document (lit "h1")) with
          | Some t => Some t
          | None =>
              match querySelector P document meta_title_selector with
              | Some (Element _ _ a _) =>
                  match getAttribute a (lit "content") with
                  | Some (c :: v) => Some (trim (c :: v))
                  | _ => None
                  end
              | _ => None
              end
          end
      end
  end.

End WithPackages.

End HtmlProcessor.

(** ** Outcomes of calls that can throw or fail to return *)

Inductive Outcome (A : Type) :=
| Done (a : A)
| Thrown
| Diverges.

Arguments Done {A} a.
Arguments Thrown {A}.
Arguments Diverges {A}.

(** What [axios.get] gives: a rejected promise or a response. *)
Inductive Response :=
| NetworkError
| Reply (status : Z) (data : jsstring).

(** ** Sitemap resolution ([src/sitemapParser.ts]) *)

Module SitemapParser.

(** A property that [xml2js] with [explicitArray: false] leaves
    undefined, sets to one value, or sets to an array. *)
Inductive OneOrMany (A : Type) :=
| Undefined
| One (a : A)
| Many (l : list A).

Arguments Undefined {A}.
Arguments One {A} a.
Arguments Many {A} l.

(** A [sitemap] or [url] entry with its [loc], when it has one. *)
Record Entry := { loc : option jsstring }.

(** The parsed document: a truthy [sitemapindex], a truthy [urlset], or
    neither. *)
Inductive Root :=
| Sitemapindex (sitemap : OneOrMany Entry)
| Urlset (url : OneOrMany Entry)
| OtherRoot.

(** [axios], [xml2js] and the two-argument [URL] constructor;
    [parseString] and [URL_resolve] are [None] where they throw. *)
Record Packages := {
  axios_get : jsstring -> Response;
  parseString : jsstring -> option Root;
  URL_resolve : jsstring -> jsstring -> option jsstring }.

(** [Array.isArray(x) ? x : [x]]; an undefined property becomes an array
    holding [undefined]. *)
Definition as_array {A} (x : OneOrMany A) : list (option A) :=
  match x with
  | Undefined => [None]
  | One a => [Some a]
  | Many l => map Some l
  end.

(** What the callback of [batch.map] does before it first awaits: it
    throws, has nothing to fetch, or has a child sitemap to resolve. *)
Inductive Started :=
| StartThrows
| NoLocation
| Child (sitemapUrl : jsstring).

(** [handleUrlset]: the trimmed locations of the entries that have
    one. *)
Definition handleUrlset (url : OneOrMany Entry) : list jsstring :=
  match url with
  | Undefined => []
  | One e =>
      match loc e with
      | Some (c :: l) => [trim (c :: l)]
      | _ => []
      end
  | Many es =>
      flat_map (fun e => match loc e with
                         | Some (c :: l) => [trim (c :: l)]
                         | _ => []
                         end) es
  end.

Section WithPackages.

Variable P : Packages.
Variable env : Env.

Definition start (baseUrl : jsstring) (sitemap : option Entry) : Started :=
  match sitemap with
  | None => StartThrows
  | Some e =>
      match loc e with
      | Some (c :: l) =>
          match URL_resolve P (c :: l) baseUrl with
          | Some sitemapUrl => Child sitemapUrl
          | None => StartThrows
          end
      | _ => NoLocation
      end
  end.

(** [Promise.all] over the callbacks of one batch: it rejects when a
    callback threw, and otherwise gives the results in batch order. *)
Fixpoint await_all (rec : jsstring -> Outcome (list jsstring))
  (batch : list Started) : Outcome (list (list jsstring)) :=
  match batch with
  | [] => Done []
  | s :: rest =>
      let this := match s with
                  | StartThrows => Thrown
                  | NoLocation => Done []
                  | Child u => rec u
                  end in
      match this, await_all rec rest with
      | Done urls, Done more => Done (urls :: more)
      | Thrown, _ => Thrown
      | _, Thrown => Thrown
      | _, _ => Diverges
      end
  end.

(** The batch loop of [handleSitemapIndex], from index [i] on. *)
Fixpoint index_loop (fuel : nat) (rec : jsstring -> Outcome (list jsstring))
  (baseUrl : jsstring) (sitemaps : list (option Entry)) (i : Z)
  (allUrls : list jsstring) : Outcome (list jsstring) :=
  if i <? Z.of_nat (length sitemaps) then
    match fuel with
    | O => Diverges
    | S fuel' =>
        let batch := slice sitemaps i (i + maxConcurrent (config env)) in
        match await_all rec (map (start baseUrl) batch) with
        | Done results =>
            index_loop fuel' rec baseUrl sitemaps
              (i + maxConcurrent (config env)) (allUrls ++ concat results)
        | Thrown => Thrown
        | Diverges => Diverges
        end
    end
  else Done allUrls.

Definition handleSitemapIndex (fuel : nat)
  (rec : jsstring -> Outcome (list jsstring))
  (sitemap : OneOrMany Entry) (baseUrl : jsstring)
  : Outcome (list jsstring) :=
  index_loop fuel rec baseUrl (as_array sitemap) 0 [].

(** [parseSitemapContent]: whatever throws inside is caught and gives
    the empty array. *)
Definition parseSitemapContent (fuel : nat)
  (rec : jsstring -> Outcome (list jsstring))
  (content baseUrl : jsstring) : Outcome (list jsstring) :=
  match parseString P content with
  | None => Done []
  | Some (Sitemapindex sitemap) =>
      match handleSitemapIndex fuel rec sitemap baseUrl with
      | Thrown => Done []
      | r => r
      end
  | Some (Urlset url) => Done (handleUrlset url)
  | Some OtherRoot => Done []
  end.

(** [parseFromUrl]; the fuel bounds the depth of the sitemap tree and
    the number of batches of an index. *)
Fixpoint parseFromUrl (fuel : nat) (sitemapUrl : jsstring)
  : Outcome (list jsstring) :=
  match fuel with
  | O => Diverges
  | S fuel' =>
      match axios_get P sitemapUrl with
      | NetworkError => Done []
      | Reply status data =>
          if status =? 200
          then match parseSitemapContent fuel' (parseFromUrl fuel')
                       data sitemapUrl with
               | Thrown => Done []
               | r => r
               end
          else Done []
      end
  end.

End WithPackages.

(** *** Notions used in the statements about sitemap resolution *)




End SitemapParser.

(** ** The batch pipeline ([src/index.ts])

    Calls run in a monad over the state of the outside world: the
    requests sent, the files written and the trace of what was logged
    and done. *)

Module Pipeline.

Inductive Event :=
| Fetching (url : jsstring)
| FetchRetry (url : jsstring) (attempt : Z)
| FetchFailed (url : jsstring)
| Converting (url : jsstring)
| ConvertRetry (url : jsstring) (attempt : Z)
| ConvertFailed (url : jsstring)
| ConvertingFetched (url : jsstring)
| ConvertError
| FetchingForTitle (url : jsstring)
| FoundTitle (pageTitle : jsstring)
| NoTitleFound
| Saved (filePath : jsstring)
| ProcessError (url : jsstring)
| Progress (completed total : Z)
| Sleep (ms : Z)
| Turndown (input : jsstring).

(** The entries written with [console.error]. *)
Definition is_failure (e : Event) : bool :=
  match e with
  | FetchFailed _ | ConvertFailed _ | ConvertError | ProcessError _ => true
  | _ => false
  end.

(** The latest request, file and event come first. *)
Record World := {
  sent : list jsstring;
  files : list (jsstring * jsstring);
  trace : list Event }.

Definition M (A : Type) : Type := World -> Outcome A * World.

Definition ret {A} (a : A) : M A := fun w => (Done a, w).

Definition bind {A B} (m : M A) (k : A -> M B) : M B :=
  fun w =>
    match m w with
    | (Done a, w') => k a w'
    | (Thrown, w') => (Thrown, w')
    | (Diverges, w') => (Diverges, w')
    end.

Definition throw {A} : M A := fun w => (Thrown, w).

Definition diverge {A} : M A := fun w => (Diverges, w).

(** [try { m } catch { handler }] *)
Definition try_catch {A} (m : M A) (handler : M A) : M A :=
  fun w =>
    match m w with
    | (Thrown, w') => handler w'
    | r => r
    end.

Definition emit (e : Event) : M unit :=
  fun w => (Done tt, {| sent := sent w; files := files w;
                        trace := e :: trace w |}).

Declare Scope pipeline_scope.
Delimit Scope pipeline_scope with pipeline.
Notation "x <- m ;; k" := (bind m (fun x => k))
  (at level 61, m at next level, right associativity) : pipeline_scope.
Notation "m ;; k" := (bind m (fun _ => k))
  (at level 61, right associativity) : pipeline_scope.
Open Scope pipeline_scope.

(** [axios_get url n] answers the request to [url] that comes after [n]
    earlier ones; [turndown] is [None] where the converter throws;
    [ensureDir] and [writeFile] tell whether the call succeeds. *)
Record Packages := {
  axios_get : jsstring -> nat -> Response;
  turndown : TurndownOptions -> jsstring -> option jsstring;
  ensureDir : jsstring -> bool;
  writeFile : jsstring -> bool;
  html_packages : HtmlProcessor.Packages;
  path_packages : PathMapper.Packages }.

Fixpoint count_sent (url : jsstring) (l : list jsstring) : nat :=
  match l with
  | [] => O
  | u :: rest => if eqb u url then S (count_sent url rest)
                 else count_sent url rest
  end.

Section WithPackages.

Variable P : Packages.
Variable env : Env.

Let RETRY_ATTEMPTS : Z := retryAttempts (config env).
Let RETRY_DELAY : Z := retryDelay (config env).
Let MAX_CONCURRENT : Z := maxConcurrent (config env).
Let fopts : FileOptions := fileOptions (config env).

(** [await axios.get(url, ...)] and the status check. *)
Definition get (url : jsstring) : M jsstring :=
  fun w =>
    let w' := {| sent := url :: sent w; files := files w;
                 trace := trace w |} in
    match axios_get P url (count_sent url (sent w)) with
    | NetworkError => (Thrown, w')
    | Reply status data =>
        if status =? 200 then (Done data, w') else (Thrown, w')
    end.

(** [fetchHtmlContent]; [left] is the number of retries the counter
    still allows. *)
Fixpoint fetch_loop (left : nat) (url : jsstring) (retryCount : Z)
  : M jsstring :=
  emit (Fetching url) ;;
  try_catch (get url)
    (if retryCount <? RETRY_ATTEMPTS then
       emit (FetchRetry url (retryCount + 1)) ;;
       emit (Sleep RETRY_DELAY) ;;
       match left with
       | S k => fetch_loop k url (retryCount + 1)
       | O => diverge
       end
     else
       emit (FetchFailed url) ;; throw).

Definition fetchHtmlContent (url : jsstring) (retryCount : Z) : M jsstring :=
  fetch_loop (Z.to_nat (RETRY_ATTEMPTS - retryCount)) url retryCount.

(** The comment lines and the markdown of the final content. *)
Definition finalContent (url markdownContent : jsstring) : jsstring :=
  (if addSourceUrl fopts
   then lit "<!-- Source: " ++ url ++ lit " -->" ++ [10; 10] else [])
  ++ (if addDate fopts
      then lit "<!-- Generated: " ++ now env ++ lit " -->" ++ [10; 10]
      else [])
  ++ markdownContent.

(** The conversion both converting functions share: the call of
    [turndown] and the check of its result. *)
Definition turndown_content (url htmlContent : jsstring) : M jsstring :=
  emit (Turndown htmlContent) ;;
  match turndown P (turndownOptions (config env)) htmlContent with
  | Some (c :: md) => ret (finalContent url (c :: md))
  | _ => throw
  end.

(** [convertHtmlToMarkdown] *)
Fixpoint convert_loop (left : nat) (url : jsstring) (retryCount : Z)
  : M jsstring :=
  emit (Converting url) ;;
  try_catch
    (htmlContent <- fetchHtmlContent url 0 ;;
     let htmlContent :=
       HtmlProcessor.process (html_packages P) env htmlContent None in
     turndown_content url htmlContent)
    (if retryCount <? RETRY_ATTEMPTS then
       emit (ConvertRetry url (retryCount + 1)) ;;
       emit (Sleep RETRY_DELAY) ;;
       match left with
       | S k => convert_loop k url (retryCount + 1)
       | O => diverge
       end
     else
       emit (ConvertFailed url) ;; throw).

Definition convertHtmlToMarkdown (url : jsstring) (retryCount : Z)
  : M jsstring :=
  convert_loop (Z.to_nat (RETRY_ATTEMPTS - retryCount)) url retryCount.

(** [convertHtmlWithContent] *)
Definition convertHtmlWithContent (url htmlContent : jsstring)
  : M jsstring :=
  emit (ConvertingFetched url) ;;
  try_catch (turndown_content url htmlContent)
    (emit ConvertError ;; throw).

Definition fs_ensureDir (dirPath : jsstring) : M unit :=
  if ensureDir P dirPath then ret tt else throw.

Definition fs_writeFile (filePath content : jsstring) : M unit :=
  fun w =>
    if writeFile P filePath
    then (Done tt, {| sent := sent w;
                      files := (filePath, content) :: files w;
                      trace := trace w |})
    else (Thrown, w).

(** [processUrl] *)
Definition processUrl (url : jsstring) : M unit :=
  try_catch
    (fetched <-
       (if usePageTitlesForFilenames fopts then
          emit (FetchingForTitle url) ;;
          htmlContent <- fetchHtmlContent url 0 ;;
          let pageTitle :=
            HtmlProcessor.extractPageTitle (html_packages P) htmlContent in
          match pageTitle with
          | Some (c :: t) => emit (FoundTitle (c :: t))
          | _ => emit NoTitleFound
          end ;;
          ret (pageTitle, Some htmlContent)
        else ret (None, None)) ;;
     let pageTitle : option jsstring := fst fetched in
     let htmlContent : option jsstring := snd fetched in
     let paths :=
       PathMapper.getOutputPaths (path_packages P) env url pageTitle in
     markdown <-
       match htmlContent with
       | Some (c :: h) =>
           let processedHtml :=
             HtmlProcessor.process (html_packages P) env (c :: h) None in
           convertHtmlWithContent url processedHtml
       | _ => convertHtmlToMarkdown url 0
       end ;;
     fs_ensureDir (PathMapper.dirPath paths) ;;
     fs_writeFile (PathMapper.filePath paths) markdown ;;
     emit (Saved (PathMapper.filePath paths)))
    (emit (ProcessError url)).

(** [Promise.all(batch.map(url => processUrl(url)))].  The jobs of a
    batch interleave at their awaits; here they run in batch order, one
    after the other.  A job that threw would reject the whole batch. *)
Fixpoint process_batch (batch : list jsstring) : M unit :=
  match batch with
  | [] => ret tt
  | url :: rest => processUrl url ;; process_batch rest
  end.

(** The loop of [processUrlsInBatches], from index [i] on. *)
Fixpoint batch_loop (fuel : nat) (urls : list jsstring) (i completed : Z)
  : M unit :=
  if i <? Z.of_nat (length urls) then
    match fuel with
    | O => diverge
    | S fuel' =>
        let batch := slice urls i (i + MAX_CONCURRENT) in
        process_batch batch ;;
        let completed := completed + Z.of_nat (length batch) in
        emit (Progress completed (Z.of_nat (length urls))) ;;
        batch_loop fuel' urls (i + MAX_CONCURRENT) completed
    end
  else ret tt.

Definition processUrlsInBatches (fuel : nat) (urls : list jsstring)
  : M unit :=
  batch_loop fuel urls 0 0.

End WithPackages.

(** Nothing sent, written or logged yet. *)
Definition fresh : World := {| sent := []; files := []; trace := [] |}.

(** *** Notions used in the statements about the pipeline *)

(** A page the server answered a request with. *)
Definition served (P : Packages) (data : jsstring) : Prop :=
  exists url n, axios_get P url n = Reply 200 data.

(** The markup handed to the converter is what the rewriter gives for a
    served page when it is called without a page URL. *)
Definition unabsolutized (P : Packages) (env : Env) (e : Event) : Prop :=
  match e with
  | Turndown input =>
      exists data,
        served P data
        /\ input = HtmlProcessor.process (html_packages P) env data None
  | _ => True
  end.

(** [m] only adds events that satisfy [Q] to the trace, and what it
    returns satisfies [R]. *)
Definition adds {A} (Q : Event -> Prop) (R : A -> Prop) (m : M A) : Prop :=
  forall w,
    (exists l, trace (snd (m w)) = l ++ trace w /\ Forall Q l)
    /\ (forall a, fst (m w) = Done a -> R a).

Definition anything {A} (a : A) : Prop := True.

(** [m] returns or throws: it does not run forever. *)
Definition total {A} (m : M A) : Prop := forall w, fst (m w) <> Diverges.

End Pipeline.

(** ** Reference instances of [jsdom], [xml2js], [axios], [turndown] and
    [fs] on sample pages and sitemaps *)

Module RefHtml.

Import Dom HtmlProcessor.

Definition quote : jsstring := [34].

Definition el (id : nat) (tag : string) (a : Attrs) (cs : list node) : node :=
  Element id (lit tag) a cs.

(** A page whose title holds one space, with a heading. *)
Definition page_blank_title : jsstring :=
  lit "<html><head><title> </title></head><body><h1>Hello</h1></body></html>".

Definition doc_blank_title : Document :=
  [el 0 "html" []
     [el 1 "head" [] [el 2 "title" [] [Text (lit " ")]];
      el 3 "body" [] [el 4 "h1" [] [Text (lit "Hello")]]]].

(** A fragment; the parser supplies the missing elements. *)
Definition page_fragment : jsstring := lit "<p>hi</p>".

Definition doc_fragment : Document :=
  [el 0 "html" []
     [el 1 "head" [] [];
      el 2 "body" [] [el 3 "p" [] [Text (lit "hi")]]]].

(** A page with a navigation bar, a wrapper, a root-relative link and a
    root-relative image. *)
Definition page_links : jsstring :=
  lit "<html><head><title>Docs</title></head><body><nav>menu</nav>"
  ++ lit "<div class=" ++ quote ++ lit "wrapper" ++ quote ++ lit ">"
  ++ lit "<a href=" ++ quote ++ lit "/guide" ++ quote
  ++ lit " class=" ++ quote ++ lit "btn" ++ quote ++ lit ">Guide</a>"
  ++ lit "<img src=" ++ quote ++ lit "/logo.png" ++ quote ++ lit ">"
  ++ lit "</div></body></html>".

Definition doc_links : Document :=
  [el 0 "html" []
     [el 1 "head" [] [el 2 "title" [] [Text (lit "Docs")]];
      el 3 "body" []
        [el 4 "nav" [] [Text (lit "menu")];
         el 5 "div" [(lit "class", lit "wrapper")]
           [el 6 "a" [(lit "href", lit "/guide"); (lit "class", lit "btn")]
              [Text (lit "Guide")];
            el 7 "img" [(lit "src", lit "/logo.png")] []]]]].

Definition pages : list (jsstring * Document) :=
  [(page_blank_title, doc_blank_title);
   (page_fragment, doc_fragment);
   (page_links, doc_links)].

Fixpoint lookup {A} (k : jsstring) (l : list (jsstring * A)) : option A :=
  match l with
  | [] => None
  | (k', v) :: rest => if eqb k' k then Some v else lookup k rest
  end.

Definition JSDOM (html : jsstring) : option Document := lookup html pages.

(** Selectors: a comma-separated list of the universal selector, type
    selectors, class selectors and id selectors; anything else does not
    parse. *)
Definition is_ident_unit (c : Z) : bool :=
  ((97 <=? c) && (c <=? 122)) || ((65 <=? c) && (c <=? 90))
  || ((48 <=? c) && (c <=? 57)) || (c =? 45) || (c =? 95).

Definition is_ident (s : jsstring) : bool := truthy s && forallb is_ident_unit s.

Inductive Simple :=
| Universal
| ByTag (t : jsstring)
| ByClass (c : jsstring)
| ById (i : jsstring).

Definition parse_simple (s : jsstring) : option Simple :=
  match JS.trim s with
  | [42] => Some Universal
  | 46 :: c => if is_ident c then Some (ByClass c) else None
  | 35 :: i => if is_ident i then Some (ById i) else None
  | t => if is_ident t then Some (ByTag t) else None
  end.

Fixpoint parse_all (l : list jsstring) : option (list Simple) :=
  match l with
  | [] => Some []
  | s :: rest =>
      match parse_simple s, parse_all rest with
      | Some x, Some xs => Some (x :: xs)
      | _, _ => None
      end
  end.

Definition matches (tag : jsstring) (a : Attrs) (x : Simple) : bool :=
  match x with
  | Universal => true
  | ByTag t => eqb (toLowerCase t) tag
  | ByClass c =>
      match getAttribute a (lit "class") with
      | Some v => existsb (eqb c) (split_on (fun u => u =? 32) v)
      | None => false
      end
  | ById i =>
      match getAttribute a (lit "id") with
      | Some v => eqb v i
      | None => false
      end
  end.

Definition querySelectorAll (doc : Document) (selector : jsstring)
  : option (list nat) :=
  match parse_all (split_on (fun c => c =? 44) selector) with
  | Some xs =>
      Some (map (fun e => fst (fst e))
              (filter (fun e => existsb (matches (snd (fst e)) (snd e)) xs)
                 (doc_elements doc)))
  | None => None
  end.

Fixpoint find_node (p : nat -> jsstring -> Attrs -> bool) (n : node)
  : option node :=
  match n with
  | Element i t a cs =>
      if p i t a then Some n
      else (fix first (l : list node) : option node :=
              match l with
              | [] => None
              | c :: rest =>
                  match find_node p c with
                  | Some r => Some r
                  | None => first rest
                  end
              end) cs
  | _ => None
  end.

Fixpoint find_in (p : nat -> jsstring -> Attrs -> bool) (doc : Document)
  : option node :=
  match doc with
  | [] => None
  | n :: rest =>
      match find_node p n with
      | Some r => Some r
      | None => find_in p rest
      end
  end.

Definition querySelector (doc : Document) (selector : jsstring)
  : option node :=
  if eqb selector meta_title_selector then
    find_in (fun _ t a =>
               eqb t (lit "meta")
               && match getAttribute a (lit "name") with
                  | Some v => eqb v (lit "title")
                  | None => false
                  end) doc
  else
    match parse_all (split_on (fun c => c =? 44) selector) with
    | Some xs => find_in (fun _ t a => existsb (matches t a) xs) doc
    | None => None
    end.

(** Serialization: tags, attributes in double quotes, children; the
    ampersand and the angle brackets of text are escaped. *)
Definition escape_text (s : jsstring) : jsstring :=
  flat_map (fun c => if c =? 38 then lit "&amp;"
                     else if c =? 60 then lit "&lt;"
                     else if c =? 62 then lit "&gt;"
                     else [c]) s.

Definition escape_value (s : jsstring) : jsstring :=
  flat_map (fun c => if c =? 38 then lit "&amp;"
                     else if c =? 34 then lit "&quot;"
                     else [c]) s.

Definition voidElements : list jsstring :=
  [lit "img"; lit "br"; lit "hr"; lit "meta"; lit "link"; lit "input";
   lit "source"].

Definition serialize_attrs (a : Attrs) : jsstring :=
  flat_map (fun kv => lit " " ++ fst kv ++ lit "=" ++ quote
                      ++ escape_value (snd kv) ++ quote) a.

Fixpoint outerHTML (n : node) : jsstring :=
  match n with
  | Element _ t a cs =>
      lit "<" ++ t ++ serialize_attrs a ++ lit ">"
      ++ (if existsb (eqb t) voidElements then []
          else flat_map outerHTML cs ++ lit "</" ++ t ++ lit ">")
  | Text d => escape_text d
  | Comment d => lit "<!--" ++ d ++ lit "-->"
  end.

(** [new URL(pageUrl).origin] for an [http(s)://host/...] address. *)
Definition URL_origin (pageUrl : jsstring) : option jsstring :=
  match Ref.URL_new pageUrl with
  | Some u =>
      Some ((if startsWith pageUrl (lit "https://")
             then lit "https://" else lit "http://")
            ++ PathMapper.hostname u)
  | None => None
  end.

Definition packages : HtmlProcessor.Packages := {|
  HtmlProcessor.JSDOM := JSDOM;
  HtmlProcessor.querySelectorAll := querySelectorAll;
  HtmlProcessor.querySelector := querySelector;
  HtmlProcessor.outerHTML := outerHTML;
  HtmlProcessor.URL_origin := URL_origin |}.

(** An environment whose exclude selector does not parse. *)
Definition env_bad_selector : Env :=
  {| config :=
       {| outputDir := lit "dist"; maxConcurrent := 3; timeout := 30000;
          retryAttempts := 3; retryDelay := 3000;
          urlSource := urlSource DEFAULT_CONFIG;
          selectors := {| exclude := [lit "["]; unwrap := [];
                          removeAttributes := false |};
          turndownOptions := turndownOptions DEFAULT_CONFIG;
          userAgent := userAgent DEFAULT_CONFIG;
          fileOptions := fileOptions DEFAULT_CONFIG |};
     now := now Ref.env |}.

End RefHtml.

Module RefSitemap.

Import SitemapParser.

(** An index of two leaf sitemaps with two pages each; the second leaf
    is given by a relative location. *)
Definition index_url : jsstring := lit "https://example.com/sitemap.xml".
Definition pages_url : jsstring := lit "https://example.com/sitemap-pages.xml".
Definition posts_url : jsstring := lit "https://example.com/sitemap-posts.xml".
Definition gone_url : jsstring := lit "https://example.com/sitemap-gone.xml".

Definition entry (l : string) : Entry := {| loc := Some (lit l) |}.

Definition documents : list (jsstring * Root) :=
  [(lit "index",
    Sitemapindex (Many [entry "https://example.com/sitemap-pages.xml";
                        entry "/sitemap-posts.xml"]));
   (lit "index-with-gone",
    Sitemapindex (Many [entry "https://example.com/sitemap-pages.xml";
                        entry "https://example.com/sitemap-gone.xml";
                        entry "/sitemap-posts.xml"]));
   (lit "pages",
    Urlset (Many [entry "https://example.com/";
                  entry " https://example.com/about "]));
   (lit "posts",
    Urlset (Many [entry "https://example.com/blog/post1";
                  entry "https://example.com/blog/post2"]))].

Definition parseString (content : jsstring) : option Root :=
  RefHtml.lookup content documents.

Definition site : list (jsstring * Response) :=
  [(index_url, Reply 200 (lit "index"));
   (lit "https://example.com/sitemap-3.xml",
    Reply 200 (lit "index-with-gone"));
   (pages_url, Reply 200 (lit "pages"));
   (posts_url, Reply 200 (lit "posts"));
   (gone_url, Reply 404 (lit "not found"))].

Definition axios_get (url : jsstring) : Response :=
  match RefHtml.lookup url site with
  | Some r => r
  | None => NetworkError
  end.

(** [new URL(loc, base).toString()] for an absolute [http(s)] location
    or a root-relative one. *)
Definition URL_resolve (l base : jsstring) : option jsstring :=
  match Ref.URL_new l with
  | Some _ => Some l
  | None =>
      if startsWith l (lit "/") then
        match RefHtml.URL_origin base with
        | Some origin => Some (origin ++ l)
        | None => None
        end
      else None
  end.

Definition packages : Packages := {|
  SitemapParser.axios_get := axios_get;
  SitemapParser.parseString := parseString;
  SitemapParser.URL_resolve := URL_resolve |}.

End RefSitemap.

Module RefPipeline.

Import Pipeline.

(** A server that fails the first [failures] requests and then serves
    the page. *)
Definition flaky (failures : nat) (page : jsstring)
  (url : jsstring) (n : nat) : Response :=
  if Nat.ltb n failures then NetworkError else Reply 200 page.

(** The converter is a black box; the instance hands the markup back. *)
Definition packages (failures : nat) : Packages := {|
  axios_get := flaky failures RefHtml.page_links;
  turndown := fun _ html => Some html;
  ensureDir := fun _ => true;
  writeFile := fun _ => true;
  html_packages := RefHtml.packages;
  path_packages := Ref.packages |}.

Definition page_url : jsstring := lit "https://example.com/docs/intro".

End RefPipeline.

(** ** URL sources: [getUrls], [getFileUrls], [getSitemapUrls]
    ([src/index.ts]) *)

Module UrlSource.

(** [fs.promises.readFile(path, 'utf-8')]; [None] where it rejects. *)
Record Packages := {
  readFile : jsstring -> option jsstring;
  sitemap_packages : SitemapParser.Packages }.

(** The filter of [getFileUrls]: [line && !line.startsWith('//')]. *)
Definition keep_line (line : jsstring) : bool :=
  truthy line && negb (startsWith line (lit "//")).

Section WithPackages.

Variable P : Packages.
Variable env : Env.

(** [getFileUrls]: an unreadable file is logged and gives no URL. *)
Definition getFileUrls (filePath : jsstring) : list jsstring :=
  match readFile P filePath with
  | Some content =>
      filter keep_line (map trim (split_on (fun c => c =? 10) content))
  | None => []
  end.

(** [getSitemapUrls]: whatever [parseFromUrl] throws is caught. *)
Definition getSitemapUrls (fuel : nat) (sitemapUrl : jsstring)
  : Outcome (list jsstring) :=
  match SitemapParser.parseFromUrl (sitemap_packages P) env fuel sitemapUrl
  with
  | Thrown => Done []
  | r => r
  end.

(** [getUrls] *)
Definition getUrls (fuel : nat) : Outcome (list jsstring) :=
  let src := urlSource (config env) in
  match source_type src with
  | SourceSitemap =>
      if truthy (source_sitemap src)
      then getSitemapUrls fuel (source_sitemap src)
      else Done (getFileUrls (source_file src))
  | SourceFile => Done (getFileUrls (source_file src))
  end.

End WithPackages.

End UrlSource.

(** ** Command-line handling: [processCLI] ([src/cli.ts]) *)

Module Cli.

Definition set_outputDir (c : Config) (v : jsstring) : Config :=
  {| outputDir := v; maxConcurrent := maxConcurrent c;
     timeout := timeout c; retryAttempts := retryAttempts c;
     retryDelay := retryDelay c; urlSource := urlSource c;
     selectors := selectors c; turndownOptions := turndownOptions c;
     userAgent := userAgent c; fileOptions := fileOptions c |}.

Definition set_maxConcurrent (c : Config) (v : Z) : Config :=
  {| outputDir := outputDir c; maxConcurrent := v;
     timeout := timeout c; retryAttempts := retryAttempts c;
     retryDelay := retryDelay c; urlSource := urlSource c;
     selectors := selectors c; turndownOptions := turndownOptions c;
     userAgent := userAgent c; fileOptions := fileOptions c |}.

Definition set_urlSource (c : Config) (s : UrlSource) : Config :=
  {| outputDir := outputDir c; maxConcurrent := maxConcurrent c;
     timeout := timeout c; retryAttempts := retryAttempts c;
     retryDelay := retryDelay c; urlSource := s;
     selectors := selectors c; turndownOptions := turndownOptions c;
     userAgent := userAgent c; fileOptions := fileOptions c |}.

Definition set_fileOptions (c : Config) (f : FileOptions) : Config :=
  {| outputDir := outputDir c; maxConcurrent := maxConcurrent c;
     timeout := timeout c; retryAttempts := retryAttempts c;
     retryDelay := retryDelay c; urlSource := urlSource c;
     selectors := selectors c; turndownOptions := turndownOptions c;
     userAgent := userAgent c; fileOptions := f |}.

(** [config.urlSource.type = 'file'; config.urlSource.file = v] *)
Definition use_file (c : Config) (v : jsstring) : Config :=
  set_urlSource c {| source_type := SourceFile; source_file := v;
                     source_sitemap := source_sitemap (urlSource c) |}.

(** [config.urlSource.type = 'sitemap'; config.urlSource.sitemap = v] *)
Definition use_sitemap (c : Config) (v : jsstring) : Config :=
  set_urlSource c {| source_type := SourceSitemap;
                     source_file := source_file (urlSource c);
                     source_sitemap := v |}.

(** The two assignments of [--use-titles] and of [--use-url-paths]. *)
Definition set_naming (c : Config) (titles preserve : bool) : Config :=
  set_fileOptions c
    {| addSourceUrl := addSourceUrl (fileOptions c);
       addDate := addDate (fileOptions c);
       useDomainSubfolders := useDomainSubfolders (fileOptions c);
       usePageTitlesForFilenames := titles;
       preserveUrlFilenames := preserve |}.

Definition set_domainFolders (c : Config) (b : bool) : Config :=
  set_fileOptions c
    {| addSourceUrl := addSourceUrl (fileOptions c);
       addDate := addDate (fileOptions c);
       useDomainSubfolders := b;
       usePageTitlesForFilenames :=
         usePageTitlesForFilenames (fileOptions c);
       preserveUrlFilenames := preserveUrlFilenames (fileOptions c) |}.

(** [arg.split('=')[1]] for an argument that holds an equals sign. *)
Definition value_of (arg : jsstring) : jsstring :=
  hd [] (tl (split_on (fun c => c =? 61) arg)).

(** [i + 1 < args.length] *)
Definition has_next (rest : list jsstring) : bool :=
  match rest with [] => false | _ => true end.

Section WithParseInt.

(** [parseInt(s, 10)]; [None] is [NaN]. *)
Variable parseInt : jsstring -> option Z.

(** The loop of [processCLI] over the arguments left.  [None] is the
    [process.exit(0)] of [showHelp]; otherwise the configuration and
    [configUpdated]. *)
Fixpoint process_args (args : list jsstring) (config : Config)
  (configUpdated : bool) : option (Config * bool) :=
  match args with
  | [] => Some (config, configUpdated)
  | arg :: rest =>
      if eqb arg (lit "--help") || eqb arg (lit "-h") then None
      else if startsWith arg (lit "--output-dir=") then
        process_args rest (set_outputDir config (value_of arg)) true
      else if eqb arg (lit "-o") && has_next rest then
        match rest with
        | v :: rest' => process_args rest' (set_outputDir config v) true
        | [] => Some (config, configUpdated)
        end
      else if startsWith arg (lit "--url-file=") then
        process_args rest (use_file config (value_of arg)) true
      else if eqb arg (lit "-f") && has_next rest then
        match rest with
        | v :: rest' => process_args rest' (use_file config v) true
        | [] => Some (config, configUpdated)
        end
      else if startsWith arg (lit "--sitemap=") then
        process_args rest (use_sitemap config (value_of arg)) true
      else if eqb arg (lit "-s") && has_next rest then
        match rest with
        | v :: rest' => process_args rest' (use_sitemap config v) true
        | [] => Some (config, configUpdated)
        end
      else if startsWith arg (lit "--max-concurrent=") then
        match parseInt (value_of arg) with
        | Some value =>
            process_args rest (set_maxConcurrent config value) true
        | None => process_args rest config configUpdated
        end
      else if eqb arg (lit "-c") && has_next rest then
        match rest with
        | v :: rest' =>
            match parseInt v with
            | Some value =>
                process_args rest' (set_maxConcurrent config value) true
            | None => process_args rest' config configUpdated
            end
        | [] => Some (config, configUpdated)
        end
      else if eqb arg (lit "--use-titles") || eqb arg (lit "-t") then
        process_args rest (set_naming config true false) true
      else if eqb arg (lit "--use-url-paths") || eqb arg (lit "-u") then
        process_args rest (set_naming config false true) true
      else if eqb arg (lit "--domain-folders") || eqb arg (lit "-d") then
        process_args rest (set_domainFolders config true) true
      else if eqb arg (lit "--flat-structure") || eqb arg (lit "-n") then
        process_args rest (set_domainFolders config false) true
      else process_args rest config configUpdated
  end.

End WithParseInt.

End Cli.

(** ** A URL file with a comment line, an empty line and padded lines *)

Module RefFiles.

Definition urls_txt : jsstring :=
  lit "https://example.com/a" ++ [13; 10]
  ++ lit "  // a comment" ++ [10]
  ++ [10]
  ++ lit " https://example.com/b ".

Definition readFile (path : jsstring) : option jsstring :=
  if eqb path (lit "urls.txt") then Some urls_txt else None.

Definition packages : UrlSource.Packages := {|
  UrlSource.readFile := readFile;
  UrlSource.sitemap_packages := RefSitemap.packages |}.

(** [parseInt(s, 10)]: leading white space is skipped, a sign is read,
    and the longest run of decimal digits gives the value; without a
    digit the result is [NaN].  The value is exact below [2 ^ 53]. *)
Definition digits_value (s : jsstring) : Z :=
  fold_left (fun acc c => 10 * acc + (c - 48)) s 0.

Definition parseInt (s : jsstring) : option Z :=
  let s := trim_start s in
  let signed :=
    match s with
    | 45 :: r => (-1, r)
    | 43 :: r => (1, r)
    | _ => (1, s)
    end in
  match fst (break_at (fun c => negb (Ref.is_digit c)) (snd signed)) with
  | [] => None
  | ds => Some (fst signed * digits_value ds)
  end.

End RefFiles.

(** ** An environment with a given [maxConcurrent] *)

Module RefEnv.

Definition env_max_concurrent (n : Z) : Env :=
  {| config := Cli.set_maxConcurrent (config Ref.env) n;
     now := now Ref.env |}.

End RefEnv.

(** ** A sitemap index with an entry whose location is no URL *)

Module RefBrokenIndex.

Import SitemapParser.

Definition index_url : jsstring :=
  lit "https://example.com/sitemap-broken.xml".

(** The first entry is the leaf sitemap of the pages; the location of the
    second has a scheme and no host. *)
Definition index : OneOrMany Entry :=
  Many [RefSitemap.entry "https://example.com/sitemap-pages.xml";
        RefSitemap.entry "http://"].

Definition parseString (content : jsstring) : option Root :=
  if eqb content (lit "index-broken") then Some (Sitemapindex index)
  else RefSitemap.parseString content.

Definition axios_get (url : jsstring) : Response :=
  if eqb url index_url then Reply 200 (lit "index-broken")
  else RefSitemap.axios_get url.

Definition packages : Packages := {|
  SitemapParser.axios_get := axios_get;
  SitemapParser.parseString := parseString;
  SitemapParser.URL_resolve := RefSitemap.URL_resolve |}.

End RefBrokenIndex.

(** ** Notions used in the further properties *)

Module Observe.

Import Dom.

(** What a child node adds to the [textContent] of its parent. *)
Definition visible (c : node) : jsstring :=
  match c with
  | Comment _ => []
  | _ => textContent c
  end.

(** The text of a document: the text of its nodes in document order. *)
Definition doc_text (doc : Document) : jsstring := flat_map visible doc.

(** The identities of the elements of a document, in document order. *)
Definition ids (doc : Document) : list nat :=
  map (fun e => fst (fst e)) (doc_elements doc).

(** The attribute names of the keep list. *)
Definition kept_name (k : jsstring) : bool :=
  existsb (eqb k) HtmlProcessor.keepAttributes.

End Observe.

Module Resolution.

Import SitemapParser.

(** The entry throws before it fetches, has nothing to fetch, or has a
    child whose resolution returns. *)
Definition settles (P : Packages) (env : Env) (fuel : nat)
  (baseUrl : jsstring) (sitemap : option Entry) : Prop :=
  match start P baseUrl sitemap with
  | Child u => exists urls, parseFromUrl P env fuel u = Done urls
  | _ => True
  end.

End Resolution.

Module Effects.

Import Pipeline.

(** The entry that ends a job: saved or failed. *)
Definition is_terminal (e : Event) : bool :=
  match e with
  | Saved _ | ProcessError _ => true
  | _ => false
  end.

Definition is_saved (e : Event) : bool :=
  match e with
  | Saved _ => true
  | _ => false
  end.

(** The entry of a call of the converter. *)
Definition is_turndown (e : Event) : bool :=
  match e with
  | Turndown _ => true
  | _ => false
  end.

(** The server answers no request with status 200 and an empty body. *)
Definition no_empty_page (P : Packages) : Prop :=
  forall url n, axios_get P url n <> Reply 200 [].

(** No entry of [l] ends a job. *)
Definition quiet (l : list Event) : bool :=
  forallb (fun e => negb (is_terminal e)) l.

(** The request to [url] that comes after [k] earlier ones is not
    answered with status 200. *)
Definition refused (P : Packages) (url : jsstring) (k : nat) : Prop :=
  match axios_get P url k with
  | NetworkError => True
  | Reply status _ => status <> 200
  end.

(** [m] writes no file, logs no terminal entry, and sends at most [n]
    requests, all of them to [url]. *)
Definition effects {A} (url : jsstring) (n : nat) (m : M A) : Prop :=
  forall w,
    files (snd (m w)) = files w
    /\ (exists l, trace (snd (m w)) = l ++ trace w /\ quiet l = true)
    /\ (exists s, sent (snd (m w)) = s ++ sent w
                  /\ Forall (eq url) s /\ (length s <= n)%nat).

(** The content of a file written for [url]: the comment lines of the
    configuration and a non-empty result of the converter. *)
Definition written (P : Packages) (env : Env) (url content : jsstring)
  : Prop :=
  exists html c md,
    turndown P (turndownOptions (config env)) html = Some (c :: md)
    /\ content = finalContent env url (c :: md).

(** The requests a job may send: one fetch with its retries for the
    title, and the fetches of the conversion with their retries. *)
Definition request_budget (env : Env) : nat :=
  let r := Z.to_nat (retryAttempts (config env)) in
  ((if usePageTitlesForFilenames (fileOptions (config env))
    then S r else 0) + S r * S r)%nat.

End Effects.

(** * Facts *)

(** ** The string primitives *)

Module JSFacts.

Lemma jsstring_eqb_eq : forall a b, eqb a b = true <-> a = b.
Proof.
  induction a as [|x a IH]; intros [|y b]; simpl; split; try congruence;
    try discriminate.
  - intro H. apply andb_true_iff in H. destruct H as [H1 H2].
    apply Z.eqb_eq in H1. apply IH in H2. congruence.
  - intro H. injection H as -> ->. rewrite Z.eqb_refl. simpl. apply IH.
    reflexivity.
Qed.

Lemma truthy_nonempty : forall s, truthy s = true <-> s <> [].
Proof. intros [|c s]; simpl; split; congruence. Qed.

Lemma toInt32_range : forall x, - 2 ^ 31 <= toInt32 x < 2 ^ 31.
Proof.
  intro x. unfold toInt32.
  pose proof (Z.mod_pos_bound (x + 2 ^ 31) (2 ^ 32) ltac:(lia)). lia.
Qed.

Lemma toInt32_small : forall x, - 2 ^ 31 <= x < 2 ^ 31 -> toInt32 x = x.
Proof.
  intros x H. unfold toInt32. rewrite Z.mod_small; lia.
Qed.

Lemma toInt32_idem : forall x, toInt32 (toInt32 x) = toInt32 x.
Proof. intro x. apply toInt32_small, toInt32_range. Qed.

Lemma toInt32_mod_eq : forall x y,
  x mod 2 ^ 32 = y mod 2 ^ 32 -> toInt32 x = toInt32 y.
Proof.
  intros x y H. unfold toInt32. f_equal.
  rewrite <- (Zplus_mod_idemp_l x), <- (Zplus_mod_idemp_l y), H. reflexivity.
Qed.

Lemma toInt32_congr : forall x, exists k, toInt32 x = x + k * 2 ^ 32.
Proof.
  intro x. exists (- ((x + 2 ^ 31) / 2 ^ 32)). unfold toInt32.
  pose proof (Z.div_mod (x + 2 ^ 31) (2 ^ 32) ltac:(lia)). lia.
Qed.

Lemma band_diag : forall x, band x x = toInt32 x.
Proof.
  intro x. unfold band. rewrite Z.land_diag. apply toInt32_idem.
Qed.


Lemma toString16_aux_nonempty : forall fuel n acc,
  toString16_aux (S fuel) n acc <> [].
Proof.
  intros fuel n acc. revert n acc.
  induction fuel as [|f IH]; intros n acc; simpl.
  - destruct (n / 16 =? 0); discriminate.
  - destruct (n / 16 =? 0); [discriminate|]. apply (IH (n / 16)).
Qed.

Lemma slice_window : forall {A} (l : list A) (k : nat) (mc : Z),
  0 < mc ->
  slice l (Z.of_nat k) (Z.of_nat k + mc)
  = firstn (Z.to_nat mc) (skipn k l).
Proof.
  intros A l k mc Hmc. unfold slice, clamp_index.
  replace (Z.of_nat k <? 0) with false by (symmetry; apply Z.ltb_ge; lia).
  replace (Z.of_nat k + mc <? 0) with false
    by (symmetry; apply Z.ltb_ge; lia).
  set (len := Z.of_nat (length l)).
  destruct (Nat.le_gt_cases (length l) k) as [Hge|Hlt].
  - replace (Z.to_nat (Z.min (Z.of_nat k) len)) with (length l) by lia.
    rewrite (skipn_all2 l Hge), skipn_all, !firstn_nil. reflexivity.
  - replace (Z.to_nat (Z.min (Z.of_nat k) len)) with k by lia.
    destruct (Z.le_gt_cases (Z.of_nat k + mc) len) as [Hin|Hout].
    + f_equal. lia.
    + rewrite !firstn_all2; [reflexivity | |]; rewrite length_skipn; lia.
Qed.

End JSFacts.

(** ** The path mapper *)

Module PathMapperFacts.

Import PathMapper JSFacts.

(** *** The query hash *)

(** The hash step is the 32-bit wrap-around of [31 * hash + char]. *)
Lemma hash_step_wrap : forall h c, hash_step h c = toInt32 (31 * h + c).
Proof.
  intros h c. unfold hash_step. rewrite band_diag.
  apply toInt32_mod_eq. unfold shl. rewrite Z.shiftl_mul_pow2 by lia.
  destruct (toInt32_congr h) as [k0 E0].
  destruct (toInt32_congr (toInt32 h * 2 ^ 5)) as [k1 E1].
  rewrite E1, E0.
  replace ((h + k0 * 2 ^ 32) * 2 ^ 5 + k1 * 2 ^ 32 - h + c)
    with (31 * h + c + (32 * k0 + k1) * 2 ^ 32) by lia.
  apply Z_mod_plus_full.
Qed.


Lemma hash_fold_range : forall s h,
  - 2 ^ 31 <= h < 2 ^ 31 -> - 2 ^ 31 <= fold_left hash_step s h < 2 ^ 31.
Proof.
  induction s as [|c s IH]; intros h Hh; simpl; [exact Hh|].
  apply IH. rewrite hash_step_wrap. apply toInt32_range.
Qed.



Lemma hashCode_nonempty : forall s, hashCode s <> [].
Proof.
  intro s. unfold hashCode, toString16. apply toString16_aux_nonempty.
Qed.




Lemma strip_question : forall q, strip_prefix (lit "?") (lit "?" ++ q) = q.
Proof.
  intro q. unfold strip_prefix. change (lit "?") with [63].
  cbn [app startsWith]. rewrite Z.eqb_refl. reflexivity.
Qed.

(** *** Cleanliness of names *)

Lemma clean_app : forall a b, clean a -> clean b -> clean (a ++ b).
Proof. intros a b Ha Hb. apply Forall_app. split; assumption. Qed.

Lemma clean_firstn : forall n s, clean s -> clean (firstn n s).
Proof.
  intros n s H. rewrite <- (firstn_skipn n s) in H.
  apply Forall_app in H. exact (proj1 H).
Qed.

Lemma clean_md : clean (lit ".md").
Proof. repeat constructor. Qed.

Lemma clean_index : clean (lit "index").
Proof. repeat constructor. Qed.

Lemma app_md_nonempty : forall s, s ++ lit ".md" <> [].
Proof. intros [|c s]; discriminate. Qed.

(** *** The reference [sanitize] keeps its contract *)

Lemma drop_dots_spaces_incl : forall r c,
  In c (Ref.drop_dots_spaces r) -> In c r.
Proof.
  induction r as [|d r IH]; intros c H; simpl in *; [exact H|].
  destruct ((d =? 46) || (d =? 32)); [right; apply IH; exact H | exact H].
Qed.

Lemma truncate_from_incl_len : forall limit n s cur c,
  (length s <= n)%nat -> In c (Ref.truncate_from cur limit s) -> In c s.
Proof.
  intros limit. induction n as [|n IH]; intros s cur c Hlen H.
  - destruct s; [exact H | simpl in Hlen; lia].
  - destruct s as [|a [|b rest]]; [exact H | |].
    + simpl in H.
      destruct (limit <? cur + Ref.utf8_len a); [destruct H | exact H].
    + cbn [Ref.truncate_from] in H.
      destruct (Ref.isHighSurrogate a && Ref.isLowSurrogate b).
      * destruct (cur + 4 =? limit); [simpl in *; tauto|].
        destruct (limit <? cur + 4); [destruct H|].
        destruct H as [<-|[<-|H]]; [simpl; tauto | simpl; tauto |].
        right; right.
        apply (IH rest (cur + 4) c); [simpl in Hlen; lia | exact H].
      * destruct (cur + Ref.utf8_len a =? limit).
        -- destruct H as [<-|[]]. left; reflexivity.
        -- destruct (limit <? cur + Ref.utf8_len a); [destruct H|].
           destruct H as [<-|H]; [left; reflexivity|].
           right. apply (IH (b :: rest) (cur + Ref.utf8_len a) c);
             [simpl in *; lia | exact H].
Qed.

Lemma truncate_from_incl : forall limit s cur c,
  In c (Ref.truncate_from cur limit s) -> In c s.
Proof.
  intros limit s cur c. apply (truncate_from_incl_len limit (length s)). lia.
Qed.

Lemma ref_sanitize_clean : sanitize_clean Ref.packages.
Proof.
  intro s. apply Forall_forall. intros c Hc.
  change (sanitize Ref.packages s) with (Ref.sanitize s) in Hc.
  unfold Ref.sanitize in Hc.
  apply truncate_from_incl in Hc.
  unfold Ref.windowsTrailing in Hc.
  apply in_rev, drop_dots_spaces_incl in Hc. apply in_rev in Hc.
  assert (Hin : In c (filter (fun c0 => negb (Ref.controlRe c0))
                        (filter (fun c0 => negb (Ref.illegalRe c0)) s))).
  { destruct (Ref.windowsReservedRe _); [destruct Hc|].
    destruct (Ref.reservedRe _); [destruct Hc | exact Hc]. }
  apply filter_In in Hin. destruct Hin as [Hin _].
  apply filter_In in Hin. destruct Hin as [_ Hin].
  unfold Ref.illegalRe in Hin.
  destruct (reserved_unit c); [discriminate | reflexivity].
Qed.

Lemma parseUrl_filename_clean : forall P env url,
  sanitize_clean P -> clean (filename (parseUrl P env url)).
Proof.
  intros P env url HP. unfold parseUrl.
  destruct (URL_new P url) as [u|].
  - unfold parseUrl_try. cbn [filename]. apply clean_app; [|apply clean_md].
    destruct (truthy _); [apply HP | apply clean_index].
  - unfold parseUrl_catch. cbn [filename].
    apply clean_app; [apply HP | apply clean_md].
Qed.

Lemma parseUrl_try_stem : forall P env url u,
  exists stem, stem <> []
    /\ filename (parseUrl_try P env url u) = stem ++ lit ".md"
    /\ (sanitize P (query_suffixed P env u
                      (last (url_pathParts u) (lit "index"))) = []
        -> stem = lit "index").
Proof.
  intros P env url u. unfold parseUrl_try. cbn [filename].
  destruct (sanitize P _) as [|c s] eqn:E.
  - exists (lit "index"). cbn [truthy]. repeat split. discriminate.
  - exists (c :: s). cbn [truthy]. repeat split; discriminate.
Qed.

(** *** Properties of the path mapper *)

(** C1.  The path mapping is deterministic: the directory segments and
    the file name that [parseUrl] and [getOutputPaths] produce depend
    only on the URL, the path policy and the optional title.  Two
    environments with the same policy, whatever their clock and the rest
    of their configuration, give identical segments and file name, and
    identical paths when the output root is the same too. *)
Theorem path_mapping_deterministic :
  forall (P : Packages) (e1 e2 : Env) (url : jsstring)
         (title : option jsstring),
    same_policy (config e1) (config e2) ->
    dirSegments P e1 url = dirSegments P e2 url
    /\ outputFilename P e1 url title = outputFilename P e2 url title
    /\ (outputDir (config e1) = outputDir (config e2) ->
        getOutputPaths P e1 url title = getOutputPaths P e2 url title).
Proof.
  intros P e1 e2 url title (Hd & Ht & Hp).
  assert (Hparse : parseUrl P e1 url = parseUrl P e2 url).
  { unfold parseUrl. destruct (URL_new P url) as [u|]; [|reflexivity].
    unfold parseUrl_try, query_suffixed. rewrite Hp. reflexivity. }
  assert (Hseg : dirSegments P e1 url = dirSegments P e2 url).
  { unfold dirSegments. rewrite Hparse, Hd. reflexivity. }
  assert (Hfile : outputFilename P e1 url title
                  = outputFilename P e2 url title).
  { unfold outputFilename. rewrite Hparse, Ht, Hp. reflexivity. }
  repeat split; try assumption.
  intro Hroot. unfold getOutputPaths, dirParts.
  rewrite Hseg, Hfile, Hroot. reflexivity.
Qed.

Lemma path_mapping_deterministic_witness :
  same_policy (config Ref.env) (config Ref.other_env)
  /\ dirSegments Ref.packages Ref.env (lit "https://example.com/a/b?id=1")
     = dirSegments Ref.packages Ref.other_env
         (lit "https://example.com/a/b?id=1")
  /\ outputFilename Ref.packages Ref.env (lit "https://example.com/a/b?id=1")
       (Some (lit "T"))
     = outputFilename Ref.packages Ref.other_env
         (lit "https://example.com/a/b?id=1") (Some (lit "T")).
Proof.
  assert (H : same_policy (config Ref.env) (config Ref.other_env))
    by (repeat split; reflexivity).
  split; [exact H|].
  destruct (path_mapping_deterministic Ref.packages Ref.env Ref.other_env
              (lit "https://example.com/a/b?id=1") (Some (lit "T")) H)
    as (Hs & Hf & _).
  split; assumption.
Defined.




(** C3, as stated, fails: the path segment of three dots of
    [https://example.com/.../page] is sanitized to the empty string and
    stays an empty directory segment. *)
Lemma directory_segment_can_be_empty :
  dirSegments Ref.packages Ref.env Ref.url_dots = [lit "example.com"; []]
  /\ ~ Forall (fun seg => seg <> [] /\ clean seg)
         (dirSegments Ref.packages Ref.env Ref.url_dots).
Proof.
  assert (E : dirSegments Ref.packages Ref.env Ref.url_dots
              = [lit "example.com"; []]) by (vm_compute; reflexivity).
  split; [exact E|].
  rewrite E. intro H. inversion H as [|? ? _ H2]; subst.
  inversion H2 as [|? ? [Hne _] _]; subst. apply Hne. reflexivity.
Qed.

(** C3, amended.  For every input, well-formed or not, and a
    [sanitize] that leaves no path separator and no reserved character:
    every directory segment is free of them (it may be empty), the file
    name is non-empty and free of them; for a URL that parses, the name
    before the extension is non-empty, and a URL-derived name that is
    empty after sanitization is replaced by [index].  The mapping is a
    total function: the one call that throws, [new URL], is caught. *)
Theorem path_components_clean :
  forall (P : Packages) (env : Env) (url : jsstring)
         (title : option jsstring),
    sanitize_clean P ->
    Forall clean (dirSegments P env url)
    /\ outputFilename P env url title <> []
    /\ clean (outputFilename P env url title)
    /\ (forall u, URL_new P url = Some u ->
        (exists stem, stem <> []
           /\ outputFilename P env url title = stem ++ lit ".md")
        /\ (sanitize P (query_suffixed P env u
                          (last (url_pathParts u) (lit "index"))) = []
            -> filename (parseUrl P env url) = lit "index.md")).
Proof.
  intros P env url title HP.
  assert (Hdef : clean (filename (parseUrl P env url)))
    by (apply parseUrl_filename_clean; exact HP).
  assert (Hdefne : filename (parseUrl P env url) <> []).
  { unfold parseUrl. destruct (URL_new P url);
      [unfold parseUrl_try | unfold parseUrl_catch];
      cbn [filename]; apply app_md_nonempty. }
  split; [|split; [|split]].
  - unfold dirSegments.
    destruct (useDomainSubfolders _).
    + constructor; [apply HP|]. apply Forall_forall. intros seg Hseg.
      apply in_map_iff in Hseg. destruct Hseg as (x & <- & _). apply HP.
    + apply Forall_forall. intros seg Hseg.
      apply in_map_iff in Hseg. destruct Hseg as (x & <- & _). apply HP.
  - unfold outputFilename. destruct title as [[|c t]|]; try exact Hdefne.
    destruct (_ && _); [|exact Hdefne].
    destruct (truthy _); [apply app_md_nonempty | exact Hdefne].
  - unfold outputFilename. destruct title as [[|c t]|]; try exact Hdef.
    destruct (_ && _); [|exact Hdef].
    destruct (truthy _); [|exact Hdef].
    apply clean_app; [|apply clean_md].
    destruct (100 <? _); [apply clean_firstn|]; apply HP.
  - intros u Hu.
    destruct (parseUrl_try_stem P env url u) as (stem & Hne & Hstem & Hidx).
    assert (Hp : filename (parseUrl P env url) = stem ++ lit ".md")
      by (unfold parseUrl; rewrite Hu; exact Hstem).
    split.
    + unfold outputFilename. rewrite Hp.
      destruct title as [[|c t]|];
        try (exists stem; split; [exact Hne | reflexivity]).
      destruct (_ && _); [|exists stem; split; [exact Hne | reflexivity]].
      destruct (truthy _) eqn:Et;
        [|exists stem; split; [exact Hne | reflexivity]].
      eexists. split; [|reflexivity]. apply truthy_nonempty. exact Et.
    + intro Hempty. rewrite Hp, (Hidx Hempty). reflexivity.
Qed.

Lemma path_components_clean_witness :
  Forall clean (dirSegments Ref.packages Ref.env Ref.url_dots)
  /\ clean (outputFilename Ref.packages Ref.env Ref.url_dots
              (Some (lit "a/b"))).
Proof.
  destruct (path_components_clean Ref.packages Ref.env Ref.url_dots
              (Some (lit "a/b")) ref_sanitize_clean) as (H1 & _ & H3 & _).
  split; assumption.
Defined.



(** C5.  With a non-empty title: when the page-title policy is on and
    the query-hash policy is off, the file name is the sanitized title
    cut to at most 100 code units, plus the extension, and the
    URL-derived name is kept when that title is empty; when the
    query-hash policy is on, the URL-derived name is kept whatever the
    title policy says. *)
Theorem title_policy_filename :
  forall (P : Packages) (env : Env) (url : jsstring) (t : jsstring),
    t <> [] ->
    (usePageTitlesForFilenames (fileOptions (config env)) = true ->
     preserveUrlFilenames (fileOptions (config env)) = false ->
     let capped := substring0 (sanitize P t) 100 in
     (length capped <= 100)%nat
     /\ (capped <> [] ->
         outputFilename P env url (Some t) = capped ++ lit ".md")
     /\ (capped = [] ->
         outputFilename P env url (Some t) = filename (parseUrl P env url)))
    /\ (preserveUrlFilenames (fileOptions (config env)) = true ->
        outputFilename P env url (Some t) = filename (parseUrl P env url)).
Proof.
  intros P env url t Ht. split.
  - intros Htitle Hpres capped.
    assert (Hcap : (if 100 <? Z.of_nat (length (sanitize P t))
                    then substring0 (sanitize P t) 100 else sanitize P t)
                   = capped).
    { unfold capped, substring0.
      destruct (100 <? Z.of_nat (length (sanitize P t))) eqn:E;
        [reflexivity|].
      apply Z.ltb_ge in E. symmetry. apply firstn_all2. lia. }
    split; [|split].
    + unfold capped, substring0. apply firstn_le_length.
    + intro Hne. unfold outputFilename. destruct t as [|c t]; [congruence|].
      rewrite Htitle, Hpres. cbn [andb negb]. rewrite Hcap.
      destruct capped; [congruence | reflexivity].
    + intro Hemp. unfold outputFilename. destruct t as [|c t]; [congruence|].
      rewrite Htitle, Hpres. cbn [andb negb]. rewrite Hcap, Hemp.
      reflexivity.
  - intro Hpres. unfold outputFilename. destruct t as [|c t]; [congruence|].
    rewrite Hpres, andb_false_r. reflexivity.
Qed.

Lemma title_policy_filename_witness :
  outputFilename Ref.packages (Ref.env_with Ref.pageTitleOptions)
    Ref.url_about (Some (lit "About: Our Team"))
  = lit "About Our Team.md"
  /\ outputFilename Ref.packages (Ref.env_with Ref.bothOptions)
       Ref.url_books_123 (Some (lit "About: Our Team"))
     = lit "products-799261bf.md".
Proof.
  assert (Hne : lit "About: Our Team" <> []) by discriminate.
  split.
  - destruct (title_policy_filename Ref.packages
                (Ref.env_with Ref.pageTitleOptions)
                Ref.url_about (lit "About: Our Team") Hne) as [H _].
    destruct (H eq_refl eq_refl) as (_ & H2 & _).
    rewrite H2; [reflexivity | discriminate].
  - destruct (title_policy_filename Ref.packages
                (Ref.env_with Ref.bothOptions)
                Ref.url_books_123 (lit "About: Our Team") Hne) as [_ H].
    rewrite (H eq_refl). reflexivity.
Defined.

End PathMapperFacts.

(** ** The document tree *)

Module DomFacts.

Import Dom.

Lemma node_ind_nested : forall Q : node -> Prop,
  (forall i t a cs, Forall Q cs -> Q (Element i t a cs)) ->
  (forall d, Q (Text d)) ->
  (forall d, Q (Comment d)) ->
  forall n, Q n.
Proof.
  intros Q He Ht Hc. fix IH 1. intros [i t a cs|d|d].
  - apply He. induction cs as [|c cs IHcs]; constructor;
      [apply IH | exact IHcs].
  - apply Ht.
  - apply Hc.
Qed.

Lemma incl_flat_map : forall {A B} (f g : A -> list B) (l : list A),
  Forall (fun x => incl (f x) (g x)) l -> incl (flat_map f l) (flat_map g l).
Proof.
  intros A B f g l H. induction H as [|x l Hx _ IH]; simpl.
  - apply incl_refl.
  - apply incl_app; [apply incl_appl | apply incl_appr]; assumption.
Qed.

Lemma flat_map_flat_map : forall {A B C} (f : A -> list B) (g : B -> list C)
  (l : list A),
  flat_map g (flat_map f l) = flat_map (fun x => flat_map g (f x)) l.
Proof.
  intros A B C f g l. induction l as [|x l IH]; simpl; [reflexivity|].
  rewrite flat_map_app, IH. reflexivity.
Qed.

(** A rule that gives back nodes of the subtree it replaces adds no
    element. *)
Lemma rewrite_node_incl : forall rule,
  (forall n repl, rule n = Some repl ->
     incl (flat_map elements repl) (elements n)) ->
  forall n, incl (flat_map elements (rewrite_node rule n)) (elements n).
Proof.
  intros rule Hrule. apply node_ind_nested.
  - intros i t a cs IH. cbn [rewrite_node].
    destruct (rule (Element i t a cs)) as [repl|] eqn:E.
    + apply (Hrule _ _ E).
    + cbn [flat_map elements]. rewrite app_nil_r.
      apply incl_cons; [left; reflexivity|]. apply incl_tl.
      rewrite flat_map_flat_map. apply incl_flat_map. exact IH.
  - intro d. cbn [rewrite_node]. destruct (rule (Text d)) as [repl|] eqn:E.
    + apply (Hrule _ _ E).
    + apply incl_refl.
  - intro d. cbn [rewrite_node]. destruct (rule (Comment d)) as [repl|] eqn:E.
    + apply (Hrule _ _ E).
    + apply incl_refl.
Qed.

Lemma rewrite_doc_incl : forall rule doc,
  (forall n repl, rule n = Some repl ->
     incl (flat_map elements repl) (elements n)) ->
  incl (doc_elements (flat_map (rewrite_node rule) doc)) (doc_elements doc).
Proof.
  intros rule doc Hrule. unfold doc_elements. rewrite flat_map_flat_map.
  apply incl_flat_map. apply Forall_forall. intros n _.
  apply rewrite_node_incl. exact Hrule.
Qed.

Lemma removeChild_incl : forall id doc,
  incl (doc_elements (removeChild id doc)) (doc_elements doc).
Proof.
  intros id doc. apply rewrite_doc_incl. intros n repl H.
  destruct (is_element id n); [|discriminate]. injection H as <-.
  intros x [].
Qed.

Lemma unwrap_inner_incl : forall id doc,
  incl (doc_elements (unwrap_inner id doc)) (doc_elements doc).
Proof.
  intros id doc. apply rewrite_doc_incl. intros n repl H.
  destruct n as [i t a cs|d|d]; try discriminate.
  destruct (Nat.eqb i id); [|discriminate]. injection H as <-.
  cbn [elements]. apply incl_tl, incl_refl.
Qed.

Lemma leading_comments_app : forall l cm r,
  leading_comments l = (cm, r) -> l = cm ++ r.
Proof.
  induction l as [|c l IH]; intros cm r H; simpl in H.
  - injection H as <- <-. reflexivity.
  - destruct (is_comment c).
    + destruct (leading_comments l) as [cm' r'] eqn:E.
      injection H as <- <-. simpl. f_equal. apply IH. reflexivity.
    + injection H as <- <-. reflexivity.
Qed.

Lemma unwrap_top_incl : forall id doc d threw,
  unwrap_top id doc = Some (d, threw) ->
  incl (doc_elements d) (doc_elements doc).
Proof.
  intros id. induction doc as [|n rest IH]; intros d threw H; simpl in H;
    [discriminate|].
  assert (Hskip : forall d0 t0,
            match unwrap_top id rest with
            | Some (d1, threw1) => Some (n :: d1, threw1)
            | None => None
            end = Some (d0, t0) ->
            incl (doc_elements d0) (doc_elements (n :: rest))).
  { intros d0 t0 H0. destruct (unwrap_top id rest) as [[d1 t1]|] eqn:E;
      [|discriminate].
    injection H0 as <- <-. unfold doc_elements. cbn [flat_map].
    apply incl_app; [apply incl_appl, incl_refl|].
    apply incl_appr. apply (IH d1 t1). reflexivity. }
  destruct n as [i t a cs|dd|dd]; try (apply (Hskip d threw H)).
  destruct (Nat.eqb i id); [|apply (Hskip d threw H)].
  destruct (leading_comments cs) as [cm r] eqn:E.
  apply leading_comments_app in E. subst cs.
  unfold doc_elements in *. cbn [flat_map elements].
  destruct r as [|r0 r].
  - injection H as <- <-. rewrite app_nil_r, !flat_map_app.
    apply incl_app; [apply incl_appl, incl_tl, incl_refl|].
    apply incl_appr, incl_refl.
  - injection H as <- <-. rewrite !flat_map_app. cbn [flat_map elements].
    apply incl_app.
    + apply incl_appl, incl_tl, incl_appl, incl_refl.
    + apply incl_cons; [left; reflexivity|].
      apply incl_app; [|apply incl_appr, incl_refl].
      apply incl_appl, incl_tl, incl_appr, incl_refl.
Qed.

Lemma unwrapElement_incl : forall id doc,
  incl (doc_elements (fst (unwrapElement id doc))) (doc_elements doc).
Proof.
  intros id doc. unfold unwrapElement.
  destruct (unwrap_top id doc) as [[d threw]|] eqn:E.
  - apply (unwrap_top_incl _ _ _ _ E).
  - apply unwrap_inner_incl.
Qed.

End DomFacts.

(** ** The rewriter and the title extractor *)

Module HtmlProcessorFacts.

Import Dom HtmlProcessor DomFacts.

Lemma same_links_refl : forall a, same_links a a.
Proof. intro a. split; reflexivity. Qed.

Lemma links_kept_incl : forall out inp, incl out inp -> links_kept out inp.
Proof.
  intros out inp H i t a Hin. exists a. split; [apply H; exact Hin|].
  apply same_links_refl.
Qed.

Lemma links_kept_trans : forall a b c,
  links_kept a b -> links_kept b c -> links_kept a c.
Proof.
  intros a b c Hab Hbc i t x Hx.
  destruct (Hab i t x Hx) as (y & Hy & [S1 H1]).
  destruct (Hbc i t y Hy) as (z & Hz & [S2 H2]).
  exists z. split; [exact Hz|]. split; congruence.
Qed.

(** Attribute stripping keeps the attributes of [keepAttributes]. *)
Lemma getAttribute_filter_keep : forall a name,
  existsb (eqb name) keepAttributes = true ->
  getAttribute
    (filter (fun kv => existsb (eqb (fst kv)) keepAttributes) a) name
  = getAttribute a name.
Proof.
  intros a name Hname. induction a as [|[k v] a IH]; [reflexivity|].
  cbn [filter fst getAttribute].
  destruct (eqb k name) eqn:E.
  - apply JSFacts.jsstring_eqb_eq in E. subst k. rewrite Hname. cbn [getAttribute].
    replace (eqb name name) with true by (symmetry; apply JSFacts.jsstring_eqb_eq; reflexivity).
    reflexivity.
  - destruct (existsb (eqb k) keepAttributes); [|exact IH].
    cbn [getAttribute]. rewrite E. exact IH.
Qed.

Lemma map_attrs_links : forall g,
  (forall i t a, same_links (g i t a) a) ->
  forall n, links_kept (elements (map_attrs g n)) (elements n).
Proof.
  intros g Hg. apply node_ind_nested.
  - intros i t a cs IH j u b Hin. cbn [map_attrs elements] in Hin.
    destruct Hin as [Heq|Hin].
    + injection Heq as <- <- <-. exists a. split; [left; reflexivity|].
      apply Hg.
    + apply in_flat_map in Hin. destruct Hin as (c' & Hc' & Hin).
      apply in_map_iff in Hc'. destruct Hc' as (c & <- & Hc).
      destruct (proj1 (Forall_forall _ _) IH c Hc j u b Hin)
        as (b0 & Hb0 & Hs).
      exists b0. split; [|exact Hs]. cbn [elements]. right.
      apply in_flat_map. exists c. split; assumption.
  - intros d i t a [].
  - intros d i t a [].
Qed.

Lemma map_attrs_doc_links : forall g doc,
  (forall i t a, same_links (g i t a) a) ->
  links_kept (doc_elements (map (map_attrs g) doc)) (doc_elements doc).
Proof.
  intros g doc Hg i t a Hin. unfold doc_elements in *.
  apply in_flat_map in Hin. destruct Hin as (n' & Hn' & Hin).
  apply in_map_iff in Hn'. destruct Hn' as (n & <- & Hn).
  destruct (map_attrs_links g Hg n i t a Hin) as (a0 & Ha0 & Hs).
  exists a0. split; [|exact Hs]. apply in_flat_map. exists n.
  split; assumption.
Qed.

Section Stages.

Variable P : Packages.
Variable env : Env.

Lemma exclude_fold_incl : forall ids doc,
  incl (doc_elements (fold_left (fun d id => removeChild id d) ids doc))
       (doc_elements doc).
Proof.
  induction ids as [|id ids IH]; intro doc; simpl; [apply incl_refl|].
  eapply incl_tran; [apply IH | apply removeChild_incl].
Qed.

Lemma processExcludeSelectors_incl : forall doc,
  incl (doc_elements (processExcludeSelectors P env doc)) (doc_elements doc).
Proof.
  intro doc. unfold processExcludeSelectors.
  destruct (exclude _); [apply incl_refl|].
  destruct (querySelectorAll P doc _); [apply exclude_fold_incl|].
  apply incl_refl.
Qed.

Lemma unwrap_each_incl : forall ids doc,
  incl (doc_elements (unwrap_each ids doc)) (doc_elements doc).
Proof.
  induction ids as [|id ids IH]; intro doc; simpl; [apply incl_refl|].
  pose proof (unwrapElement_incl id doc) as H.
  destruct (unwrapElement id doc) as [d threw]. cbn [fst] in H.
  destruct threw; [exact H|].
  eapply incl_tran; [apply IH | exact H].
Qed.

Lemma processUnwrapSelectors_incl : forall doc,
  incl (doc_elements (processUnwrapSelectors P env doc)) (doc_elements doc).
Proof.
  intro doc. unfold processUnwrapSelectors.
  destruct (unwrap _); [apply incl_refl|].
  destruct (querySelectorAll P doc _); [apply unwrap_each_incl|].
  apply incl_refl.
Qed.

Lemma removeAttributes_links : forall doc,
  links_kept (doc_elements (removeAttributes_of P doc)) (doc_elements doc).
Proof.
  intro doc. unfold removeAttributes_of.
  destruct (querySelectorAll P doc _) as [ids|];
    [|apply links_kept_incl, incl_refl].
  apply map_attrs_doc_links. intros i t a.
  destruct (existsb (Nat.eqb i) ids); [|apply same_links_refl].
  split; apply getAttribute_filter_keep; reflexivity.
Qed.

Lemma applySelectors_links : forall doc,
  links_kept (doc_elements (applySelectors P env doc)) (doc_elements doc).
Proof.
  intro doc. unfold applySelectors.
  assert (H : links_kept
                (doc_elements
                   (processUnwrapSelectors P env
                      (processExcludeSelectors P env doc)))
                (doc_elements doc)).
  { apply links_kept_incl. eapply incl_tran;
      [apply processUnwrapSelectors_incl | apply processExcludeSelectors_incl]. }
  destruct (removeAttributes _); [|exact H].
  eapply links_kept_trans; [apply removeAttributes_links | exact H].
Qed.

Lemma documentElement_incl : forall doc root,
  documentElement doc = Some root -> incl (elements root) (doc_elements doc).
Proof.
  induction doc as [|n rest IH]; intros root H; simpl in H; [discriminate|].
  unfold doc_elements. cbn [flat_map].
  destruct n as [i t a cs|d|d].
  - injection H as <-. apply incl_appl, incl_refl.
  - apply incl_appr. apply IH. exact H.
  - apply incl_appr. apply IH. exact H.
Qed.

End Stages.

(** *** Properties of the rewriter and the title extractor *)

(** C6, at the failing input.  A title element whose text is not empty
    but blank passes the emptiness test, which is made before trimming:
    [extractPageTitle] returns the empty string and never looks at the
    heading.  On the page with the title of one space and the heading
    [Hello] the result is the empty string, not [Hello]. *)
Theorem blank_title_hides_heading :
  (forall (P : Packages) (html : jsstring) (doc : Document) (titleEl : node),
     JSDOM P html = Some doc ->
     querySelector P doc (lit "title") = Some titleEl ->
     textContent titleEl <> [] ->
     trim (textContent titleEl) = [] ->
     extractPageTitle P html = Some [])
  /\ extractPageTitle RefHtml.packages RefHtml.page_blank_title = Some []
  /\ option_map textContent
       (querySelector RefHtml.packages RefHtml.doc_blank_title (lit "h1"))
     = Some (lit "Hello").
Proof.
  split; [|split; vm_compute; reflexivity].
  intros P html doc titleEl Hdoc Htitle Hne Htrim.
  unfold extractPageTitle. rewrite Hdoc, Htitle.
  destruct (textContent titleEl) as [|c t] eqn:E; [congruence|].
  cbn [truthy]. rewrite Htrim. reflexivity.
Qed.

(** C9, as stated, fails: with an exclude selector that does not parse,
    the query throws inside [processExcludeSelectors], which catches it;
    [process] then returns the serialized document, which is not the
    markup it was given. *)
Lemma selector_failure_reserializes :
  querySelectorAll RefHtml.packages RefHtml.doc_fragment (lit "[") = None
  /\ JSDOM RefHtml.packages RefHtml.page_fragment = Some RefHtml.doc_fragment
  /\ process RefHtml.packages RefHtml.env_bad_selector RefHtml.page_fragment
       None
     = lit "<html><head></head><body><p>hi</p></body></html>"
  /\ process RefHtml.packages RefHtml.env_bad_selector RefHtml.page_fragment
       None
     <> RefHtml.page_fragment.
Proof.
  split; [vm_compute; reflexivity|].
  split; [vm_compute; reflexivity|].
  split; [vm_compute; reflexivity|].
  vm_compute. discriminate.
Qed.

(** C9, amended.  [process] is a total function of the markup: whenever
    its [try] block throws, and so whenever the markup does not parse,
    it returns the markup unchanged.  A selector query that throws is
    caught by the stage that made it, which leaves the document as it
    found it; [process] then returns the serialization of the document
    the stages produced, not the markup it was given. *)
Theorem rewrite_falls_back_to_original :
  forall (P : Packages) (env : Env) (html : jsstring)
         (pageUrl : option jsstring),
    (process_try P env html pageUrl = None ->
     process P env html pageUrl = html)
    /\ (JSDOM P html = None -> process P env html pageUrl = html)
    /\ (forall doc,
          JSDOM P html = Some doc ->
          (querySelectorAll P doc
             (join (lit ", ") (exclude (selectors (config env)))) = None ->
           processExcludeSelectors P env doc = doc)
          /\ (querySelectorAll P doc
                (join (lit ", ") (unwrap (selectors (config env)))) = None ->
              processUnwrapSelectors P env doc = doc)
          /\ (querySelectorAll P doc (lit "*") = None ->
              removeAttributes_of P doc = doc)
          /\ (forall root,
                documentElement (applySelectors P env doc) = Some root ->
                process P env html None = outerHTML P root)).
Proof.
  intros P env html pageUrl. split; [|split].
  - intro H. unfold process. rewrite H. reflexivity.
  - intro H. unfold process, process_try. rewrite H. reflexivity.
  - intros doc Hdoc. split; [|split; [|split]].
    + intro Hq. unfold processExcludeSelectors.
      destruct (exclude _); [reflexivity|]. rewrite Hq. reflexivity.
    + intro Hq. unfold processUnwrapSelectors.
      destruct (unwrap _); [reflexivity|]. rewrite Hq. reflexivity.
    + intro Hq. unfold removeAttributes_of. rewrite Hq. reflexivity.
    + intros root Hroot. unfold process, process_try.
      rewrite Hdoc, Hroot. reflexivity.
Qed.

Lemma rewrite_falls_back_to_original_witness :
  process RefHtml.packages Ref.env (lit "no such page") None
  = lit "no such page"
  /\ processExcludeSelectors RefHtml.packages RefHtml.env_bad_selector
       RefHtml.doc_fragment
     = RefHtml.doc_fragment.
Proof.
  split.
  - destruct (rewrite_falls_back_to_original RefHtml.packages Ref.env
                (lit "no such page") None) as (_ & H & _).
    apply H. reflexivity.
  - destruct (rewrite_falls_back_to_original RefHtml.packages
                RefHtml.env_bad_selector RefHtml.page_fragment None)
      as (_ & _ & H).
    destruct (H RefHtml.doc_fragment eq_refl) as (Hx & _).
    apply Hx. reflexivity.
Defined.

End HtmlProcessorFacts.

(** ** Sitemap resolution *)

Module SitemapParserFacts.

Import SitemapParser.





Section Resolution.

Variable P : Packages.
Variable env : Env.



End Resolution.


(** *** Properties of sitemap resolution *)



End SitemapParserFacts.

(** ** The batch pipeline *)

Module PipelineFacts.

Import Pipeline.

Section Adds.

Variable Q : Event -> Prop.

Lemma adds_ret : forall {A} (R : A -> Prop) (a : A), R a -> adds Q R (ret a).
Proof.
  intros A R a Ha w. split.
  - exists []. split; [reflexivity | constructor].
  - intros a' H. injection H as <-. exact Ha.
Qed.

Lemma adds_throw : forall {A} (R : A -> Prop), adds Q R (@throw A).
Proof.
  intros A R w. split.
  - exists []. split; [reflexivity | constructor].
  - intros a H. discriminate H.
Qed.

Lemma adds_diverge : forall {A} (R : A -> Prop), adds Q R (@diverge A).
Proof.
  intros A R w. split.
  - exists []. split; [reflexivity | constructor].
  - intros a H. discriminate H.
Qed.

Lemma adds_emit : forall e, Q e -> adds Q anything (emit e).
Proof.
  intros e He w. split.
  - exists [e]. split; [reflexivity|]. constructor; [exact He|]. constructor.
  - intros a _. exact I.
Qed.

Lemma adds_bind : forall {A B} (R : A -> Prop) (R' : B -> Prop)
  (m : M A) (k : A -> M B),
  adds Q R m -> (forall a, R a -> adds Q R' (k a)) -> adds Q R' (bind m k).
Proof.
  intros A B R R' m k Hm Hk w. unfold bind.
  destruct (Hm w) as [(l1 & E1 & F1) Hr].
  destruct (m w) as [[a| |] w1]; cbn [fst snd] in *.
  - destruct (Hk a (Hr a eq_refl) w1) as [(l2 & E2 & F2) Hr2].
    split; [|exact Hr2].
    exists (l2 ++ l1). split.
    + rewrite E2, E1. apply app_assoc.
    + apply Forall_app. split; assumption.
  - split; [exists l1; split; assumption|]. intros b H. discriminate H.
  - split; [exists l1; split; assumption|]. intros b H. discriminate H.
Qed.

Lemma adds_try_catch : forall {A} (R : A -> Prop) (m handler : M A),
  adds Q R m -> adds Q R handler -> adds Q R (try_catch m handler).
Proof.
  intros A R m handler Hm Hh w. unfold try_catch.
  destruct (Hm w) as [(l1 & E1 & F1) Hr].
  destruct (m w) as [[a| |] w1]; cbn [fst snd] in *.
  - split; [exists l1; split; assumption | exact Hr].
  - destruct (Hh w1) as [(l2 & E2 & F2) Hr2]. split; [|exact Hr2].
    exists (l2 ++ l1). split.
    + rewrite E2, E1. apply app_assoc.
    + apply Forall_app. split; assumption.
  - split; [exists l1; split; assumption | exact Hr].
Qed.

Lemma adds_weaken : forall {A} (R R' : A -> Prop) (m : M A),
  (forall a, R a -> R' a) -> adds Q R m -> adds Q R' m.
Proof.
  intros A R R' m HR Hm w. destruct (Hm w) as [Hl Hr].
  split; [exact Hl|]. intros a Ha. apply HR, Hr, Ha.
Qed.

End Adds.

Section TraceInvariant.

Variable P : Packages.
Variable env : Env.
Variable Q : Event -> Prop.
Hypothesis Q_turndown : forall data,
  served P data ->
  Q (Turndown (HtmlProcessor.process (html_packages P) env data None)).
Hypothesis Q_other : forall e,
  (forall input, e <> Turndown input) -> Q e.

Ltac other := apply adds_emit, Q_other; intros; discriminate.
Ltac step := eapply adds_bind; [other|]; intros _ _.

Lemma adds_get : forall url, adds Q (served P) (get P url).
Proof.
  intros url w. unfold get. split.
  - exists []. split; [|constructor].
    destruct (axios_get P url _) as [|status data]; [reflexivity|].
    destruct (status =? 200); reflexivity.
  - intros a H.
    destruct (axios_get P url _) as [|status data] eqn:E; [discriminate H|].
    destruct (status =? 200) eqn:Es; [|discriminate H].
    apply Z.eqb_eq in Es. subst status. injection H as <-.
    exists url, (count_sent url (sent w)). exact E.
Qed.

Lemma adds_fetch_loop : forall left url retryCount,
  adds Q (served P) (fetch_loop P env left url retryCount).
Proof.
  induction left as [|k IH]; intros url retryCount; cbn [fetch_loop];
    step; (apply adds_try_catch; [apply adds_get|]);
    (destruct (retryCount <? _); [|step; apply adds_throw]);
    step; step.
  - apply adds_diverge.
  - apply IH.
Qed.

Lemma adds_turndown_content : forall url data,
  served P data ->
  adds Q anything
    (turndown_content P env url
       (HtmlProcessor.process (html_packages P) env data None)).
Proof.
  intros url data Hdata. unfold turndown_content.
  eapply adds_bind; [apply adds_emit, Q_turndown, Hdata|]. intros _ _.
  destruct (turndown P _ _) as [[|c md]|];
    [apply adds_throw | apply adds_ret; exact I | apply adds_throw].
Qed.

Lemma adds_convert_loop : forall left url retryCount,
  adds Q anything (convert_loop P env left url retryCount).
Proof.
  induction left as [|k IH]; intros url retryCount; cbn [convert_loop];
    step;
    (apply adds_try_catch;
      [eapply adds_bind; [apply adds_fetch_loop|]; intros data Hdata;
       apply adds_turndown_content; exact Hdata|]);
    (destruct (retryCount <? _); [|step; apply adds_throw]);
    step; step.
  - apply adds_diverge.
  - apply IH.
Qed.

Lemma adds_processUrl : forall url, adds Q anything (processUrl P env url).
Proof.
  intro url. unfold processUrl. apply adds_try_catch; [|other].
  eapply adds_bind with
    (R := fun fetched : option jsstring * option jsstring =>
            forall h, snd fetched = Some h -> served P h).
  - destruct (usePageTitlesForFilenames _);
      [|apply adds_ret; intros h H; discriminate H].
    step. eapply adds_bind; [apply adds_fetch_loop|]. intros data Hdata.
    eapply adds_bind with (R := anything).
    + destruct (HtmlProcessor.extractPageTitle _ _) as [[|c t]|]; other.
    + intros _ _. apply adds_ret. intros h H. injection H as <-. exact Hdata.
  - intros [pageTitle htmlContent] Hserved. cbn [fst snd] in *.
    eapply adds_bind with (R := anything).
    + destruct htmlContent as [[|c h]|]; try apply adds_convert_loop.
      unfold convertHtmlWithContent. step.
      apply adds_try_catch;
        [apply adds_turndown_content, Hserved; reflexivity|].
      step. apply adds_throw.
    + intros markdown _. eapply adds_bind with (R := anything).
      * unfold fs_ensureDir. destruct (ensureDir P _);
          [apply adds_ret; exact I | apply adds_throw].
      * intros _ _. eapply adds_bind with (R := anything); [|intros _ _; other].
        intros w. unfold fs_writeFile. split; [|intros a _; exact I].
        exists []. split; [|constructor].
        destruct (writeFile P _); reflexivity.
Qed.

Lemma adds_process_batch : forall batch,
  adds Q anything (process_batch P env batch).
Proof.
  induction batch as [|url rest IH]; cbn [process_batch];
    [apply adds_ret; exact I|].
  eapply adds_bind; [apply adds_processUrl | intros _ _; exact IH].
Qed.

Lemma adds_batch_loop : forall fuel urls i completed,
  adds Q anything (batch_loop P env fuel urls i completed).
Proof.
  induction fuel as [|f IH]; intros urls i completed; cbn [batch_loop];
    (destruct (i <? _); [|apply adds_ret; exact I]).
  - apply adds_diverge.
  - eapply adds_bind; [apply adds_process_batch|]. intros _ _.
    step. apply IH.
Qed.

End TraceInvariant.

Lemma total_ret : forall {A} (a : A), total (ret a).
Proof. intros A a w. discriminate. Qed.

Lemma total_throw : forall {A}, total (@throw A).
Proof. intros A w. discriminate. Qed.

Lemma total_emit : forall e, total (emit e).
Proof. intros e w. discriminate. Qed.

Lemma total_bind : forall {A B} (m : M A) (k : A -> M B),
  total m -> (forall a, total (k a)) -> total (bind m k).
Proof.
  intros A B m k Hm Hk w. unfold bind. specialize (Hm w).
  destruct (m w) as [[a| |] w1]; cbn [fst] in *;
    [apply Hk | discriminate | congruence].
Qed.

Lemma total_try_catch : forall {A} (m handler : M A),
  total m -> total handler -> total (try_catch m handler).
Proof.
  intros A m handler Hm Hh w. unfold try_catch. specialize (Hm w).
  destruct (m w) as [[a| |] w1]; cbn [fst] in *;
    [discriminate | apply Hh | congruence].
Qed.

Section Termination.

Variable P : Packages.
Variable env : Env.

Lemma total_get : forall url, total (get P url).
Proof.
  intros url w. unfold get.
  destruct (axios_get P url _) as [|status data]; [discriminate|].
  destruct (status =? 200); discriminate.
Qed.

Lemma total_fetch_loop : forall left url retryCount,
  (Z.to_nat (retryAttempts (config env) - retryCount) <= left)%nat ->
  total (fetch_loop P env left url retryCount).
Proof.
  induction left as [|k IH]; intros url retryCount Hleft; cbn [fetch_loop];
    (apply total_bind; [apply total_emit|]); intros _;
    (apply total_try_catch; [apply total_get|]);
    (destruct (retryCount <? _) eqn:E;
      [apply Z.ltb_lt in E
      |apply total_bind; [apply total_emit | intros _; apply total_throw]]).
  - lia.
  - apply total_bind; [apply total_emit|]. intros _.
    apply total_bind; [apply total_emit|]. intros _.
    apply IH. lia.
Qed.

Lemma total_fetchHtmlContent : forall url retryCount,
  total (fetchHtmlContent P env url retryCount).
Proof.
  intros url retryCount. unfold fetchHtmlContent. apply total_fetch_loop. lia.
Qed.

Lemma total_turndown_content : forall url html,
  total (turndown_content P env url html).
Proof.
  intros url html. unfold turndown_content.
  apply total_bind; [apply total_emit|]. intros _.
  destruct (turndown P _ _) as [[|c md]|];
    [apply total_throw | apply total_ret | apply total_throw].
Qed.

Lemma total_convert_loop : forall left url retryCount,
  (Z.to_nat (retryAttempts (config env) - retryCount) <= left)%nat ->
  total (convert_loop P env left url retryCount).
Proof.
  induction left as [|k IH]; intros url retryCount Hleft; cbn [convert_loop];
    (apply total_bind; [apply total_emit|]); intros _;
    (apply total_try_catch;
      [apply total_bind; [apply total_fetchHtmlContent|]; intros html;
       apply total_turndown_content|]);
    (destruct (retryCount <? _) eqn:E;
      [apply Z.ltb_lt in E
      |apply total_bind; [apply total_emit | intros _; apply total_throw]]).
  - lia.
  - apply total_bind; [apply total_emit|]. intros _.
    apply total_bind; [apply total_emit|]. intros _.
    apply IH. lia.
Qed.

(** [processUrl] always returns: whatever is thrown inside is caught and
    logged. *)
Lemma processUrl_returns : forall url w,
  fst (processUrl P env url w) = Done tt.
Proof.
  intros url w. unfold processUrl.
  match goal with |- fst (try_catch ?b ?h w) = _ =>
    assert (Hb : total b); [|unfold try_catch; specialize (Hb w);
      destruct (b w) as [[[]| |] w1]; cbn [fst] in *;
        [reflexivity | reflexivity | congruence]]
  end.
  apply total_bind.
  - destruct (usePageTitlesForFilenames _); [|apply total_ret].
    apply total_bind; [apply total_emit|]. intros _.
    apply total_bind; [apply total_fetchHtmlContent|]. intros html.
    apply total_bind; [|intros _; apply total_ret].
    destruct (HtmlProcessor.extractPageTitle _ _) as [[|c t]|];
      apply total_emit.
  - intros [pageTitle htmlContent]. cbn [fst snd].
    apply total_bind.
    + destruct htmlContent as [[|c h]|];
        try (unfold convertHtmlToMarkdown; apply total_convert_loop; lia).
      unfold convertHtmlWithContent.
      apply total_bind; [apply total_emit|]. intros _.
      apply total_try_catch; [apply total_turndown_content|].
      apply total_bind; [apply total_emit | intros _; apply total_throw].
    + intros markdown. apply total_bind.
      * unfold fs_ensureDir. destruct (ensureDir P _);
          [apply total_ret | apply total_throw].
      * intros _. apply total_bind; [|intros _; apply total_emit].
        intros w0. unfold fs_writeFile. destruct (writeFile P _); discriminate.
Qed.

Lemma process_batch_returns : forall batch w,
  fst (process_batch P env batch w) = Done tt.
Proof.
  induction batch as [|url rest IH]; intro w; [reflexivity|].
  cbn [process_batch]. unfold bind.
  pose proof (processUrl_returns url w) as H.
  destruct (processUrl P env url w) as [r w1]. cbn [fst] in H. subst r.
  apply IH.
Qed.

End Termination.

(** *** Properties of the pipeline *)

(** C8, at the failing input.  With the default configuration (retry
    ceiling 3, page titles not in use) [convertHtmlToMarkdown] retries
    around [fetchHtmlContent], which retries on its own: a page whose
    first four requests fail and whose fifth succeeds is written to disk
    after a failure was logged, and only sixteen failed requests in a row
    leave no file.  Where the page is fetched for its title, four failed
    requests do end the job without a file.  Two failures followed by a
    success give one file and no failure entry either way. *)
Theorem nested_retry_exceeds_ceiling :
  retryAttempts (config Ref.env) = 3
  /\ usePageTitlesForFilenames (fileOptions (config Ref.env)) = false
  /\ (let w := snd (processUrl (RefPipeline.packages 4) Ref.env
                      RefPipeline.page_url fresh) in
      length (sent w) = 5%nat
      /\ map fst (files w) = [lit "dist/example.com/docs/intro.md"]
      /\ existsb is_failure (trace w) = true)
  /\ (let w := snd (processUrl (RefPipeline.packages 15) Ref.env
                      RefPipeline.page_url fresh) in
      length (sent w) = 16%nat /\ length (files w) = 1%nat)
  /\ (let w := snd (processUrl (RefPipeline.packages 16) Ref.env
                      RefPipeline.page_url fresh) in
      length (sent w) = 16%nat /\ files w = []
      /\ existsb is_failure (trace w) = true)
  /\ (let w := snd (processUrl (RefPipeline.packages 4)
                      (Ref.env_with Ref.pageTitleOptions)
                      RefPipeline.page_url fresh) in
      length (sent w) = 4%nat /\ files w = []
      /\ existsb is_failure (trace w) = true)
  /\ (let w := snd (processUrl (RefPipeline.packages 2) Ref.env
                      RefPipeline.page_url fresh) in
      length (sent w) = 3%nat /\ length (files w) = 1%nat
      /\ existsb is_failure (trace w) = false)
  /\ (let w := snd (processUrl (RefPipeline.packages 2)
                      (Ref.env_with Ref.pageTitleOptions)
                      RefPipeline.page_url fresh) in
      length (sent w) = 3%nat /\ length (files w) = 1%nat
      /\ existsb is_failure (trace w) = false).
Proof. vm_compute. repeat split; reflexivity. Qed.

(** C10.  In a run of the batch pipeline every markup handed to the
    converter is the result of the rewriter called on a served page
    without a page URL, so [absolutizeMediaUrls] is not run.  For a page
    that parses, that result is the serialization of the document after
    the selector stages, and every element left in it is an element of
    the parsed page with its [src] and [href] values as they were.  On
    the sample page they stay root-relative, where a call with the page
    URL would have put the origin in front. *)
Theorem pipeline_rewrites_without_page_url :
  forall (P : Packages) (env : Env),
    (forall fuel urls w,
       exists added,
         trace (snd (processUrlsInBatches P env fuel urls w))
         = added ++ trace w
         /\ Forall (unabsolutized P env) added)
    /\ (forall html doc root,
          HtmlProcessor.JSDOM (html_packages P) html = Some doc ->
          Dom.documentElement
            (HtmlProcessor.applySelectors (html_packages P) env doc)
          = Some root ->
          HtmlProcessor.process (html_packages P) env html None
          = HtmlProcessor.outerHTML (html_packages P) root
          /\ Dom.links_kept (Dom.elements root) (Dom.doc_elements doc))
    /\ HtmlProcessor.process RefHtml.packages Ref.env RefHtml.page_links None
       <> HtmlProcessor.process RefHtml.packages Ref.env RefHtml.page_links
            (Some RefPipeline.page_url).
Proof.
  intros P env. split; [|split].
  - intros fuel urls w. unfold processUrlsInBatches.
    apply (adds_batch_loop P env (unabsolutized P env)).
    + intros data Hdata. exists data. split; [exact Hdata | reflexivity].
    + intros e He. destruct e; try exact I. exfalso. apply (He input).
      reflexivity.
  - intros html doc root Hdoc Hroot. split.
    + unfold HtmlProcessor.process, HtmlProcessor.process_try.
      rewrite Hdoc, Hroot. reflexivity.
    + eapply HtmlProcessorFacts.links_kept_trans.
      * apply HtmlProcessorFacts.links_kept_incl.
        apply (HtmlProcessorFacts.documentElement_incl _ _ Hroot).
      * apply HtmlProcessorFacts.applySelectors_links.
  - vm_compute. discriminate.
Qed.

Lemma pipeline_rewrites_without_page_url_witness :
  HtmlProcessor.process RefHtml.packages Ref.env RefHtml.page_links None
  = RefHtml.outerHTML
      (RefHtml.el 0 "html" []
         [RefHtml.el 1 "head" []
            [RefHtml.el 2 "title" [] [Dom.Text (lit "Docs")]];
          RefHtml.el 3 "body" []
            [RefHtml.el 6 "a" [(lit "href", lit "/guide")]
               [Dom.Text (lit "Guide")];
             RefHtml.el 7 "img" [(lit "src", lit "/logo.png")] []]]).
Proof.
  destruct (pipeline_rewrites_without_page_url (RefPipeline.packages 0)
              Ref.env) as (_ & H & _).
  destruct (H RefHtml.page_links RefHtml.doc_links
              (RefHtml.el 0 "html" []
                 [RefHtml.el 1 "head" []
                    [RefHtml.el 2 "title" [] [Dom.Text (lit "Docs")]];
                  RefHtml.el 3 "body" []
                    [RefHtml.el 6 "a" [(lit "href", lit "/guide")]
                       [Dom.Text (lit "Guide")];
                     RefHtml.el 7 "img" [(lit "src", lit "/logo.png")] []]])
              eq_refl eq_refl) as [Hp _].
  exact Hp.
Defined.

End PipelineFacts.

(** ** Further properties of the string primitives *)

Module StringProperties.

Lemma trim_start_split : forall s,
  exists p, s = p ++ trim_start s /\ forallb is_space p = true.
Proof.
  induction s as [|c s IH]; [exists []; split; reflexivity|].
  cbn [trim_start]. destruct (is_space c) eqn:E.
  - destruct IH as (p & Hp & Hs). exists (c :: p). split.
    + simpl. f_equal. exact Hp.
    + simpl. rewrite E. exact Hs.
  - exists []. split; reflexivity.
Qed.

Lemma trim_start_head : forall s c t,
  trim_start s = c :: t -> is_space c = false.
Proof.
  induction s as [|d s IH]; intros c t H; [discriminate H|].
  cbn [trim_start] in H. destruct (is_space d) eqn:E.
  - apply (IH c t H).
  - injection H as <- _. exact E.
Qed.

Lemma trim_start_fixed : forall c t,
  is_space c = false -> trim_start (c :: t) = c :: t.
Proof. intros c t H. cbn [trim_start]. rewrite H. reflexivity. Qed.

Lemma trim_idempotent : forall s, trim (trim s) = trim s.
Proof.
  intro s. unfold trim.
  destruct (trim_start s) as [|a0 a] eqn:Ea.
  - reflexivity.
  - pose proof (trim_start_head _ _ _ Ea) as Ha.
    destruct (trim_start_split (rev (a0 :: a))) as (p & Hp & _).
    destruct (trim_start (rev (a0 :: a))) as [|b0 b] eqn:Eb.
    + reflexivity.
    + pose proof (trim_start_head _ _ _ Eb) as Hb.
      (* rev (b0 :: b) is a non-empty prefix of a0 :: a *)
      assert (Hpre : a0 :: a = rev (b0 :: b) ++ rev p).
      { rewrite <- rev_app_distr, <- Hp, rev_involutive. reflexivity. }
      destruct (rev (b0 :: b)) as [|x xs] eqn:Er.
      * apply (f_equal (@rev Z)) in Er. rewrite rev_involutive in Er.
        discriminate Er.
      * simpl in Hpre. injection Hpre as <- _.
        rewrite (trim_start_fixed a0 xs Ha).
        rewrite <- Er, rev_involutive.
        rewrite (trim_start_fixed b0 b Hb). reflexivity.
Qed.

Lemma split_on_nonempty : forall p s, split_on p s <> [].
Proof.
  intros p s. destruct s as [|c s]; simpl; [discriminate|].
  destruct (p c); [discriminate|]. destruct (split_on p s); discriminate.
Qed.

Lemma split_on_pieces : forall p s piece,
  In piece (split_on p s) -> forallb (fun c => negb (p c)) piece = true.
Proof.
  intros p. induction s as [|c s IH]; intros piece H.
  - simpl in H. destruct H as [<-|[]]. reflexivity.
  - cbn [split_on] in H. destruct (p c) eqn:E.
    + destruct H as [<-|H]; [reflexivity | apply IH, H].
    + destruct (split_on p s) as [|w ws] eqn:Es.
      * destruct H as [<-|[]]. simpl. rewrite E. reflexivity.
      * destruct H as [<-|H].
        -- simpl. rewrite E. simpl. apply IH. left. reflexivity.
        -- apply IH. right. exact H.
Qed.

Lemma startsWith_app : forall p s, startsWith (p ++ s) p = true.
Proof.
  induction p as [|c p IH]; intro s; [reflexivity|].
  simpl. rewrite Z.eqb_refl. apply IH.
Qed.

Lemma endsWith_app : forall s p, endsWith (s ++ p) p = true.
Proof.
  intros s p. unfold endsWith. rewrite rev_app_distr. apply startsWith_app.
Qed.

Lemma startsWith_split : forall p s,
  startsWith s p = true -> s = p ++ skipn (length p) s.
Proof.
  induction p as [|c p IH]; intros s H; [reflexivity|].
  destruct s as [|d s]; [discriminate H|]. simpl in H.
  apply andb_true_iff in H. destruct H as [H1 H2]. apply Z.eqb_eq in H1.
  subst d. simpl. f_equal. apply IH, H2.
Qed.

End StringProperties.

(** ** Further properties of the path mapping *)

Module PathMapperProperties.

Import PathMapper StringProperties.

Lemma endsWith_split : forall s p,
  endsWith s p = true -> s = firstn (length s - length p) s ++ p.
Proof.
  intros s p H. unfold endsWith in H. apply startsWith_split in H.
  rewrite length_rev in H.
  remember (rev (skipn (length p) (rev s))) as t eqn:Et.
  assert (Hs : s = t ++ p).
  { apply (f_equal (@rev Z)) in H.
    rewrite rev_involutive, rev_app_distr, rev_involutive in H.
    rewrite Et. exact H. }
  assert (Hl : (length s - length p)%nat = length t).
  { rewrite Et, length_rev, length_skipn, length_rev. reflexivity. }
  rewrite Hl. rewrite Hs at 2.
  rewrite firstn_app, firstn_all, Nat.sub_diag. cbn [firstn].
  rewrite app_nil_r. exact Hs.
Qed.

Lemma strip_extension_spec : forall exts p,
  (strip_extension exts p = p
   /\ forall ext, In ext exts -> endsWith (toLowerCase p) ext = false)
  \/ (exists ext suffix,
        In ext exts /\ p = strip_extension exts p ++ suffix
        /\ toLowerCase suffix = ext).
Proof.
  induction exts as [|e exts IH]; intro p.
  - left. split; [reflexivity | intros ext []].
  - cbn [strip_extension]. destruct (endsWith (toLowerCase p) e) eqn:E.
    + right. exists e, (skipn (length p - length e) p).
      split; [left; reflexivity|]. unfold slice_drop_last.
      split; [symmetry; apply firstn_skipn|].
      apply endsWith_split in E. unfold toLowerCase in *.
      rewrite length_map in E. rewrite <- skipn_map.
      rewrite E at 1. rewrite skipn_app.
      rewrite length_firstn, length_map.
      replace (length p - length e - Nat.min (length p - length e) (length p))%nat
        with 0%nat by lia.
      rewrite skipn_all2 by (rewrite length_firstn, length_map; lia).
      reflexivity.
    + destruct (IH p) as [[Hid Hno]|(ext & suffix & Hin & Hp & Hl)].
      * left. split; [exact Hid|]. intros ext [<-|Hin]; [exact E|].
        apply Hno, Hin.
      * right. exists ext, suffix. split; [right; exact Hin|].
        split; assumption.
Qed.

Lemma url_pathParts_parts : forall u part,
  In part (url_pathParts u) -> part <> [] /\ ~ In 47 part.
Proof.
  intros u part H. unfold url_pathParts in H.
  destruct (truthy _); [|destruct H].
  unfold filter_Boolean in H. apply filter_In in H. destruct H as [Hin Ht].
  split; [destruct part; [discriminate Ht | discriminate]|].
  apply split_on_pieces in Hin. intro H47.
  rewrite forallb_forall in Hin. specialize (Hin 47 H47).
  discriminate Hin.
Qed.

Lemma toString16_aux_length : forall fuel k n acc,
  (1 <= k)%nat -> 0 <= n < 16 ^ Z.of_nat k ->
  (length (toString16_aux fuel n acc) <= k + length acc)%nat.
Proof.
  induction fuel as [|f IH]; intros k n acc Hk Hn; [simpl; lia|].
  cbn [toString16_aux]. destruct (n / 16 =? 0) eqn:E; [simpl; lia|].
  apply Z.eqb_neq in E.
  assert (H16 : 16 <= n).
  { destruct (Z_lt_le_dec n 16) as [Hlt|Hge]; [|exact Hge].
    exfalso. apply E. apply Z.div_small. lia. }
  destruct k as [|[|k]]; [lia | simpl in Hn; lia |].
  specialize (IH (S k) (n / 16) (hex_digit (n mod 16) :: acc)).
  simpl length in IH. 
  assert (Hdiv : 0 <= n / 16 < 16 ^ Z.of_nat (S k)).
  { split; [apply Z.div_pos; lia|]. apply Z.div_lt_upper_bound; [lia|].
    rewrite <- Z.pow_succ_r by lia. rewrite <- Nat2Z.inj_succ. apply Hn. }
  specialize (IH ltac:(lia) Hdiv). lia.
Qed.

Lemma hash_pair_collides : forall h,
  hash_step (hash_step h 65) 97 = hash_step (hash_step h 66) 66.
Proof.
  intro h. rewrite !PathMapperFacts.hash_step_wrap.
  apply JSFacts.toInt32_mod_eq.
  destruct (JSFacts.toInt32_congr (31 * h + 65)) as [k1 E1].
  destruct (JSFacts.toInt32_congr (31 * h + 66)) as [k2 E2].
  rewrite E1, E2.
  replace (31 * (31 * h + 65 + k1 * 2 ^ 32) + 97)
    with (961 * h + 2112 + (31 * k1) * 2 ^ 32) by lia.
  replace (31 * (31 * h + 66 + k2 * 2 ^ 32) + 66)
    with (961 * h + 2112 + (31 * k2) * 2 ^ 32) by lia.
  rewrite !Z_mod_plus_full. reflexivity.
Qed.


(** X1.  For a URL that parses, the directory parts [parseUrl] returns
    are the path parts without the last one, which names the file; each
    of them is non-empty and holds no slash. *)
Theorem pathParts_well_formed :
  forall (P : Packages) (env : Env) (url : jsstring) (u : URLObj),
    URL_new P url = Some u ->
    pathParts (parseUrl P env url) = removelast (url_pathParts u)
    /\ Forall (fun part => part <> [] /\ ~ In 47 part)
         (pathParts (parseUrl P env url)).
Proof.
  intros P env url u Hu.
  assert (E : pathParts (parseUrl P env url) = removelast (url_pathParts u))
    by (unfold parseUrl; rewrite Hu; reflexivity).
  split; [exact E|]. rewrite E. apply Forall_forall. intros part Hin.
  apply url_pathParts_parts with (u := u).
  destruct (url_pathParts u) as [|x l] eqn:El; [destruct Hin|].
  rewrite (app_removelast_last x (l := x :: l)) by discriminate.
  apply in_or_app. left. exact Hin.
Qed.

Lemma pathParts_well_formed_witness :
  pathParts (parseUrl Ref.packages Ref.env
               (lit "https://example.com//a///b/c.html"))
  = [lit "a"; lit "b"].
Proof.
  destruct (pathParts_well_formed Ref.packages Ref.env
              (lit "https://example.com//a///b/c.html")
              {| hostname := lit "example.com";
                 pathname := lit "//a///b/c.html"; search := [] |}
              eq_refl) as [H _].
  rewrite H. reflexivity.
Defined.

(** X2.  [parseUrl] strips at most one extension, and only a recognised
    one, whatever its letter case: either no recognised extension ends
    the lowercased pathname and the pathname is kept, or the pathname is
    the result followed by a suffix that lowercases to a recognised
    extension. *)
Theorem strip_extension_once :
  forall p : jsstring,
    (strip_extension fileExtensions p = p
     /\ forall ext, In ext fileExtensions ->
                    endsWith (toLowerCase p) ext = false)
    \/ (exists ext suffix,
          In ext fileExtensions
          /\ p = strip_extension fileExtensions p ++ suffix
          /\ toLowerCase suffix = ext).
Proof. intro p. apply strip_extension_spec. Qed.

(** X3.  Whatever the URL, the policy and the title, the file name
    [getOutputPaths] chooses ends with [.md]. *)
Theorem outputFilename_extension :
  forall (P : Packages) (env : Env) (url : jsstring)
         (title : option jsstring),
    endsWith (outputFilename P env url title) (lit ".md") = true.
Proof.
  intros P env url title.
  assert (Hdef : endsWith (filename (parseUrl P env url)) (lit ".md") = true).
  { unfold parseUrl. destruct (URL_new P url);
      [unfold parseUrl_try | unfold parseUrl_catch];
      cbn [filename]; apply endsWith_app. }
  unfold outputFilename. destruct title as [[|c t]|]; try exact Hdef.
  destruct (_ && _); [|exact Hdef].
  destruct (truthy _); [apply endsWith_app | exact Hdef].
Qed.

(** X4.  The query hash collides: two query strings that differ by [Aa]
    against [BB] at one place have the same hash, so under the
    query-hash policy two URLs with the same path and such query strings
    are mapped to the same file name. *)
Theorem query_hash_collision :
  forall (P : Packages) (env : Env) (url1 url2 : jsstring) (u1 u2 : URLObj)
         (before after : jsstring),
    preserveUrlFilenames (fileOptions (config env)) = true ->
    URL_new P url1 = Some u1 ->
    URL_new P url2 = Some u2 ->
    pathname u1 = pathname u2 ->
    search u1 = lit "?" ++ before ++ lit "Aa" ++ after ->
    search u2 = lit "?" ++ before ++ lit "BB" ++ after ->
    hashCode (before ++ lit "Aa" ++ after)
    = hashCode (before ++ lit "BB" ++ after)
    /\ filename (parseUrl P env url1) = filename (parseUrl P env url2).
Proof.
  intros P env url1 url2 u1 u2 before after Hpol H1 H2 Hpath Hs1 Hs2.
  assert (Hh : hashCode (before ++ lit "Aa" ++ after)
               = hashCode (before ++ lit "BB" ++ after)).
  { unfold hashCode. f_equal. f_equal. rewrite !fold_left_app.
    f_equal. change (lit "Aa") with [65; 97]. change (lit "BB") with [66; 66].
    cbn [fold_left]. apply hash_pair_collides. }
  split; [exact Hh|].
  unfold parseUrl. rewrite H1, H2. unfold parseUrl_try. cbn [filename].
  assert (Hparts : url_pathParts u1 = url_pathParts u2)
    by (unfold url_pathParts; rewrite Hpath; reflexivity).
  unfold query_suffixed. rewrite Hpol, Hs1, Hs2, Hparts.
  rewrite !PathMapperFacts.strip_question, Hh.
  change (truthy (lit "?" ++ before ++ lit "Aa" ++ after)) with true.
  change (truthy (lit "?" ++ before ++ lit "BB" ++ after)) with true.
  rewrite !length_app. reflexivity.
Qed.

Lemma query_hash_collision_witness :
  outputFilename Ref.packages Ref.env
    (lit "https://example.com/search?q=Aa&page=2") None
  = outputFilename Ref.packages Ref.env
      (lit "https://example.com/search?q=BB&page=2") None.
Proof.
  destruct (query_hash_collision Ref.packages Ref.env
              (lit "https://example.com/search?q=Aa&page=2")
              (lit "https://example.com/search?q=BB&page=2")
              {| hostname := lit "example.com"; pathname := lit "/search";
                 search := lit "?q=Aa&page=2" |}
              {| hostname := lit "example.com"; pathname := lit "/search";
                 search := lit "?q=BB&page=2" |}
              (lit "q=") (lit "&page=2")
              eq_refl eq_refl eq_refl eq_refl eq_refl eq_refl) as [_ H].
  unfold outputFilename. rewrite H. reflexivity.
Defined.

(** X5.  The hash suffix has between one and eight characters. *)
Theorem hashCode_length :
  forall s : jsstring, (1 <= length (hashCode s) <= 8)%nat.
Proof.
  intro s. split.
  - pose proof (PathMapperFacts.hashCode_nonempty s) as H.
    destruct (hashCode s); [congruence | simpl; lia].
  - unfold hashCode, toString16.
    pose proof (PathMapperFacts.hash_fold_range s 0 ltac:(lia)) as Hr.
    pose proof (toString16_aux_length
                  (S (Z.to_nat (Z.log2 (Z.abs (fold_left hash_step s 0)))))
                  8 (Z.abs (fold_left hash_step s 0)) []) as H.
    simpl length in H. rewrite Nat.add_0_r in H. apply H; [lia|].
    change (16 ^ Z.of_nat 8) with 4294967296. lia.
Qed.

(** X28.  Two URLs that parse with the same pathname and the same query
    string are mapped to the same directory and file when their host
    names agree up to a leading [www.], and, under the flat structure,
    whatever their host names are: scheme, port and fragment never
    matter. *)
Theorem same_path_same_file :
  forall (P : Packages) (env : Env) (url1 url2 : jsstring) (u1 u2 : URLObj)
         (title : option jsstring),
    URL_new P url1 = Some u1 ->
    URL_new P url2 = Some u2 ->
    pathname u1 = pathname u2 ->
    search u1 = search u2 ->
    useDomainSubfolders (fileOptions (config env)) = false
    \/ strip_prefix (lit "www.") (hostname u1)
       = strip_prefix (lit "www.") (hostname u2) ->
    getOutputPaths P env url1 title = getOutputPaths P env url2 title.
Proof.
  intros P env url1 url2 [h1 p1 s1] [h2 p2 s2] title H1 H2 Hp Hs Hd.
  cbn [pathname search hostname] in *. subst p2 s2.
  assert (Hf : filename (parseUrl P env url1) = filename (parseUrl P env url2)).
  { unfold parseUrl. rewrite H1, H2. reflexivity. }
  assert (Hparts : pathParts (parseUrl P env url1)
                   = pathParts (parseUrl P env url2)).
  { unfold parseUrl. rewrite H1, H2. reflexivity. }
  assert (Hdir : dirParts P env url1 = dirParts P env url2).
  { unfold dirParts, dirSegments. rewrite Hparts.
    destruct (useDomainSubfolders _) eqn:E; [|reflexivity].
    destruct Hd as [Hd|Hd]; [discriminate Hd|].
    unfold parseUrl. rewrite H1, H2. cbn [parseUrl_try domain hostname].
    rewrite Hd. reflexivity. }
  unfold getOutputPaths, outputFilename. rewrite Hdir, Hf. reflexivity.
Qed.

Lemma same_path_same_file_witness :
  getOutputPaths Ref.packages Ref.env
    (lit "http://www.example.com/about?x=1#top") None
  = getOutputPaths Ref.packages Ref.env
      (lit "https://example.com/about?x=1") None.
Proof.
  apply (same_path_same_file Ref.packages Ref.env
           (lit "http://www.example.com/about?x=1#top")
           (lit "https://example.com/about?x=1")
           {| hostname := lit "www.example.com"; pathname := lit "/about";
              search := lit "?x=1" |}
           {| hostname := lit "example.com"; pathname := lit "/about";
              search := lit "?x=1" |}
           None); try reflexivity.
  right. reflexivity.
Defined.

End PathMapperProperties.

(** ** Further properties of the rewriter *)

Module RewriterProperties.

Import Dom HtmlProcessor Observe DomFacts StringProperties.

(** *** Removal *)

Lemma rewrite_remove_absent : forall id n,
  ~ In id (map (fun e => fst (fst e))
             (flat_map elements
                (rewrite_node
                   (fun n => if is_element id n then Some [] else None) n))).
Proof.
  intro id. apply node_ind_nested.
  - intros i t a cs IH. cbn [rewrite_node is_element].
    destruct (Nat.eqb i id) eqn:E; [intros []|].
    cbn [flat_map elements]. rewrite app_nil_r. cbn [map fst].
    intros [H|H]; [apply Nat.eqb_neq in E; congruence|].
    apply in_map_iff in H. destruct H as (e & He & Hin).
    rewrite flat_map_flat_map in Hin. apply in_flat_map in Hin.
    destruct Hin as (c & Hc & Hin).
    apply (proj1 (Forall_forall _ _) IH c Hc).
    apply in_map_iff. exists e. split; assumption.
  - intros d []. 
  - intros d [].
Qed.

Lemma removeChild_absent : forall id doc, ~ In id (ids (removeChild id doc)).
Proof.
  intros id doc H. unfold ids, removeChild, doc_elements in H.
  apply in_map_iff in H. destruct H as (e & He & Hin).
  rewrite flat_map_flat_map in Hin. apply in_flat_map in Hin.
  destruct Hin as (n & _ & Hin).
  apply (rewrite_remove_absent id n). apply in_map_iff.
  exists e. split; assumption.
Qed.

Lemma ids_incl : forall d d',
  incl (doc_elements d') (doc_elements d) -> incl (ids d') (ids d).
Proof.
  intros d d' H i Hi. unfold ids in *. apply in_map_iff in Hi.
  destruct Hi as (e & <- & He).
  apply (in_map (fun e0 => fst (fst e0))). apply H, He.
Qed.

Lemma fold_remove_keeps_absent : forall id matched doc,
  ~ In id (ids doc) ->
  ~ In id (ids (fold_left (fun d j => removeChild j d) matched doc)).
Proof.
  intros id. induction matched as [|j rest IH]; intros doc H; [exact H|].
  cbn [fold_left]. apply IH. intro Hin. apply H.
  apply (ids_incl _ _ (removeChild_incl j doc)), Hin.
Qed.

Lemma fold_remove_absent : forall id matched doc,
  In id matched ->
  ~ In id (ids (fold_left (fun d j => removeChild j d) matched doc)).
Proof.
  intros id. induction matched as [|j rest IH]; intros doc Hin; [destruct Hin|].
  cbn [fold_left]. destruct Hin as [->|Hin].
  - apply fold_remove_keeps_absent, removeChild_absent.
  - apply IH, Hin.
Qed.

(** *** Text *)

Lemma textContent_visible : forall i t a cs,
  textContent (Element i t a cs) = flat_map visible cs.
Proof. reflexivity. Qed.

Lemma flat_map_ext_in : forall {A B} (f g : A -> list B) (l : list A),
  Forall (fun x => f x = g x) l -> flat_map f l = flat_map g l.
Proof.
  intros A B f g l H. induction H as [|x l Hx _ IH]; [reflexivity|].
  simpl. rewrite Hx, IH. reflexivity.
Qed.

Lemma unwrap_rule_text : forall id n,
  flat_map visible
    (rewrite_node (fun n => match n with
                            | Element i _ _ cs =>
                                if Nat.eqb i id then Some cs else None
                            | _ => None
                            end) n)
  = visible n.
Proof.
  intro id. apply node_ind_nested.
  - intros i t a cs IH. cbn [rewrite_node].
    destruct (Nat.eqb i id); [reflexivity|].
    cbn [flat_map visible]. rewrite app_nil_r, !textContent_visible.
    rewrite flat_map_flat_map. apply flat_map_ext_in. exact IH.
  - intro d. cbn [rewrite_node flat_map]. apply app_nil_r.
  - intro d. reflexivity.
Qed.

Lemma unwrap_inner_text : forall id doc,
  doc_text (unwrap_inner id doc) = doc_text doc.
Proof.
  intros id doc. unfold doc_text, unwrap_inner. rewrite flat_map_flat_map.
  apply flat_map_ext_in. apply Forall_forall. intros n _.
  apply unwrap_rule_text.
Qed.

Lemma leading_comments_silent : forall l cm r,
  leading_comments l = (cm, r) -> flat_map visible cm = [].
Proof.
  induction l as [|c l IH]; intros cm r H; simpl in H.
  - injection H as <- _. reflexivity.
  - destruct (is_comment c) eqn:Ec.
    + destruct (leading_comments l) as [cm' r'] eqn:E.
      injection H as <- _. destruct c; try discriminate Ec.
      cbn [flat_map visible app]. apply (IH cm' r'). reflexivity.
    + injection H as <- _. reflexivity.
Qed.

Lemma unwrap_top_text : forall id doc d threw,
  unwrap_top id doc = Some (d, threw) -> doc_text d = doc_text doc.
Proof.
  intros id. induction doc as [|n rest IH]; intros d threw H; simpl in H;
    [discriminate|].
  assert (Hskip : forall d0 t0,
            match unwrap_top id rest with
            | Some (d1, threw1) => Some (n :: d1, threw1)
            | None => None
            end = Some (d0, t0) ->
            doc_text d0 = doc_text (n :: rest)).
  { intros d0 t0 H0. destruct (unwrap_top id rest) as [[d1 t1]|] eqn:E;
      [|discriminate].
    injection H0 as <- <-. unfold doc_text in *. cbn [flat_map].
    f_equal. apply (IH d1 t1). reflexivity. }
  destruct n as [i t a cs|dd|dd]; try (apply (Hskip d threw H)).
  destruct (Nat.eqb i id); [|apply (Hskip d threw H)].
  destruct (leading_comments cs) as [cm r] eqn:E.
  pose proof (leading_comments_silent _ _ _ E) as Hcm.
  apply leading_comments_app in E. subst cs.
  unfold doc_text in *. cbn [flat_map visible].
  rewrite textContent_visible, flat_map_app, Hcm.
  destruct r as [|r0 r]; injection H as <- <-.
  - rewrite flat_map_app, Hcm. reflexivity.
  - rewrite flat_map_app, Hcm. cbn [flat_map visible app].
    rewrite textContent_visible. reflexivity.
Qed.

Lemma unwrapElement_text : forall id doc,
  doc_text (fst (unwrapElement id doc)) = doc_text doc.
Proof.
  intros id doc. unfold unwrapElement.
  destruct (unwrap_top id doc) as [[d threw]|] eqn:E.
  - apply (unwrap_top_text _ _ _ _ E).
  - apply unwrap_inner_text.
Qed.

Lemma unwrap_each_text : forall matched doc,
  doc_text (unwrap_each matched doc) = doc_text doc.
Proof.
  induction matched as [|id rest IH]; intro doc; [reflexivity|].
  cbn [unwrap_each]. pose proof (unwrapElement_text id doc) as H.
  destruct (unwrapElement id doc) as [d threw]. cbn [fst] in H.
  destruct threw; [exact H|]. rewrite IH. exact H.
Qed.

Lemma map_attrs_visible : forall g n,
  visible (map_attrs g n) = visible n.
Proof.
  intro g. apply node_ind_nested.
  - intros i t a cs IH. cbn [map_attrs visible].
    rewrite !textContent_visible, flat_map_concat_map, map_map.
    rewrite <- flat_map_concat_map. apply flat_map_ext_in. exact IH.
  - intro d. reflexivity.
  - intro d. reflexivity.
Qed.

Lemma map_attrs_doc_text : forall g doc,
  doc_text (map (map_attrs g) doc) = doc_text doc.
Proof.
  intros g doc. unfold doc_text.
  rewrite flat_map_concat_map, map_map, <- flat_map_concat_map.
  apply flat_map_ext_in. apply Forall_forall. intros n _.
  apply map_attrs_visible.
Qed.

(** *** Attributes *)

Lemma elements_map_attrs : forall g n,
  elements (map_attrs g n)
  = map (fun e => (fst (fst e), snd (fst e),
                   g (fst (fst e)) (snd (fst e)) (snd e)))
      (elements n).
Proof.
  intro g. apply node_ind_nested.
  - intros i t a cs IH. cbn [map_attrs elements map fst snd]. f_equal.
    induction IH as [|c cs Hc _ IHcs]; [reflexivity|].
    cbn [map flat_map]. rewrite map_app, Hc, IHcs. reflexivity.
  - intro d. reflexivity.
  - intro d. reflexivity.
Qed.

Lemma doc_elements_map_attrs : forall g doc,
  doc_elements (map (map_attrs g) doc)
  = map (fun e => (fst (fst e), snd (fst e),
                   g (fst (fst e)) (snd (fst e)) (snd e)))
      (doc_elements doc).
Proof.
  intros g doc. unfold doc_elements.
  induction doc as [|n doc IH]; [reflexivity|].
  cbn [map flat_map]. rewrite map_app, elements_map_attrs, IH. reflexivity.
Qed.

Lemma map_attrs_ext_in : forall g1 g2 n,
  (forall i t a, In (i, t, a) (elements n) -> g1 i t a = g2 i t a) ->
  map_attrs g1 n = map_attrs g2 n.
Proof.
  intros g1 g2. apply (node_ind_nested
    (fun n => (forall i t a, In (i, t, a) (elements n) ->
                 g1 i t a = g2 i t a) ->
              map_attrs g1 n = map_attrs g2 n)).
  - intros i t a cs IH H. cbn [map_attrs].
    rewrite (H i t a) by (left; reflexivity). f_equal.
    apply map_ext_in. intros c Hc.
    apply (proj1 (Forall_forall _ _) IH c Hc). intros j u b Hin.
    apply H. cbn [elements]. right. apply in_flat_map. exists c.
    split; assumption.
  - intros d _. reflexivity.
  - intros d _. reflexivity.
Qed.

Lemma map_attrs_compose : forall g1 g2 n,
  map_attrs g2 (map_attrs g1 n)
  = map_attrs (fun i t a => g2 i t (g1 i t a)) n.
Proof.
  intros g1 g2. apply node_ind_nested.
  - intros i t a cs IH. cbn [map_attrs]. f_equal. rewrite map_map.
    apply map_ext_in. intros c Hc.
    apply (proj1 (Forall_forall _ _) IH c Hc).
  - intro d. reflexivity.
  - intro d. reflexivity.
Qed.

Lemma getAttribute_setAttribute_same : forall a name value,
  getAttribute (setAttribute a name value) name = Some value.
Proof.
  induction a as [|[k v] a IH]; intros name value.
  - simpl. replace (eqb name name) with true
      by (symmetry; apply JSFacts.jsstring_eqb_eq; reflexivity).
    reflexivity.
  - cbn [setAttribute]. destruct (eqb k name) eqn:E.
    + cbn [getAttribute]. rewrite E. reflexivity.
    + cbn [getAttribute]. rewrite E. apply IH.
Qed.

Lemma getAttribute_setAttribute_other : forall a name other value,
  eqb name other = false ->
  getAttribute (setAttribute a name value) other = getAttribute a other.
Proof.
  induction a as [|[k v] a IH]; intros name other value Hne.
  - simpl. rewrite Hne. reflexivity.
  - cbn [setAttribute]. destruct (eqb k name) eqn:E.
    + apply JSFacts.jsstring_eqb_eq in E. subst k.
      cbn [getAttribute]. rewrite Hne. reflexivity.
    + cbn [getAttribute]. destruct (eqb k other); [reflexivity|].
      apply IH, Hne.
Qed.


Lemma removeAttributes_of_elements : forall P doc all,
  querySelectorAll P doc (lit "*") = Some all ->
  (forall i, In i (ids doc) -> In i all) ->
  removeAttributes_of P doc
  = map (map_attrs (fun _ _ a => filter (fun kv => kept_name (fst kv)) a))
      doc.
Proof.
  intros P doc all Hq Hall. unfold removeAttributes_of. rewrite Hq.
  apply map_ext_in. intros n Hn. apply map_attrs_ext_in. intros i t a Hin.
  assert (Hi : In i all).
  { apply Hall. unfold ids, doc_elements. apply in_map_iff.
    exists (i, t, a). split; [reflexivity|]. apply in_flat_map.
    exists n. split; assumption. }
  replace (existsb (Nat.eqb i) all) with true; [reflexivity|].
  symmetry. apply existsb_exists. exists i. split; [exact Hi|].
  apply Nat.eqb_refl.
Qed.

Lemma filter_kept_twice : forall a : Attrs,
  filter (fun kv => kept_name (fst kv))
    (filter (fun kv => kept_name (fst kv)) a)
  = filter (fun kv => kept_name (fst kv)) a.
Proof.
  induction a as [|kv a IH]; [reflexivity|].
  cbn [filter]. destruct (kept_name (fst kv)) eqn:E; [|exact IH].
  cbn [filter]. rewrite E, IH. reflexivity.
Qed.

(** *** Markdown image references in [alt] texts *)

Lemma replace_from_skip : forall origin x y,
  replace_from origin (length x) (x ++ y) = replace_from origin 0 y.
Proof.
  intros origin. induction x as [|c x IH]; intro y; [reflexivity|].
  cbn [length app replace_from]. apply IH.
Qed.

Lemma replace_from_match : forall origin c s' p1 after x,
  match_markdown_image (c :: s') = Some (p1, after) ->
  s' = x ++ after ->
  replace_from origin 0 (c :: s')
  = lit "![Image](" ++ origin ++ p1 ++ lit ")" ++ replace_from origin 0 after.
Proof.
  intros origin c s' p1 after x Hm Hs. cbn [replace_from]. rewrite Hm.
  do 4 f_equal. rewrite Hs at 1 2. rewrite length_app, Nat.add_sub.
  apply replace_from_skip.
Qed.

Lemma replace_from_miss : forall origin c s',
  match_markdown_image (c :: s') = None ->
  replace_from origin 0 (c :: s') = c :: replace_from origin 0 s'.
Proof.
  intros origin c s' Hm. cbn [replace_from]. rewrite Hm. reflexivity.
Qed.

Lemma break_at_app : forall p x c y,
  forallb (fun u => negb (p u)) x = true -> p c = true ->
  break_at p (x ++ c :: y) = (x, c :: y).
Proof.
  intros p. induction x as [|d x IH]; intros c y Hx Hc.
  - simpl. rewrite Hc. reflexivity.
  - simpl in Hx. apply andb_true_iff in Hx. destruct Hx as [Hd Hx].
    apply negb_true_iff in Hd. cbn [app break_at]. rewrite Hd.
    rewrite (IH c y Hx Hc). reflexivity.
Qed.

Lemma match_link_tail_here : forall path rest,
  path <> [] ->
  forallb (fun c => negb (c =? 41)) path = true ->
  match_link_tail (lit "](/" ++ path ++ lit ")" ++ rest)
  = Some (47 :: path, rest).
Proof.
  intros path rest Hne Hp. unfold match_link_tail.
  rewrite startsWith_app.
  change (skipn 3 (lit "](/" ++ path ++ lit ")" ++ rest))
    with (path ++ 41 :: rest).
  rewrite (break_at_app (fun c => c =? 41) path 41 rest Hp eq_refl).
  destruct path as [|p0 path]; [congruence | reflexivity].
Qed.

Lemma match_lazy_label : forall label path rest,
  forallb (fun c => re_dot c && negb (c =? 93)) label = true ->
  path <> [] ->
  forallb (fun c => negb (c =? 41)) path = true ->
  match_lazy (label ++ lit "](/" ++ path ++ lit ")" ++ rest)
  = Some (47 :: path, rest).
Proof.
  induction label as [|c label IH]; intros path rest Hl Hne Hp.
  - cbn [app].
    pose proof (match_link_tail_here path rest Hne Hp) as H.
    destruct (lit "](/" ++ path ++ lit ")" ++ rest) as [|x xs];
      cbn [match_lazy]; rewrite H; reflexivity.
  - simpl in Hl. apply andb_true_iff in Hl. destruct Hl as [Hc Hl].
    apply andb_true_iff in Hc. destruct Hc as [Hdot Hbr].
    apply negb_true_iff in Hbr.
    cbn [app match_lazy].
    assert (Hno : match_link_tail
                    (c :: label ++ lit "](/" ++ path ++ lit ")" ++ rest)
                  = None).
    { unfold match_link_tail.
      replace (startsWith
                 (c :: label ++ lit "](/" ++ path ++ lit ")" ++ rest)
                 (lit "](/")) with false; [reflexivity|].
      change (lit "](/") with [93; 40; 47]. cbn [startsWith].
      rewrite Z.eqb_sym, Hbr. reflexivity. }
    rewrite Hno, Hdot. apply IH; assumption.
Qed.


(** *** Properties *)

(** X6.  When the exclude query succeeds, none of the elements it
    matched is left in the document, and the stage adds no element. *)
Theorem exclude_removes_matched :
  forall (P : Packages) (env : Env) (doc : Document) (matched : list nat),
    exclude (selectors (config env)) <> [] ->
    querySelectorAll P doc
      (join (lit ", ") (exclude (selectors (config env)))) = Some matched ->
    (forall id, In id matched ->
                ~ In id (ids (processExcludeSelectors P env doc)))
    /\ incl (doc_elements (processExcludeSelectors P env doc))
         (doc_elements doc).
Proof.
  intros P env doc matched Hex Hq. split.
  - intros id Hin. unfold processExcludeSelectors.
    destruct (exclude (selectors (config env))) as [|s0 ss] eqn:E;
      [congruence|].
    rewrite Hq. apply fold_remove_absent, Hin.
  - apply HtmlProcessorFacts.processExcludeSelectors_incl.
Qed.

Lemma exclude_removes_matched_witness :
  ~ In 4%nat (ids (processExcludeSelectors RefHtml.packages Ref.env
                     RefHtml.doc_links)).
Proof.
  assert (Hex : exclude (selectors (config Ref.env)) <> []) by discriminate.
  destruct (exclude_removes_matched RefHtml.packages Ref.env
              RefHtml.doc_links [4%nat] Hex eq_refl) as [H _].
  apply H. left. reflexivity.
Defined.

(** X7.  Unwrapping, attribute stripping and URL absolutization leave
    the text of the document as it is: the containers go, every
    character of text stays, in its order. *)
Theorem rewriter_keeps_text :
  forall (P : Packages) (env : Env) (doc : Document),
    doc_text (processUnwrapSelectors P env doc) = doc_text doc
    /\ doc_text (removeAttributes_of P doc) = doc_text doc
    /\ (forall pageUrl,
          doc_text (absolutizeMediaUrls P doc pageUrl) = doc_text doc).
Proof.
  intros P env doc. split; [|split].
  - unfold processUnwrapSelectors. destruct (unwrap _); [reflexivity|].
    destruct (querySelectorAll P doc _); [apply unwrap_each_text|].
    reflexivity.
  - unfold removeAttributes_of.
    destruct (querySelectorAll P doc _); [apply map_attrs_doc_text|].
    reflexivity.
  - intro pageUrl. unfold absolutizeMediaUrls.
    destruct (URL_origin P pageUrl) as [origin|]; [|reflexivity].
    unfold update_by_tag. rewrite !map_attrs_doc_text.
    generalize mediaTags. intro tags. revert doc.
    induction tags as [|m tags IH]; intro doc; [reflexivity|].
    cbn [fold_left]. rewrite IH. apply map_attrs_doc_text.
Qed.

(** X8.  When the universal query returns every element, attribute
    stripping leaves on every element only attributes named [href],
    [src], [alt] or [title], and stripping a second time changes
    nothing. *)
Theorem strip_attributes_spec :
  forall (P : Packages) (doc : Document) (all : list nat),
    querySelectorAll P doc (lit "*") = Some all ->
    (forall i, In i (ids doc) -> In i all) ->
    (forall i t a,
       In (i, t, a) (doc_elements (removeAttributes_of P doc)) ->
       Forall (fun kv => In (fst kv) keepAttributes) a)
    /\ removeAttributes_of P (removeAttributes_of P doc)
       = removeAttributes_of P doc.
Proof.
  intros P doc all Hq Hall.
  pose proof (removeAttributes_of_elements P doc all Hq Hall) as E.
  split.
  - intros i t a Hin. rewrite E, doc_elements_map_attrs in Hin.
    apply in_map_iff in Hin. destruct Hin as ([[j u] b] & Heq & _).
    cbn [fst snd] in Heq. injection Heq as _ _ <-.
    apply Forall_forall. intros kv Hkv. apply filter_In in Hkv.
    destruct Hkv as [_ Hk]. unfold kept_name in Hk.
    apply existsb_exists in Hk. destruct Hk as (k & Hk & Heq).
    apply JSFacts.jsstring_eqb_eq in Heq. rewrite Heq. exact Hk.
  - unfold removeAttributes_of at 1.
    destruct (querySelectorAll P (removeAttributes_of P doc) (lit "*"))
      as [again|]; [|reflexivity].
    rewrite E at 1. rewrite map_map. rewrite E. apply map_ext.
    intro n. rewrite map_attrs_compose. apply map_attrs_ext_in.
    intros i t a _. destruct (existsb (Nat.eqb i) again); [|reflexivity].
    apply filter_kept_twice.
Qed.

Lemma strip_attributes_spec_witness :
  removeAttributes_of RefHtml.packages
    (removeAttributes_of RefHtml.packages RefHtml.doc_links)
  = removeAttributes_of RefHtml.packages RefHtml.doc_links.
Proof.
  assert (Hall : forall i, In i (ids RefHtml.doc_links) ->
                           In i [0; 1; 2; 3; 4; 5; 6; 7]%nat)
    by (intros i H; exact H).
  destruct (strip_attributes_spec RefHtml.packages RefHtml.doc_links
              [0; 1; 2; 3; 4; 5; 6; 7]%nat eq_refl Hall) as [_ H].
  exact H.
Defined.

(** X9.  With a page URL that parses, [absolutizeMediaUrls] gives every
    image its [src] and every anchor its [href] with the origin in
    front when the value starts with one slash, and leaves the value as
    it is otherwise, protocol-relative values included. *)
Theorem absolutize_links :
  forall (P : Packages) (doc : Document) (pageUrl origin : jsstring)
         (i : nat) (a : Attrs) (val : jsstring),
    URL_origin P pageUrl = Some origin ->
    let expected :=
      if startsWith val (lit "/") && negb (startsWith val (lit "//"))
      then origin ++ val else val in
    (In (i, lit "img", a) (doc_elements doc) ->
     getAttribute a (lit "src") = Some val ->
     exists a',
       In (i, lit "img", a') (doc_elements (absolutizeMediaUrls P doc pageUrl))
       /\ getAttribute a' (lit "src") = Some expected)
    /\ (In (i, lit "a", a) (doc_elements doc) ->
        getAttribute a (lit "href") = Some val ->
        exists a',
          In (i, lit "a", a') (doc_elements (absolutizeMediaUrls P doc pageUrl))
          /\ getAttribute a' (lit "href") = Some expected).
Proof.
  intros P doc pageUrl origin i a val Ho expected.
  assert (Habs : forall name,
            getAttribute a name = Some val ->
            getAttribute (absolutize_attr origin name a) name = Some expected).
  { intros name Hget. unfold absolutize_attr, expected. rewrite Hget.
    destruct val as [|v0 val]; [cbn; exact Hget|]. cbn [truthy andb].
    destruct (startsWith (v0 :: val) (lit "/")); [|exact Hget].
    cbn [andb]. destruct (startsWith (v0 :: val) (lit "//"));
      [exact Hget|].
    cbn [negb]. apply getAttribute_setAttribute_same. }
  assert (Halt : forall b name,
            eqb (lit "alt") name = false ->
            getAttribute (fix_alt origin b) name = getAttribute b name).
  { intros b name Hne. unfold fix_alt.
    destruct (getAttribute b (lit "alt")) as [[|c alt]|]; try reflexivity.
    apply getAttribute_setAttribute_other, Hne. }
  unfold absolutizeMediaUrls. rewrite Ho. unfold update_by_tag.
  cbn [mediaTags fold_left fst snd].
  rewrite !doc_elements_map_attrs. split.
  - intros Hin Hget.
    exists (fix_alt origin (absolutize_attr origin (lit "src") a)).
    split.
    + rewrite !map_map. apply in_map_iff. eexists. split; [|exact Hin].
      reflexivity.
    + rewrite Halt by reflexivity. apply Habs, Hget.
  - intros Hin Hget.
    exists (fix_alt origin (absolutize_attr origin (lit "href") a)).
    split.
    + rewrite !map_map. apply in_map_iff. eexists. split; [|exact Hin].
      reflexivity.
    + rewrite Halt by reflexivity. apply Habs, Hget.
Qed.


Lemma absolutize_links_witness :
  exists a',
    In (7%nat, lit "img", a')
      (doc_elements (absolutizeMediaUrls RefHtml.packages RefHtml.doc_links
                       RefPipeline.page_url))
    /\ getAttribute a' (lit "src") = Some (lit "https://example.com/logo.png").
Proof.
  destruct (absolutize_links RefHtml.packages RefHtml.doc_links
              RefPipeline.page_url (lit "https://example.com") 7%nat
              [(lit "src", lit "/logo.png")] (lit "/logo.png") eq_refl)
    as [H _].
  apply H; [|reflexivity].
  right. right. right. right. right. right. right. left. reflexivity.
Defined.

(** X10.  In an [alt] text, a markdown image reference whose label holds
    no closing bracket and no line break and whose target starts with a
    slash is replaced by an image reference to the origin followed by
    the target; the text before it, when it holds no exclamation mark,
    is kept, and the replacement goes on behind the reference. *)
Theorem markdown_image_replaced :
  forall (origin before label path rest : jsstring),
    forallb (fun c => negb (c =? 33)) before = true ->
    forallb (fun c => re_dot c && negb (c =? 93)) label = true ->
    path <> [] ->
    forallb (fun c => negb (c =? 41)) path = true ->
    replace_markdown_images origin
      (before ++ lit "![" ++ label ++ lit "](/" ++ path ++ lit ")" ++ rest)
    = before ++ lit "![Image](" ++ origin ++ lit "/" ++ path ++ lit ")"
      ++ replace_markdown_images origin rest.
Proof.
  intros origin before label path rest Hb Hl Hne Hp.
  unfold replace_markdown_images.
  induction before as [|c before IH].
  - cbn [app]. change (lit "![") with [33; 91]. cbn [app].
    rewrite (replace_from_match origin 33
               (91 :: label ++ lit "](/" ++ path ++ lit ")" ++ rest)
               (47 :: path) rest
               (91 :: label ++ lit "](/" ++ path ++ lit ")")).
    + reflexivity.
    + unfold match_markdown_image. change (lit "![") with [33; 91].
      cbn [startsWith]. rewrite !Z.eqb_refl. cbn [andb skipn].
      apply match_lazy_label; assumption.
    + cbn [app]. rewrite <- !app_assoc. reflexivity.
  - simpl in Hb. apply andb_true_iff in Hb. destruct Hb as [Hc Hb].
    apply negb_true_iff in Hc.
    assert (Hno : match_markdown_image
                    (c :: before ++ lit "![" ++ label ++ lit "](/" ++ path
                       ++ lit ")" ++ rest) = None).
    { unfold match_markdown_image.
      replace (startsWith _ (lit "![")) with false; [reflexivity|].
      change (lit "![") with [33; 91]. cbn [startsWith].
      rewrite Z.eqb_sym, Hc. reflexivity. }
    change ((c :: before) ++ lit "![" ++ label ++ lit "](/" ++ path
              ++ lit ")" ++ rest)
      with (c :: (before ++ lit "![" ++ label ++ lit "](/" ++ path
                    ++ lit ")" ++ rest)).
    rewrite (replace_from_miss origin c _ Hno).
    cbn [app]. f_equal. apply IH, Hb.
Qed.

Lemma markdown_image_replaced_witness :
  replace_markdown_images (lit "https://example.com")
    (lit "see ![logo](/img/logo.png) here")
  = lit "see ![Image](https://example.com/img/logo.png) here".
Proof.
  assert (Hne : lit "img/logo.png" <> []) by discriminate.
  pose proof (markdown_image_replaced (lit "https://example.com")
                (lit "see ") (lit "logo") (lit "img/logo.png") (lit " here")
                eq_refl eq_refl Hne eq_refl) as H.
  exact H.
Defined.

(** X11.  A title [extractPageTitle] returns has no white space at
    either end. *)
Theorem extracted_title_trimmed :
  forall (P : Packages) (html title : jsstring),
    extractPageTitle P html = Some title -> trim title = title.
Proof.
  intros P html title H. unfold extractPageTitle in H.
  destruct (JSDOM P html) as [doc|]; [|discriminate H].
  destruct (querySelector P doc (lit "title")) as [e1|].
  - destruct (truthy (textContent e1)).
    + injection H as <-. apply trim_idempotent.
    + destruct (querySelector P doc (lit "h1")) as [e2|].
      * destruct (truthy (textContent e2));
          [injection H as <-; apply trim_idempotent|].
        destruct (querySelector P doc meta_title_selector)
          as [[i t a cs|d|d]|]; try discriminate H.
        destruct (getAttribute a (lit "content")) as [[|c v]|];
          try discriminate H.
        injection H as <-. apply trim_idempotent.
      * destruct (querySelector P doc meta_title_selector)
          as [[i t a cs|d|d]|]; try discriminate H.
        destruct (getAttribute a (lit "content")) as [[|c v]|];
          try discriminate H.
        injection H as <-. apply trim_idempotent.
  - destruct (querySelector P doc (lit "h1")) as [e2|].
    + destruct (truthy (textContent e2));
        [injection H as <-; apply trim_idempotent|].
      destruct (querySelector P doc meta_title_selector)
        as [[i t a cs|d|d]|]; try discriminate H.
      destruct (getAttribute a (lit "content")) as [[|c v]|];
        try discriminate H.
      injection H as <-. apply trim_idempotent.
    + destruct (querySelector P doc meta_title_selector)
        as [[i t a cs|d|d]|]; try discriminate H.
      destruct (getAttribute a (lit "content")) as [[|c v]|];
        try discriminate H.
      injection H as <-. apply trim_idempotent.
Qed.

Lemma extracted_title_trimmed_witness :
  trim (lit "Docs") = lit "Docs".
Proof.
  apply (extracted_title_trimmed RefHtml.packages RefHtml.page_links
           (lit "Docs")).
  reflexivity.
Defined.

End RewriterProperties.

(** ** Further properties of the sitemap parser *)

Module SitemapProperties.

Import SitemapParser Resolution StringProperties.

Lemma await_all_throws : forall rec batch,
  In StartThrows batch -> await_all rec batch = Thrown.
Proof.
  intros rec. induction batch as [|s rest IH]; intros H; [destruct H|].
  cbn [await_all]. destruct H as [->|H]; [reflexivity|].
  rewrite (IH H). destruct s; try reflexivity.
  destruct (rec sitemapUrl); reflexivity.
Qed.

Lemma In_skipn_split : forall {A} (x : A) n k l,
  In x (skipn k l) -> In x (firstn n (skipn k l)) \/ In x (skipn (k + n) l).
Proof.
  intros A x n k l H. rewrite <- (firstn_skipn n (skipn k l)) in H.
  apply in_app_or in H. destruct H as [H|H]; [left; exact H|].
  right. rewrite skipn_skipn in H. rewrite Nat.add_comm. exact H.
Qed.

Lemma In_skipn : forall {A} (x : A) k l, In x (skipn k l) -> In x l.
Proof.
  intros A x k l H. rewrite <- (firstn_skipn k l). apply in_or_app.
  right. exact H.
Qed.

Lemma In_firstn : forall {A} (x : A) k l, In x (firstn k l) -> In x l.
Proof.
  intros A x k l H. rewrite <- (firstn_skipn k l). apply in_or_app.
  left. exact H.
Qed.

Lemma as_array_length : forall {A} (x : OneOrMany A) e,
  In e (as_array x) -> (0 < length (as_array x))%nat.
Proof. intros A x e H. destruct (as_array x); [destruct H | simpl; lia]. Qed.

Section Index.

Variable P : Packages.
Variable env : Env.

Lemma await_all_settles : forall fuel baseUrl batch,
  (forall e, In e batch -> settles P env fuel baseUrl e) ->
  await_all (parseFromUrl P env fuel) (map (start P baseUrl) batch) = Thrown
  \/ exists results,
       await_all (parseFromUrl P env fuel) (map (start P baseUrl) batch)
       = Done results.
Proof.
  intros fuel baseUrl. induction batch as [|e rest IH]; intros H.
  - right. exists []. reflexivity.
  - cbn [map await_all].
    pose proof (H e (or_introl eq_refl)) as He. unfold settles in He.
    destruct (IH (fun e' H' => H e' (or_intror H'))) as [E|[results E]];
      rewrite E; destruct (start P baseUrl e) as [| |u].
    + left. reflexivity.
    + left. reflexivity.
    + destruct He as [urls ->]. left. reflexivity.
    + left. reflexivity.
    + right. eexists. reflexivity.
    + destruct He as [urls ->]. right. eexists. reflexivity.
Qed.

Lemma index_loop_throws : forall recfuel baseUrl sitemaps e,
  0 < maxConcurrent (config env) ->
  start P baseUrl e = StartThrows ->
  (forall e', In e' sitemaps -> settles P env recfuel baseUrl e') ->
  forall fuel (k : nat) allUrls,
    In e (skipn k sitemaps) ->
    (length sitemaps - k <= fuel)%nat ->
    index_loop P env fuel (parseFromUrl P env recfuel) baseUrl sitemaps
      (Z.of_nat k) allUrls
    = Thrown.
Proof.
  intros recfuel baseUrl sitemaps e Hmc He Hall.
  induction fuel as [|f IH]; intros k allUrls Hin Hfuel.
  - rewrite skipn_all2 in Hin by lia. destruct Hin.
  - assert (Hk : (k < length sitemaps)%nat).
    { destruct (Nat.lt_ge_cases k (length sitemaps)) as [Hlt|Hge];
        [exact Hlt|].
      rewrite skipn_all2 in Hin by lia. destruct Hin. }
    cbn [index_loop].
    replace (Z.of_nat k <? Z.of_nat (length sitemaps)) with true
      by (symmetry; apply Z.ltb_lt; lia).
    rewrite JSFacts.slice_window by exact Hmc.
    destruct (In_skipn_split e (Z.to_nat (maxConcurrent (config env)))
                k sitemaps Hin) as [Hhere|Hlater].
    + rewrite await_all_throws; [reflexivity|].
      rewrite <- He. apply in_map. exact Hhere.
    + destruct (await_all_settles recfuel baseUrl
                  (firstn (Z.to_nat (maxConcurrent (config env)))
                     (skipn k sitemaps))) as [E|[results E]].
      * intros e' He'. apply Hall. eapply In_skipn, In_firstn, He'.
      * rewrite E. reflexivity.
      * rewrite E.
        replace (Z.of_nat k + maxConcurrent (config env))
          with (Z.of_nat (k + Z.to_nat (maxConcurrent (config env))))
          by lia.
        apply IH; [exact Hlater | lia].
Qed.

Lemma index_loop_stuck : forall rec baseUrl sitemaps,
  maxConcurrent (config env) <= 0 ->
  sitemaps <> [] ->
  forall fuel i allUrls,
    i <= 0 ->
    index_loop P env fuel rec baseUrl sitemaps i allUrls = Diverges
    \/ index_loop P env fuel rec baseUrl sitemaps i allUrls = Thrown.
Proof.
  intros rec baseUrl sitemaps Hmc Hne.
  assert (Hlen : 0 < Z.of_nat (length sitemaps)).
  { destruct sitemaps; [contradiction | simpl length; lia]. }
  induction fuel as [|f IH]; intros i allUrls Hi; cbn [index_loop];
    replace (i <? Z.of_nat (length sitemaps)) with true
      by (symmetry; apply Z.ltb_lt; lia).
  - left. reflexivity.
  - destruct (await_all rec _) as [results| |].
    + apply IH. lia.
    + right. reflexivity.
    + left. reflexivity.
Qed.

Lemma index_loop_idle : forall rec baseUrl sitemaps,
  maxConcurrent (config env) = 0 ->
  sitemaps <> [] ->
  forall fuel allUrls,
    index_loop P env fuel rec baseUrl sitemaps 0 allUrls = Diverges.
Proof.
  intros rec baseUrl sitemaps Hmc Hne.
  assert (Hlen : 0 < Z.of_nat (length sitemaps)).
  { destruct sitemaps; [contradiction | simpl length; lia]. }
  induction fuel as [|f IH]; intros allUrls; cbn [index_loop];
    replace (0 <? Z.of_nat (length sitemaps)) with true
      by (symmetry; apply Z.ltb_lt; lia).
  - reflexivity.
  - rewrite Hmc. unfold slice. rewrite Z.add_0_r, Z.sub_diag.
    cbn [Z.to_nat firstn map await_all concat]. apply IH.
Qed.

End Index.

(** *** Further properties of sitemap resolution *)

(** X12.  [handleUrlset] treats a single entry as an array of one entry;
    every location it returns is the trimmed, non-empty location of an
    entry, has no white space at either end, and there are no more
    locations than entries. *)
Theorem urlset_locations :
  forall url : OneOrMany Entry,
    (forall u, In u (handleUrlset url) ->
       trim u = u
       /\ exists e l,
            In (Some e) (as_array url) /\ loc e = Some l /\ l <> []
            /\ u = trim l)
    /\ (length (handleUrlset url) <= length (as_array url))%nat
    /\ (forall e, handleUrlset (One e) = handleUrlset (Many [e])).
Proof.
  intros url. split; [|split].
  - intros u Hu. destruct url as [|e|es]; cbn [handleUrlset] in Hu.
    + destruct Hu.
    + destruct (loc e) as [[|c l]|] eqn:E; [destruct Hu | | destruct Hu].
      destruct Hu as [<-|[]]. split; [apply trim_idempotent|].
      exists e, (c :: l). cbn [as_array].
      repeat split; [left; reflexivity | exact E | discriminate].
    + apply in_flat_map in Hu. destruct Hu as (e & He & Hu).
      destruct (loc e) as [[|c l]|] eqn:E; [destruct Hu | | destruct Hu].
      destruct Hu as [<-|[]]. split; [apply trim_idempotent|].
      exists e, (c :: l). cbn [as_array].
      repeat split; [apply in_map; exact He | exact E | discriminate].
  - destruct url as [|e|es]; cbn [handleUrlset as_array length].
    + lia.
    + destruct (loc e) as [[|c l]|]; simpl; lia.
    + rewrite length_map. induction es as [|e es IH]; [simpl; lia|].
      cbn [flat_map]. rewrite length_app.
      destruct (loc e) as [[|c l]|]; simpl length in *; lia.
  - intros e. cbn [handleUrlset flat_map]. rewrite app_nil_r. reflexivity.
Qed.

(** X13.  One entry of a sitemap index that has no [sitemap] object or
    whose location cannot be resolved against the URL of the index makes
    the whole index resolve to the empty list, whatever the other
    entries contribute. *)
Theorem broken_entry_empties_index :
  forall (P : Packages) (env : Env) (fuel : nat) (url data : jsstring)
         (sitemap : OneOrMany Entry) (e : option Entry),
    0 < maxConcurrent (config env) ->
    axios_get P url = Reply 200 data ->
    parseString P data = Some (Sitemapindex sitemap) ->
    (length (as_array sitemap) <= fuel)%nat ->
    In e (as_array sitemap) ->
    start P url e = StartThrows ->
    (forall e', In e' (as_array sitemap) -> settles P env fuel url e') ->
    parseFromUrl P env (S fuel) url = Done [].
Proof.
  intros P env fuel url data sitemap e Hmc Hget Hparse Hfuel Hin He Hall.
  cbn [parseFromUrl]. rewrite Hget. cbn [Z.eqb Pos.eqb].
  unfold parseSitemapContent. rewrite Hparse. unfold handleSitemapIndex.
  pose proof (index_loop_throws P env fuel url (as_array sitemap) e Hmc He
                Hall fuel 0%nat []) as HL.
  cbn [Z.of_nat skipn] in HL. rewrite HL; [reflexivity | exact Hin | lia].
Qed.

Lemma broken_entry_empties_index_witness :
  parseFromUrl RefBrokenIndex.packages Ref.env 3 RefBrokenIndex.index_url
  = Done [].
Proof.
  assert (Hmc : 0 < maxConcurrent (config Ref.env)) by reflexivity.
  assert (Hfuel : (length (as_array RefBrokenIndex.index) <= 2)%nat)
    by (simpl; lia).
  apply (broken_entry_empties_index RefBrokenIndex.packages Ref.env 2
           RefBrokenIndex.index_url (lit "index-broken")
           RefBrokenIndex.index (Some (RefSitemap.entry "http://"))
           Hmc eq_refl eq_refl Hfuel).
  - right. left. reflexivity.
  - reflexivity.
  - intros e' [<-|[<-|[]]].
    + unfold settles. eexists. vm_compute. reflexivity.
    + exact I.
Defined.

(** X14.  With a [maxConcurrent] of zero or less the resolution of a
    sitemap index gives no URL: when it returns, it returns the empty
    list, and with a [maxConcurrent] of zero it does not return. *)
Theorem index_needs_concurrency :
  forall (P : Packages) (env : Env) (url data : jsstring)
         (sitemap : OneOrMany Entry),
    maxConcurrent (config env) <= 0 ->
    axios_get P url = Reply 200 data ->
    parseString P data = Some (Sitemapindex sitemap) ->
    (forall fuel urls, parseFromUrl P env fuel url = Done urls -> urls = [])
    /\ (maxConcurrent (config env) = 0 -> as_array sitemap <> [] ->
        forall fuel, parseFromUrl P env fuel url = Diverges).
Proof.
  intros P env url data sitemap Hmc Hget Hparse. split.
  - intros [|fuel] urls H; [discriminate H|].
    cbn [parseFromUrl] in H. rewrite Hget in H. cbn [Z.eqb Pos.eqb] in H.
    unfold parseSitemapContent in H. rewrite Hparse in H.
    unfold handleSitemapIndex in H.
    destruct (as_array sitemap) as [|e0 es] eqn:Earr.
    + destruct fuel; cbn in H; injection H as <-; reflexivity.
    + destruct (index_loop_stuck P env (parseFromUrl P env fuel) url
                  (e0 :: es) Hmc ltac:(discriminate) fuel 0 []
                  ltac:(lia)) as [E|E];
        rewrite E in H; [discriminate H | injection H as <-; reflexivity].
  - intros H0 Hne [|fuel]; [reflexivity|].
    cbn [parseFromUrl]. rewrite Hget. cbn [Z.eqb Pos.eqb].
    unfold parseSitemapContent. rewrite Hparse. unfold handleSitemapIndex.
    rewrite (index_loop_idle P env _ url _ H0 Hne). reflexivity.
Qed.

Lemma index_needs_concurrency_witness :
  parseFromUrl RefSitemap.packages (RefEnv.env_max_concurrent 0) 1000
    RefSitemap.index_url
  = Diverges.
Proof.
  assert (Hmc : maxConcurrent (config (RefEnv.env_max_concurrent 0)) <= 0)
    by (simpl; lia).
  destruct (index_needs_concurrency RefSitemap.packages
              (RefEnv.env_max_concurrent 0) RefSitemap.index_url
              (lit "index")
              (Many [RefSitemap.entry "https://example.com/sitemap-pages.xml";
                     RefSitemap.entry "/sitemap-posts.xml"])
              Hmc eq_refl eq_refl) as [_ H].
  apply H; [reflexivity | discriminate].
Defined.

End SitemapProperties.

(** ** Further properties of the batch pipeline *)

Module PipelineProperties.

Import Pipeline Effects.

Lemma quiet_app : forall l1 l2,
  quiet l1 = true -> quiet l2 = true -> quiet (l1 ++ l2) = true.
Proof.
  intros l1 l2 H1 H2. unfold quiet in *. rewrite forallb_app, H1, H2.
  reflexivity.
Qed.

Lemma effects_ret : forall {A} url (a : A), effects url 0 (ret a).
Proof.
  intros A url a w. cbn. repeat split.
  - exists []. split; reflexivity.
  - exists []. repeat split; [constructor | simpl; lia].
Qed.

Lemma effects_throw : forall {A} url, effects url 0 (@throw A).
Proof.
  intros A url w. cbn. repeat split.
  - exists []. split; reflexivity.
  - exists []. repeat split; [constructor | simpl; lia].
Qed.

Lemma effects_diverge : forall {A} url, effects url 0 (@diverge A).
Proof.
  intros A url w. cbn. repeat split.
  - exists []. split; reflexivity.
  - exists []. repeat split; [constructor | simpl; lia].
Qed.

Lemma effects_emit : forall url e,
  is_terminal e = false -> effects url 0 (emit e).
Proof.
  intros url e He w. cbn. repeat split.
  - exists [e]. split; [reflexivity|]. unfold quiet. simpl. rewrite He.
    reflexivity.
  - exists []. repeat split; [constructor | simpl; lia].
Qed.

Lemma effects_weaken : forall {A} url n n' (m : M A),
  (n <= n')%nat -> effects url n m -> effects url n' m.
Proof.
  intros A url n n' m Hn Hm w.
  destruct (Hm w) as (F & T & (s & S1 & A1 & L1)).
  repeat split; [exact F | exact T|].
  exists s. repeat split; [exact S1 | exact A1 | lia].
Qed.

Lemma effects_bind : forall {A B} url n1 n2 (m : M A) (k : A -> M B),
  effects url n1 m -> (forall a, effects url n2 (k a)) ->
  effects url (n1 + n2) (bind m k).
Proof.
  intros A B url n1 n2 m k Hm Hk w. unfold bind.
  destruct (Hm w) as (F1 & (l1 & T1 & Q1) & (s1 & S1 & A1 & L1)).
  destruct (m w) as [[a| |] w1]; cbn [snd] in *.
  - destruct (Hk a w1) as (F2 & (l2 & T2 & Q2) & (s2 & S2 & A2 & L2)).
    repeat split.
    + rewrite F2. exact F1.
    + exists (l2 ++ l1). split; [rewrite T2, T1; apply app_assoc|].
      apply quiet_app; assumption.
    + exists (s2 ++ s1). repeat split.
      * rewrite S2, S1. apply app_assoc.
      * apply Forall_app. split; assumption.
      * rewrite length_app. lia.
  - repeat split; [exact F1 | exists l1; split; assumption|].
    exists s1. repeat split; [exact S1 | exact A1 | lia].
  - repeat split; [exact F1 | exists l1; split; assumption|].
    exists s1. repeat split; [exact S1 | exact A1 | lia].
Qed.

Lemma effects_try_catch : forall {A} url n1 n2 (m handler : M A),
  effects url n1 m -> effects url n2 handler ->
  effects url (n1 + n2) (try_catch m handler).
Proof.
  intros A url n1 n2 m handler Hm Hh w. unfold try_catch.
  destruct (Hm w) as (F1 & (l1 & T1 & Q1) & (s1 & S1 & A1 & L1)).
  destruct (m w) as [[a| |] w1]; cbn [snd] in *.
  - repeat split; [exact F1 | exists l1; split; assumption|].
    exists s1. repeat split; [exact S1 | exact A1 | lia].
  - destruct (Hh w1) as (F2 & (l2 & T2 & Q2) & (s2 & S2 & A2 & L2)).
    repeat split.
    + rewrite F2. exact F1.
    + exists (l2 ++ l1). split; [rewrite T2, T1; apply app_assoc|].
      apply quiet_app; assumption.
    + exists (s2 ++ s1). repeat split.
      * rewrite S2, S1. apply app_assoc.
      * apply Forall_app. split; assumption.
      * rewrite length_app. lia.
  - repeat split; [exact F1 | exists l1; split; assumption|].
    exists s1. repeat split; [exact S1 | exact A1 | lia].
Qed.

Lemma count_sent_here : forall url s,
  count_sent url (url :: s) = S (count_sent url s).
Proof.
  intros url s. cbn [count_sent].
  replace (eqb url url) with true; [reflexivity|].
  symmetry. apply JSFacts.jsstring_eqb_eq. reflexivity.
Qed.

Lemma repeat_snoc : forall {A} (x : A) n l,
  repeat x n ++ x :: l = repeat x (S n) ++ l.
Proof.
  intros A x n l. induction n as [|n IH]; [reflexivity|].
  cbn [repeat app] in *. rewrite IH. reflexivity.
Qed.

Section Jobs.

Variable P : Packages.
Variable env : Env.

Lemma effects_get : forall url, effects url 1 (get P url).
Proof.
  intros url w. unfold get.
  assert (H : forall r : Outcome jsstring,
            let w' := {| sent := url :: sent w; files := files w;
                         trace := trace w |} in
            files (snd (r, w')) = files w
            /\ (exists l, trace (snd (r, w')) = l ++ trace w
                          /\ quiet l = true)
            /\ (exists s, sent (snd (r, w')) = s ++ sent w
                          /\ Forall (eq url) s /\ (length s <= 1)%nat)).
  { intros r. cbn. repeat split.
    - exists []. split; reflexivity.
    - exists [url]. repeat split; [|simpl; lia].
      constructor; [reflexivity | constructor]. }
  destruct (axios_get P url _) as [|status data]; [apply H|].
  destruct (status =? 200); apply H.
Qed.

Ltac log := apply effects_emit; reflexivity.

Lemma effects_fetch_loop : forall left url retryCount,
  effects url (S left) (fetch_loop P env left url retryCount).
Proof.
  induction left as [|k IH]; intros url retryCount; cbn [fetch_loop];
    (apply (effects_bind url 0 _); [log|]); intros _;
    (apply (effects_try_catch url 1 _); [apply effects_get|]);
    (destruct (retryCount <? _);
      [|apply (effects_weaken url 0); [lia|];
        apply (effects_bind url 0 0); [log | intros _; apply effects_throw]]).
  - apply (effects_bind url 0 0); [log|]. intros _.
    apply (effects_bind url 0 0); [log|]. intros _. apply effects_diverge.
  - apply (effects_bind url 0 (S k)); [log|]. intros _.
    apply (effects_bind url 0 (S k)); [log|]. intros _. apply IH.
Qed.

Lemma effects_fetchHtmlContent : forall url retryCount,
  effects url (S (Z.to_nat (retryAttempts (config env) - retryCount)))
    (fetchHtmlContent P env url retryCount).
Proof.
  intros url retryCount. unfold fetchHtmlContent. apply effects_fetch_loop.
Qed.

Lemma effects_turndown_content : forall url html,
  effects url 0 (turndown_content P env url html).
Proof.
  intros url html. unfold turndown_content.
  apply (effects_bind url 0 0); [log|]. intros _.
  destruct (turndown P _ _) as [[|c md]|];
    [apply effects_throw | apply effects_ret | apply effects_throw].
Qed.

Lemma effects_convert_loop : forall left url retryCount,
  effects url (S left * S (Z.to_nat (retryAttempts (config env))))
    (convert_loop P env left url retryCount).
Proof.
  induction left as [|k IH]; intros url retryCount; cbn [convert_loop];
    (apply (effects_bind url 0 _); [log|]); intros _;
    (apply (effects_try_catch url
              (S (Z.to_nat (retryAttempts (config env)))) _);
      [apply (effects_weaken url
                (S (Z.to_nat (retryAttempts (config env) - 0)) + 0));
         [rewrite Z.sub_0_r; lia|];
       apply effects_bind; [apply effects_fetchHtmlContent|];
       intros html; apply effects_turndown_content|]);
    (destruct (retryCount <? _);
      [|apply (effects_weaken url 0); [lia|];
        apply (effects_bind url 0 0); [log | intros _; apply effects_throw]]).
  - apply (effects_bind url 0 0); [log|]. intros _.
    apply (effects_bind url 0 0); [log|]. intros _. apply effects_diverge.
  - apply (effects_bind url 0 _); [log|]. intros _.
    apply (effects_bind url 0 _); [log|]. intros _. apply IH.
Qed.

Lemma get_refused : forall url w,
  refused P url (count_sent url (sent w)) ->
  get P url w = (Thrown, {| sent := url :: sent w; files := files w;
                            trace := trace w |}).
Proof.
  intros url w H. unfold refused in H. unfold get.
  destruct (axios_get P url _) as [|status data]; [reflexivity|].
  apply Z.eqb_neq in H. rewrite H. reflexivity.
Qed.

Lemma get_served : forall url w data,
  axios_get P url (count_sent url (sent w)) = Reply 200 data ->
  get P url w = (Done data, {| sent := url :: sent w; files := files w;
                               trace := trace w |}).
Proof. intros url w data H. unfold get. rewrite H. reflexivity. Qed.

Lemma fetch_loop_served : forall left url retryCount w data,
  axios_get P url (count_sent url (sent w)) = Reply 200 data ->
  fetch_loop P env left url retryCount w
  = (Done data, {| sent := url :: sent w; files := files w;
                   trace := Fetching url :: trace w |}).
Proof.
  intros left url rc w data H.
  destruct left; cbn [fetch_loop]; unfold bind, emit, try_catch;
    match goal with |- context [get P url ?w1] =>
      rewrite (get_served url w1 data H)
    end; reflexivity.
Qed.

Lemma fetch_loop_failed : forall left url retryCount w,
  refused P url (count_sent url (sent w)) ->
  (retryCount <? retryAttempts (config env)) = false ->
  fetch_loop P env left url retryCount w
  = (Thrown, {| sent := url :: sent w; files := files w;
                trace := FetchFailed url :: Fetching url :: trace w |}).
Proof.
  intros left url rc w H Hlt.
  destruct left; cbn [fetch_loop]; unfold bind, emit, try_catch;
    match goal with |- context [get P url ?w1] =>
      rewrite (get_refused url w1 H)
    end; rewrite Hlt; reflexivity.
Qed.

Lemma fetch_loop_retry : forall left url retryCount w,
  refused P url (count_sent url (sent w)) ->
  (retryCount <? retryAttempts (config env)) = true ->
  fetch_loop P env (S left) url retryCount w
  = fetch_loop P env left url (retryCount + 1)
      {| sent := url :: sent w; files := files w;
         trace := Sleep (retryDelay (config env))
                  :: FetchRetry url (retryCount + 1)
                  :: Fetching url :: trace w |}.
Proof.
  intros left url rc w H Hlt.
  cbn [fetch_loop]. unfold bind, emit, try_catch.
  match goal with |- context [get P url ?w1] =>
    rewrite (get_refused url w1 H)
  end.
  rewrite Hlt. reflexivity.
Qed.

Lemma fetch_loop_succeeds : forall url data n left retryCount w,
  (n <= left)%nat ->
  (retryCount + Z.of_nat n <= retryAttempts (config env)) \/ n = 0%nat ->
  (forall k, (k < n)%nat -> refused P url (count_sent url (sent w) + k)) ->
  axios_get P url (count_sent url (sent w) + n) = Reply 200 data ->
  fst (fetch_loop P env left url retryCount w) = Done data
  /\ sent (snd (fetch_loop P env left url retryCount w))
     = repeat url (S n) ++ sent w
  /\ files (snd (fetch_loop P env left url retryCount w)) = files w.
Proof.
  intros url data. induction n as [|n IH]; intros left rc w Hleft Hrc Href Hok.
  - rewrite Nat.add_0_r in Hok.
    rewrite (fetch_loop_served left url rc w data Hok).
    repeat split; reflexivity.
  - destruct left as [|left]; [lia|].
    assert (Hlt : (rc <? retryAttempts (config env)) = true)
      by (apply Z.ltb_lt; lia).
    pose proof (Href 0%nat ltac:(lia)) as H0. rewrite Nat.add_0_r in H0.
    rewrite (fetch_loop_retry left url rc w H0 Hlt).
    match goal with |- context [fetch_loop P env left url (rc + 1) ?w1] =>
      destruct (IH left (rc + 1) w1) as (R1 & R2 & R3)
    end.
    + lia.
    + left. lia.
    + intros k Hk. cbn [sent]. rewrite count_sent_here.
      replace (S (count_sent url (sent w)) + k)%nat
        with (count_sent url (sent w) + S k)%nat by lia.
      apply Href. lia.
    + cbn [sent]. rewrite count_sent_here.
      replace (S (count_sent url (sent w)) + n)%nat
        with (count_sent url (sent w) + S n)%nat by lia.
      exact Hok.
    + repeat split; [exact R1 | | exact R3].
      rewrite R2. cbn [sent]. apply (repeat_snoc url (S n)).
Qed.

Lemma fetch_loop_gives_up : forall url left retryCount w,
  left = Z.to_nat (retryAttempts (config env) - retryCount) ->
  (forall k, (k <= left)%nat ->
     refused P url (count_sent url (sent w) + k)) ->
  fst (fetch_loop P env left url retryCount w) = Thrown
  /\ sent (snd (fetch_loop P env left url retryCount w))
     = repeat url (S left) ++ sent w
  /\ files (snd (fetch_loop P env left url retryCount w)) = files w
  /\ exists t, trace (snd (fetch_loop P env left url retryCount w))
               = FetchFailed url :: t.
Proof.
  intros url. induction left as [|left IH]; intros rc w Hleft Href.
  - assert (Hlt : (rc <? retryAttempts (config env)) = false)
      by (apply Z.ltb_ge; lia).
    pose proof (Href 0%nat ltac:(lia)) as H0. rewrite Nat.add_0_r in H0.
    rewrite (fetch_loop_failed 0 url rc w H0 Hlt).
    repeat split. eexists. reflexivity.
  - assert (Hlt : (rc <? retryAttempts (config env)) = true)
      by (apply Z.ltb_lt; lia).
    pose proof (Href 0%nat ltac:(lia)) as H0. rewrite Nat.add_0_r in H0.
    rewrite (fetch_loop_retry left url rc w H0 Hlt).
    match goal with |- context [fetch_loop P env left url (rc + 1) ?w1] =>
      destruct (IH (rc + 1) w1) as (R1 & R2 & R3 & R4)
    end.
    + lia.
    + intros k Hk. cbn [sent]. rewrite count_sent_here.
      replace (S (count_sent url (sent w)) + k)%nat
        with (count_sent url (sent w) + S k)%nat by lia.
      apply Href. lia.
    + repeat split; [exact R1 | | exact R3 | exact R4].
      rewrite R2. cbn [sent]. apply (repeat_snoc url (S left)).
Qed.

Lemma writes_turndown_content : forall url html,
  adds (@anything Event) (written P env url) (turndown_content P env url html).
Proof.
  intros url html. unfold turndown_content.
  eapply PipelineFacts.adds_bind;
    [apply PipelineFacts.adds_emit; exact I|]. intros _ _.
  destruct (turndown P _ _) as [[|c md]|] eqn:E;
    [apply PipelineFacts.adds_throw | | apply PipelineFacts.adds_throw].
  apply PipelineFacts.adds_ret. exists html, c, md. split; [exact E|].
  reflexivity.
Qed.

Lemma writes_convert_loop : forall left url retryCount,
  adds (@anything Event) (written P env url) (convert_loop P env left url retryCount).
Proof.
  induction left as [|k IH]; intros url retryCount; cbn [convert_loop];
    (eapply PipelineFacts.adds_bind;
       [apply PipelineFacts.adds_emit; exact I|]); intros _ _;
    (apply PipelineFacts.adds_try_catch;
      [eapply PipelineFacts.adds_bind with (R := anything);
         [intros w; split; [|intros a _; exact I];
          destruct (effects_fetchHtmlContent url 0 w) as (_ & (l & T & _) & _);
          exists l; split; [exact T|]; apply Forall_forall; intros e _;
          exact I|];
       intros html _; apply writes_turndown_content|]);
    (destruct (retryCount <? _);
      [|eapply PipelineFacts.adds_bind;
          [apply PipelineFacts.adds_emit; exact I|];
        intros _ _; apply PipelineFacts.adds_throw]);
    (eapply PipelineFacts.adds_bind;
       [apply PipelineFacts.adds_emit; exact I|]); intros _ _;
    (eapply PipelineFacts.adds_bind;
       [apply PipelineFacts.adds_emit; exact I|]); intros _ _.
  - apply PipelineFacts.adds_diverge.
  - apply IH.
Qed.

Lemma writes_convertHtmlWithContent : forall url html,
  adds (@anything Event) (written P env url) (convertHtmlWithContent P env url html).
Proof.
  intros url html. unfold convertHtmlWithContent.
  eapply PipelineFacts.adds_bind;
    [apply PipelineFacts.adds_emit; exact I|]. intros _ _.
  apply PipelineFacts.adds_try_catch; [apply writes_turndown_content|].
  eapply PipelineFacts.adds_bind;
    [apply PipelineFacts.adds_emit; exact I|]. intros _ _.
  apply PipelineFacts.adds_throw.
Qed.

Lemma effects_convertHtmlWithContent : forall url html,
  effects url 0 (convertHtmlWithContent P env url html).
Proof.
  intros url html. unfold convertHtmlWithContent.
  apply (effects_bind url 0 0); [log|]. intros _.
  apply (effects_try_catch url 0 0); [apply effects_turndown_content|].
  apply (effects_bind url 0 0); [log | intros _; apply effects_throw].
Qed.

Lemma processUrl_spec : forall url w,
  exists l s,
    quiet l = true
    /\ sent (snd (processUrl P env url w)) = s ++ sent w
    /\ Forall (eq url) s
    /\ (length s <= request_budget env)%nat
    /\ ((trace (snd (processUrl P env url w))
         = ProcessError url :: l ++ trace w
         /\ files (snd (processUrl P env url w)) = files w)
        \/ (exists title content,
              trace (snd (processUrl P env url w))
              = Saved (PathMapper.filePath
                         (PathMapper.getOutputPaths (path_packages P) env
                            url title)) :: l ++ trace w
              /\ files (snd (processUrl P env url w))
                 = (PathMapper.filePath
                      (PathMapper.getOutputPaths (path_packages P) env
                         url title), content) :: files w
              /\ written P env url content)).
Proof.
  intros url w.
  remember (processUrl P env url w) as r eqn:Er.
  unfold processUrl, try_catch in Er. unfold bind at 1 in Er.
  match type of Er with
  | context [match ?m w with _ => _ end] =>
      assert (H1 : effects url
                     (if usePageTitlesForFilenames (fileOptions (config env))
                      then S (Z.to_nat (retryAttempts (config env))) else 0)
                     m
                   /\ total m)
  end.
  { destruct (usePageTitlesForFilenames _);
      [|split; [apply effects_ret | apply PipelineFacts.total_ret]].
    split.
    - apply (effects_bind url 0 _); [log|]. intros _.
      apply (effects_weaken url
               (S (Z.to_nat (retryAttempts (config env) - 0)) + 0));
        [rewrite Z.sub_0_r; lia|].
      apply effects_bind; [apply effects_fetchHtmlContent|]. intros html.
      apply (effects_bind url 0 0); [|intros _; apply effects_ret].
      destruct (HtmlProcessor.extractPageTitle _ _) as [[|c t]|]; log.
    - apply PipelineFacts.total_bind; [apply PipelineFacts.total_emit|].
      intros _. apply PipelineFacts.total_bind;
        [apply PipelineFacts.total_fetchHtmlContent|]. intros html.
      apply PipelineFacts.total_bind;
        [|intros _; apply PipelineFacts.total_ret].
      destruct (HtmlProcessor.extractPageTitle _ _) as [[|c t]|];
        apply PipelineFacts.total_emit. }
  destruct H1 as [H1 Ht1]. specialize (H1 w). specialize (Ht1 w).
  destruct H1 as (F1 & (l1 & T1 & Q1) & (s1 & S1 & A1 & L1)).
  match type of Er with
  | context [match ?m w with _ => _ end] =>
      destruct (m w) as [[[pageTitle htmlContent]| |] w1]
  end; cbn [fst snd] in *.
  - unfold bind at 1 in Er.
    match type of Er with
    | context [match ?m w1 with _ => _ end] =>
        assert (H2 : effects url
                       (S (Z.to_nat (retryAttempts (config env)))
                        * S (Z.to_nat (retryAttempts (config env)))) m
                     /\ total m
                     /\ adds (@anything Event) (written P env url) m)
    end.
    { destruct htmlContent as [[|c h]|].
      2: { split; [|split].
           - apply (effects_weaken url 0); [lia|].
             apply effects_convertHtmlWithContent.
           - unfold convertHtmlWithContent.
             apply PipelineFacts.total_bind;
               [apply PipelineFacts.total_emit|]. intros _.
             apply PipelineFacts.total_try_catch;
               [apply PipelineFacts.total_turndown_content|].
             apply PipelineFacts.total_bind;
               [apply PipelineFacts.total_emit
               |intros _; apply PipelineFacts.total_throw].
           - apply writes_convertHtmlWithContent. }
      all: unfold convertHtmlToMarkdown; rewrite Z.sub_0_r;
        (split; [apply effects_convert_loop|split];
         [apply PipelineFacts.total_convert_loop; lia
         |apply writes_convert_loop]). }
    destruct H2 as (H2 & Ht2 & Hw2).
    specialize (H2 w1). specialize (Ht2 w1). specialize (Hw2 w1).
    destruct H2 as (F2 & (l2 & T2 & Q2) & (s2 & S2 & A2 & L2)).
    destruct Hw2 as [_ Hw2].
    match type of Er with
    | context [match ?m w1 with _ => _ end] =>
        destruct (m w1) as [[markdown| |] w2]
    end; cbn [fst snd] in *.
    + specialize (Hw2 markdown eq_refl).
      unfold bind, fs_ensureDir, fs_writeFile, emit, ret, throw in Er.
      exists (l2 ++ l1), (s2 ++ s1).
      split; [apply quiet_app; assumption|].
      destruct (ensureDir P _); [destruct (writeFile P _)|];
        subst r; cbn [fst snd sent files trace].
      * split; [rewrite S2, S1; apply app_assoc|].
        split; [apply Forall_app; split; assumption|].
        split; [unfold request_budget; rewrite length_app; lia|].
        right. exists pageTitle, markdown.
        split; [rewrite T2, T1, app_assoc; reflexivity|].
        split; [rewrite F2, F1; reflexivity | exact Hw2].
      * split; [rewrite S2, S1; apply app_assoc|].
        split; [apply Forall_app; split; assumption|].
        split; [unfold request_budget; rewrite length_app; lia|].
        left. split; [rewrite T2, T1, app_assoc; reflexivity|].
        rewrite F2, F1. reflexivity.
      * split; [rewrite S2, S1; apply app_assoc|].
        split; [apply Forall_app; split; assumption|].
        split; [unfold request_budget; rewrite length_app; lia|].
        left. split; [rewrite T2, T1, app_assoc; reflexivity|].
        rewrite F2, F1. reflexivity.
    + exists (l2 ++ l1), (s2 ++ s1).
      split; [apply quiet_app; assumption|].
      subst r. unfold emit. cbn [fst snd sent files trace].
      split; [rewrite S2, S1; apply app_assoc|].
      split; [apply Forall_app; split; assumption|].
      split; [unfold request_budget; rewrite length_app; lia|].
      left. split; [rewrite T2, T1, app_assoc; reflexivity|].
      rewrite F2, F1. reflexivity.
    + contradiction Ht2. reflexivity.
  - exists l1, s1. split; [exact Q1|].
    subst r. unfold emit. cbn [fst snd sent files trace].
    split; [exact S1|]. split; [exact A1|].
    split; [unfold request_budget; lia|].
    left. split; [rewrite T1; reflexivity | exact F1].
  - contradiction Ht1. reflexivity.
Qed.

Lemma bind_done : forall {A B} (m : M A) (k : A -> M B) w a,
  fst (m w) = Done a -> bind m k w = k a (snd (m w)).
Proof.
  intros A B m k w a H. unfold bind.
  destruct (m w) as [[a'| |] w1]; cbn [fst snd] in *;
    [injection H as ->; reflexivity | discriminate H | discriminate H].
Qed.

Lemma quiet_no_terminal : forall l,
  quiet l = true -> filter is_terminal l = [].
Proof.
  induction l as [|e l IH]; intros H; [reflexivity|].
  unfold quiet in H. cbn [forallb] in H. apply andb_true_iff in H.
  destruct H as [He Hl]. apply negb_true_iff in He.
  cbn [filter]. rewrite He. apply IH, Hl.
Qed.

Lemma quiet_no_saved : forall l,
  quiet l = true -> filter is_saved l = [].
Proof.
  induction l as [|e l IH]; intros H; [reflexivity|].
  unfold quiet in H. cbn [forallb] in H. apply andb_true_iff in H.
  destruct H as [He Hl]. apply negb_true_iff in He.
  cbn [filter]. destruct e; try discriminate He; apply IH, Hl.
Qed.

Lemma process_batch_spec : forall batch w,
  exists l fs s,
    trace (snd (process_batch P env batch w)) = l ++ trace w
    /\ files (snd (process_batch P env batch w)) = fs ++ files w
    /\ sent (snd (process_batch P env batch w)) = s ++ sent w
    /\ length (filter is_terminal l) = length batch
    /\ length fs = length (filter is_saved l)
    /\ (length s <= length batch * request_budget env)%nat
    /\ Forall (fun u => In u batch) s.
Proof.
  induction batch as [|url rest IH]; intros w.
  - exists [], [], []. cbn. repeat split; constructor.
  - cbn [process_batch].
    rewrite (bind_done _ _ w tt (PipelineFacts.processUrl_returns P env url w)).
    destruct (processUrl_spec url w) as (l1 & s1 & Q1 & S1 & A1 & L1 & H1).
    destruct (IH (snd (processUrl P env url w)))
      as (l2 & fs2 & s2 & T2 & F2 & S2 & C2 & D2 & L2 & A2).
    assert (Hs : Forall (fun u => In u (url :: rest)) (s2 ++ s1)).
    { apply Forall_app. split.
      - eapply Forall_impl; [|exact A2]. intros u Hu. right. exact Hu.
      - eapply Forall_impl; [|exact A1]. intros u <-. left. reflexivity. }
    assert (Hl : (length (s2 ++ s1)
                  <= length (url :: rest) * request_budget env)%nat).
    { rewrite length_app. simpl length. lia. }
    destruct H1 as [[T1 F1]|(title & content & T1 & F1 & _)].
    + exists (l2 ++ ProcessError url :: l1), fs2, (s2 ++ s1).
      rewrite T2, F2, S2, T1, F1, S1.
      rewrite !filter_app. cbn [filter is_terminal is_saved].
      rewrite (quiet_no_terminal l1 Q1), (quiet_no_saved l1 Q1).
      rewrite !length_app. simpl length.
      repeat split; try assumption;
        try (rewrite <- app_assoc; reflexivity); try lia;
        try apply app_assoc.
    + exists (l2 ++ Saved (PathMapper.filePath
                             (PathMapper.getOutputPaths (path_packages P)
                                env url title)) :: l1),
        (fs2 ++ [(PathMapper.filePath
                    (PathMapper.getOutputPaths (path_packages P) env url
                       title), content)]),
        (s2 ++ s1).
      rewrite T2, F2, S2, T1, F1, S1.
      rewrite !filter_app. cbn [filter is_terminal is_saved].
      rewrite (quiet_no_terminal l1 Q1), (quiet_no_saved l1 Q1).
      rewrite !length_app. simpl length.
      repeat split; try assumption;
        try (rewrite <- app_assoc; reflexivity); try lia;
        try apply app_assoc.
Qed.

Lemma batch_loop_step : forall fuel urls i completed w,
  (i <? Z.of_nat (length urls)) = true ->
  batch_loop P env (S fuel) urls i completed w
  = let batch := slice urls i (i + maxConcurrent (config env)) in
    let wb := snd (process_batch P env batch w) in
    batch_loop P env fuel urls (i + maxConcurrent (config env))
      (completed + Z.of_nat (length batch))
      {| sent := sent wb; files := files wb;
         trace := Progress (completed + Z.of_nat (length batch))
                    (Z.of_nat (length urls)) :: trace wb |}.
Proof.
  intros fuel urls i completed w E. cbn [batch_loop]. rewrite E.
  rewrite (bind_done _ _ w tt
             (PipelineFacts.process_batch_returns P env _ w)).
  reflexivity.
Qed.

Lemma batch_loop_stuck : forall urls,
  maxConcurrent (config env) <= 0 ->
  urls <> [] ->
  forall fuel i completed w,
    i <= 0 ->
    fst (batch_loop P env fuel urls i completed w) = Diverges.
Proof.
  intros urls Hmc Hne.
  assert (Hlen : 0 < Z.of_nat (length urls)).
  { destruct urls; [contradiction | simpl length; lia]. }
  induction fuel as [|f IH]; intros i completed w Hi.
  - cbn [batch_loop].
    replace (i <? Z.of_nat (length urls)) with true
      by (symmetry; apply Z.ltb_lt; lia).
    reflexivity.
  - rewrite batch_loop_step by (apply Z.ltb_lt; lia).
    cbv zeta. apply IH. lia.
Qed.

Lemma batch_loop_spec : forall urls,
  0 < maxConcurrent (config env) ->
  forall fuel (k : nat) completed w,
    (length urls - k <= fuel)%nat ->
    ((k < length urls)%nat -> completed = Z.of_nat k) ->
    exists l fs s,
      fst (batch_loop P env fuel urls (Z.of_nat k) completed w) = Done tt
      /\ trace (snd (batch_loop P env fuel urls (Z.of_nat k) completed w))
         = l ++ trace w
      /\ files (snd (batch_loop P env fuel urls (Z.of_nat k) completed w))
         = fs ++ files w
      /\ sent (snd (batch_loop P env fuel urls (Z.of_nat k) completed w))
         = s ++ sent w
      /\ length (filter is_terminal l) = (length urls - k)%nat
      /\ length fs = length (filter is_saved l)
      /\ (length s <= (length urls - k) * request_budget env)%nat
      /\ Forall (fun u => In u urls) s
      /\ ((k < length urls)%nat ->
          exists l', l = Progress (Z.of_nat (length urls))
                           (Z.of_nat (length urls)) :: l')
      /\ ((length urls <= k)%nat -> l = []).
Proof.
  intros urls Hmc.
  induction fuel as [|f IH]; intros k completed w Hfuel Hc.
  - cbn [batch_loop].
    replace (Z.of_nat k <? Z.of_nat (length urls)) with false
      by (symmetry; apply Z.ltb_ge; lia).
    exists [], [], []. cbn.
    repeat split; try lia; try constructor; intros Hk; lia.
  - destruct (Z.of_nat k <? Z.of_nat (length urls)) eqn:E.
    2: { cbn [batch_loop]. rewrite E. apply Z.ltb_ge in E.
         exists [], [], []. cbn.
         repeat split; try lia; try constructor; intros Hk; lia. }
    rewrite (batch_loop_step f urls (Z.of_nat k) completed w E).
    cbv zeta. apply Z.ltb_lt in E.
    rewrite JSFacts.slice_window by exact Hmc.
    set (mc := Z.to_nat (maxConcurrent (config env))).
    set (batch := firstn mc (skipn k urls)).
    destruct (process_batch_spec batch w)
      as (l1 & fs1 & s1 & T1 & F1 & S1 & C1 & D1 & L1 & A1).
    replace (Z.of_nat k + maxConcurrent (config env))
      with (Z.of_nat (k + mc)) by (unfold mc; lia).
    assert (Hb : length batch = Nat.min mc (length urls - k)).
    { unfold batch. rewrite length_firstn, length_skipn. reflexivity. }
    match goal with
    | |- context [batch_loop P env f urls _ ?c ?w1] =>
        destruct (IH (k + mc)%nat c w1)
          as (l2 & fs2 & s2 & R2 & T2 & F2 & S2 & C2 & D2 & L2 & A2 & G2 & N2)
    end.
    + unfold mc. lia.
    + intros Hk. rewrite Hc by lia. rewrite Hb. lia.
    + exists (l2 ++ Progress (completed + Z.of_nat (length batch))
                      (Z.of_nat (length urls)) :: l1),
        (fs2 ++ fs1), (s2 ++ s1).
      rewrite R2, T2, F2, S2. cbn [sent files trace].
      rewrite T1, F1, S1.
      rewrite !filter_app. cbn [filter is_terminal is_saved].
      rewrite !length_app, C2, D2, C1, D1.
      split; [reflexivity|].
      split; [rewrite <- app_assoc; reflexivity|].
      split; [apply app_assoc|].
      split; [apply app_assoc|].
      split; [rewrite Hb; unfold mc; lia|].
      split; [reflexivity|].
      split; [rewrite Hb in L1; unfold mc in *; nia|].
      split; [|split].
      * apply Forall_app. split; [exact A2|].
        eapply Forall_impl; [|exact A1]. intros u Hu.
        unfold batch in Hu.
        rewrite <- (firstn_skipn k urls). apply in_or_app. right.
        rewrite <- (firstn_skipn mc (skipn k urls)). apply in_or_app.
        left. exact Hu.
      * intros _.
        destruct (Nat.lt_ge_cases (k + mc) (length urls)) as [Hlt|Hge].
        -- destruct (G2 Hlt) as [l' ->]. eexists. reflexivity.
        -- rewrite (N2 Hge). rewrite Hc by lia. rewrite Hb.
           replace (Z.of_nat k + Z.of_nat (Nat.min mc (length urls - k)))
             with (Z.of_nat (length urls)) by lia.
           eexists. reflexivity.
      * intros Hk. lia.
Qed.

Lemma fetch_without_turndown : forall left url retryCount,
  no_empty_page P ->
  adds (fun e => is_turndown e = false) (fun data => data <> [])
    (fetch_loop P env left url retryCount).
Proof.
  intros left url rc Hserver. revert url rc.
  assert (Hget : forall url,
            adds (fun e => is_turndown e = false) (fun data => data <> [])
              (get P url)).
  { intros url w. unfold get. split.
    - exists []. split; [|constructor].
      destruct (axios_get P url _) as [|status data]; [reflexivity|].
      destruct (status =? 200); reflexivity.
    - intros a H.
      destruct (axios_get P url _) as [|status data] eqn:E;
        [discriminate H|].
      destruct (status =? 200) eqn:Es; [|discriminate H].
      apply Z.eqb_eq in Es. subst status. injection H as <-.
      intros ->. apply (Hserver _ _ E). }
  induction left as [|k IH]; intros url rc; cbn [fetch_loop];
    (eapply PipelineFacts.adds_bind;
       [apply PipelineFacts.adds_emit; reflexivity|]); intros _ _;
    (apply PipelineFacts.adds_try_catch; [apply Hget|]);
    (destruct (rc <? _);
      [|eapply PipelineFacts.adds_bind;
          [apply PipelineFacts.adds_emit; reflexivity|];
        intros _ _; apply PipelineFacts.adds_throw]);
    (eapply PipelineFacts.adds_bind;
       [apply PipelineFacts.adds_emit; reflexivity|]); intros _ _;
    (eapply PipelineFacts.adds_bind;
       [apply PipelineFacts.adds_emit; reflexivity|]); intros _ _.
  - apply PipelineFacts.adds_diverge.
  - apply IH.
Qed.

Lemma convertHtmlWithContent_once : forall url html w,
  exists l,
    trace (snd (convertHtmlWithContent P env url html w)) = l ++ trace w
    /\ (length (filter is_turndown l) <= 1)%nat.
Proof.
  intros url html w.
  unfold convertHtmlWithContent, turndown_content, bind, try_catch, emit,
    ret, throw.
  destruct (turndown P _ _) as [[|c md]|]; cbn [fst snd trace].
  - exists [ConvertError; Turndown html; ConvertingFetched url].
    split; [reflexivity | simpl; lia].
  - exists [Turndown html; ConvertingFetched url].
    split; [reflexivity | simpl; lia].
  - exists [ConvertError; Turndown html; ConvertingFetched url].
    split; [reflexivity | simpl; lia].
Qed.

Lemma no_turndown_filter : forall l,
  Forall (fun e => is_turndown e = false) l -> filter is_turndown l = [].
Proof.
  induction 1 as [|e l He _ IH]; [reflexivity|].
  cbn [filter]. rewrite He. exact IH.
Qed.

Lemma processUrl_title_route : forall url w,
  usePageTitlesForFilenames (fileOptions (config env)) = true ->
  no_empty_page P ->
  exists l s,
    trace (snd (processUrl P env url w)) = l ++ trace w
    /\ (length (filter is_turndown l) <= 1)%nat
    /\ sent (snd (processUrl P env url w)) = s ++ sent w
    /\ (length s <= S (Z.to_nat (retryAttempts (config env))))%nat.
Proof.
  intros url w Htitles Hserver.
  remember (processUrl P env url w) as r eqn:Er.
  unfold processUrl, try_catch in Er. rewrite Htitles in Er.
  unfold bind at 1 in Er.
  match type of Er with
  | context [match ?m w with _ => _ end] =>
      assert (H1 : effects url
                     (S (Z.to_nat (retryAttempts (config env)))) m
                   /\ adds (fun e => is_turndown e = false)
                        (fun fetched : option jsstring * option jsstring =>
                           exists c h, snd fetched = Some (c :: h)) m)
  end.
  { split.
    - apply (effects_bind url 0 _); [log|]. intros _.
      apply (effects_weaken url
               (S (Z.to_nat (retryAttempts (config env) - 0)) + 0));
        [rewrite Z.sub_0_r; lia|].
      apply effects_bind; [apply effects_fetchHtmlContent|]. intros html.
      apply (effects_bind url 0 0); [|intros _; apply effects_ret].
      destruct (HtmlProcessor.extractPageTitle _ _) as [[|c t]|]; log.
    - eapply PipelineFacts.adds_bind;
        [apply PipelineFacts.adds_emit; reflexivity|]. intros _ _.
      eapply PipelineFacts.adds_bind;
        [apply fetch_without_turndown, Hserver|]. intros html Hhtml.
      eapply PipelineFacts.adds_bind with (R := anything).
      + destruct (HtmlProcessor.extractPageTitle _ _) as [[|c t]|];
          apply PipelineFacts.adds_emit; reflexivity.
      + intros _ _. apply PipelineFacts.adds_ret.
        destruct html as [|c h]; [contradiction|].
        exists c, h. reflexivity. }
  destruct H1 as [H1 Ha1]. specialize (H1 w). specialize (Ha1 w).
  destruct H1 as (_ & _ & (s1 & S1 & _ & L1)).
  destruct Ha1 as [(l1 & T1 & Q1) R1].
  apply no_turndown_filter in Q1.
  match type of Er with
  | context [match ?m w with _ => _ end] =>
      destruct (m w) as [[[pageTitle htmlContent]| |] w1]
  end; cbn [fst snd] in *.
  - destruct (R1 _ eq_refl) as (c & h & Eh). cbn [snd] in Eh. subst htmlContent.
    unfold bind at 1 in Er.
    match type of Er with
    | context [convertHtmlWithContent P env url ?html w1] =>
        destruct (convertHtmlWithContent_once url html w1) as (l2 & T2 & C2);
        pose proof (effects_convertHtmlWithContent url html w1)
          as (_ & _ & (s2 & S2 & _ & L2));
        destruct (convertHtmlWithContent P env url html w1)
          as [[markdown| |] w2]
    end; cbn [fst snd] in *.
    + unfold bind, fs_ensureDir, fs_writeFile, emit, ret, throw in Er.
      destruct s2; [|simpl in L2; lia]. cbn [app] in S2.
      destruct (ensureDir P _); [destruct (writeFile P _)|];
        subst r; cbn [fst snd sent files trace].
      * eexists (_ :: l2 ++ l1), s1. rewrite T2, T1, S2, S1.
        cbn [filter is_turndown]. rewrite filter_app, Q1, app_nil_r.
        repeat split; [cbn [app]; rewrite app_assoc; reflexivity
                      | exact C2 | exact L1].
      * eexists (_ :: l2 ++ l1), s1. rewrite T2, T1, S2, S1.
        cbn [filter is_turndown]. rewrite filter_app, Q1, app_nil_r.
        repeat split; [cbn [app]; rewrite app_assoc; reflexivity
                      | exact C2 | exact L1].
      * eexists (_ :: l2 ++ l1), s1. rewrite T2, T1, S2, S1.
        cbn [filter is_turndown]. rewrite filter_app, Q1, app_nil_r.
        repeat split; [cbn [app]; rewrite app_assoc; reflexivity
                      | exact C2 | exact L1].
    + destruct s2; [|simpl in L2; lia]. cbn [app] in S2.
      subst r. unfold emit. cbn [fst snd sent files trace].
      eexists (_ :: l2 ++ l1), s1. rewrite T2, T1, S2, S1.
      cbn [filter is_turndown]. rewrite filter_app, Q1, app_nil_r.
      repeat split; [cbn [app]; rewrite app_assoc; reflexivity
                    | exact C2 | exact L1].
    + destruct s2; [|simpl in L2; lia]. cbn [app] in S2.
      subst r. cbn [fst snd sent files trace].
      exists (l2 ++ l1), s1. rewrite T2, T1, S2, S1.
      rewrite filter_app, Q1, app_nil_r.
      repeat split; [apply app_assoc | exact C2 | exact L1].
  - subst r. unfold emit. cbn [fst snd sent files trace].
    eexists (_ :: l1), s1. rewrite T1, S1. cbn [filter is_turndown].
    rewrite Q1. repeat split; [simpl; lia | exact L1].
  - subst r. cbn [fst snd sent files trace].
    exists l1, s1. rewrite T1, S1, Q1.
    repeat split; [simpl; lia | exact L1].
Qed.

End Jobs.

(** *** Further properties of the pipeline *)

(** X15.  [fetchHtmlContent] called with a retry count of zero returns
    the page as soon as a request is answered with status 200, provided
    no more requests were refused before than the retry ceiling allows:
    after [n] refused requests it has sent [n + 1] requests, all to the
    URL of the page, and written no file. *)
Theorem fetch_retries_until_served :
  forall (P : Packages) (env : Env) (url data : jsstring) (n : nat)
         (w : World),
    (n <= Z.to_nat (retryAttempts (config env)))%nat ->
    (forall k, (k < n)%nat -> refused P url (count_sent url (sent w) + k)) ->
    axios_get P url (count_sent url (sent w) + n) = Reply 200 data ->
    fst (fetchHtmlContent P env url 0 w) = Done data
    /\ sent (snd (fetchHtmlContent P env url 0 w))
       = repeat url (S n) ++ sent w
    /\ files (snd (fetchHtmlContent P env url 0 w)) = files w.
Proof.
  intros P env url data n w Hn Href Hok. unfold fetchHtmlContent.
  apply fetch_loop_succeeds; [lia | | exact Href | exact Hok].
  destruct n; [right; reflexivity | left; lia].
Qed.

Lemma fetch_retries_until_served_witness :
  fst (fetchHtmlContent (RefPipeline.packages 2) Ref.env
         RefPipeline.page_url 0 fresh) = Done RefHtml.page_links
  /\ sent (snd (fetchHtmlContent (RefPipeline.packages 2) Ref.env
                  RefPipeline.page_url 0 fresh))
     = repeat RefPipeline.page_url 3 ++ sent fresh
  /\ files (snd (fetchHtmlContent (RefPipeline.packages 2) Ref.env
                   RefPipeline.page_url 0 fresh)) = files fresh.
Proof.
  apply (fetch_retries_until_served (RefPipeline.packages 2) Ref.env
           RefPipeline.page_url RefHtml.page_links 2 fresh).
  - vm_compute. lia.
  - intros [|[|k]] Hk; [exact I | exact I | lia].
  - reflexivity.
Defined.

(** X16.  When one request more than the retry ceiling is refused,
    [fetchHtmlContent] throws after exactly that many requests, all to
    the URL of the page; the last entry it logs is the failure, and it
    writes no file. *)
Theorem fetch_gives_up_after_ceiling :
  forall (P : Packages) (env : Env) (url : jsstring) (w : World),
    (forall k, (k <= Z.to_nat (retryAttempts (config env)))%nat ->
       refused P url (count_sent url (sent w) + k)) ->
    fst (fetchHtmlContent P env url 0 w) = Thrown
    /\ sent (snd (fetchHtmlContent P env url 0 w))
       = repeat url (S (Z.to_nat (retryAttempts (config env)))) ++ sent w
    /\ files (snd (fetchHtmlContent P env url 0 w)) = files w
    /\ exists t, trace (snd (fetchHtmlContent P env url 0 w))
                 = FetchFailed url :: t.
Proof.
  intros P env url w Href. unfold fetchHtmlContent.
  rewrite Z.sub_0_r. apply fetch_loop_gives_up.
  - rewrite Z.sub_0_r. reflexivity.
  - exact Href.
Qed.

Lemma fetch_gives_up_after_ceiling_witness :
  fst (fetchHtmlContent (RefPipeline.packages 4) Ref.env
         RefPipeline.page_url 0 fresh) = Thrown
  /\ sent (snd (fetchHtmlContent (RefPipeline.packages 4) Ref.env
                  RefPipeline.page_url 0 fresh))
     = repeat RefPipeline.page_url 4 ++ sent fresh.
Proof.
  destruct (fetch_gives_up_after_ceiling (RefPipeline.packages 4) Ref.env
              RefPipeline.page_url fresh) as (H1 & H2 & _).
  - intros [|[|[|[|k]]]] Hk; try exact I.
    exfalso. revert Hk. vm_compute. lia.
  - split; [exact H1 | exact H2].
Defined.

(** X17.  [processUrl] always returns, and the last entry it logs is the
    one terminal entry of the job: either the error entry for the URL,
    and then no file was written, or the entry of the saved file, and
    then exactly that file was written, at the path the mapping gives for
    the URL, holding the comment lines of the configuration followed by
    a non-empty result of the converter. *)
Theorem job_ends_saved_or_failed :
  forall (P : Packages) (env : Env) (url : jsstring) (w : World),
    fst (processUrl P env url w) = Done tt
    /\ exists l,
         quiet l = true
         /\ ((trace (snd (processUrl P env url w))
              = ProcessError url :: l ++ trace w
              /\ files (snd (processUrl P env url w)) = files w)
             \/ (exists title content,
                   trace (snd (processUrl P env url w))
                   = Saved (PathMapper.filePath
                              (PathMapper.getOutputPaths (path_packages P)
                                 env url title)) :: l ++ trace w
                   /\ files (snd (processUrl P env url w))
                      = (PathMapper.filePath
                           (PathMapper.getOutputPaths (path_packages P) env
                              url title), content) :: files w
                   /\ written P env url content)).
Proof.
  intros P env url w. split; [apply PipelineFacts.processUrl_returns|].
  destruct (processUrl_spec P env url w) as (l & s & Q & _ & _ & _ & H).
  exists l. split; [exact Q | exact H].
Qed.

(** X18.  Every request of a job goes to the URL of the job, and a job
    sends at most [(r + 1) * (r + 1)] requests for the conversion, where
    [r] is the retry ceiling, and [r + 1] more where page titles name
    the files. *)
Theorem job_request_budget :
  forall (P : Packages) (env : Env) (url : jsstring) (w : World),
    exists s,
      sent (snd (processUrl P env url w)) = s ++ sent w
      /\ Forall (eq url) s
      /\ (length s <= request_budget env)%nat.
Proof.
  intros P env url w.
  destruct (processUrl_spec P env url w) as (l & s & _ & S1 & A1 & L1 & _).
  exists s. repeat split; assumption.
Qed.

(** X19.  With a positive [maxConcurrent], [processUrlsInBatches]
    returns; it logs one terminal entry for every URL of the list,
    writes one file for every saved entry, sends requests to URLs of the
    list only and no more than the budget of a job for each, and when
    the list is not empty the last entry it logs is the progress entry
    with all URLs completed. *)
Theorem batches_process_every_url :
  forall (P : Packages) (env : Env) (fuel : nat) (urls : list jsstring)
         (w : World),
    0 < maxConcurrent (config env) ->
    (length urls <= fuel)%nat ->
    fst (processUrlsInBatches P env fuel urls w) = Done tt
    /\ exists l fs s,
         trace (snd (processUrlsInBatches P env fuel urls w)) = l ++ trace w
         /\ files (snd (processUrlsInBatches P env fuel urls w))
            = fs ++ files w
         /\ sent (snd (processUrlsInBatches P env fuel urls w))
            = s ++ sent w
         /\ length (filter is_terminal l) = length urls
         /\ length fs = length (filter is_saved l)
         /\ (length s <= length urls * request_budget env)%nat
         /\ Forall (fun u => In u urls) s
         /\ (urls <> [] ->
             exists l', l = Progress (Z.of_nat (length urls))
                              (Z.of_nat (length urls)) :: l').
Proof.
  intros P env fuel urls w Hmc Hfuel. unfold processUrlsInBatches.
  destruct (batch_loop_spec P env urls Hmc fuel 0%nat 0 w)
    as (l & fs & s & R & T & F & S1 & C & D & L & A & G & _).
  - lia.
  - intros _. reflexivity.
  - cbn [Z.of_nat] in *. rewrite Nat.sub_0_r in *.
    split; [exact R|]. exists l, fs, s.
    repeat split; try assumption.
    intros Hne. apply G. destruct urls; [contradiction | simpl; lia].
Qed.

Lemma batches_process_every_url_witness :
  fst (processUrlsInBatches (RefPipeline.packages 1) Ref.env 2
         [RefPipeline.page_url; RefPipeline.page_url] fresh)
  = Done tt.
Proof.
  assert (Hmc : 0 < maxConcurrent (config Ref.env)) by reflexivity.
  assert (Hfuel : (length [RefPipeline.page_url; RefPipeline.page_url]
                   <= 2)%nat) by (simpl; lia).
  destruct (batches_process_every_url (RefPipeline.packages 1) Ref.env 2
              [RefPipeline.page_url; RefPipeline.page_url] fresh Hmc Hfuel)
    as [H _].
  exact H.
Defined.

(** X20.  With a [maxConcurrent] of zero or less,
    [processUrlsInBatches] does not return on a list that is not
    empty. *)
Theorem batches_need_concurrency :
  forall (P : Packages) (env : Env) (urls : list jsstring),
    maxConcurrent (config env) <= 0 ->
    urls <> [] ->
    forall fuel w,
      fst (processUrlsInBatches P env fuel urls w) = Diverges.
Proof.
  intros P env urls Hmc Hne fuel w. unfold processUrlsInBatches.
  apply batch_loop_stuck; [exact Hmc | exact Hne | lia].
Qed.

Lemma batches_need_concurrency_witness :
  fst (processUrlsInBatches (RefPipeline.packages 0)
         (RefEnv.env_max_concurrent (-1)) 5 [RefPipeline.page_url] fresh)
  = Diverges.
Proof.
  assert (Hmc : maxConcurrent (config (RefEnv.env_max_concurrent (-1))) <= 0)
    by (simpl; lia).
  assert (Hne : [RefPipeline.page_url] <> []) by discriminate.
  exact (batches_need_concurrency (RefPipeline.packages 0)
           (RefEnv.env_max_concurrent (-1)) [RefPipeline.page_url]
           Hmc Hne 5%nat fresh).
Defined.

(** X29.  Where page titles name the files and the server serves no
    empty page, a job sends at most [r + 1] requests, [r] the retry
    ceiling, and calls the converter at most once: on this route the
    page is fetched once, with its retries, and a failed conversion is
    not tried again. *)
Theorem title_route_converts_once :
  forall (P : Packages) (env : Env) (url : jsstring) (w : World),
    usePageTitlesForFilenames (fileOptions (config env)) = true ->
    no_empty_page P ->
    exists l s,
      trace (snd (processUrl P env url w)) = l ++ trace w
      /\ (length (filter is_turndown l) <= 1)%nat
      /\ sent (snd (processUrl P env url w)) = s ++ sent w
      /\ (length s <= S (Z.to_nat (retryAttempts (config env))))%nat.
Proof.
  intros P env url w Htitles Hserver.
  apply processUrl_title_route; assumption.
Qed.

Lemma title_route_converts_once_witness :
  exists l s,
    trace (snd (processUrl (RefPipeline.packages 1)
                  (Ref.env_with Ref.pageTitleOptions)
                  RefPipeline.page_url fresh)) = l ++ trace fresh
    /\ (length (filter is_turndown l) <= 1)%nat
    /\ sent (snd (processUrl (RefPipeline.packages 1)
                    (Ref.env_with Ref.pageTitleOptions)
                    RefPipeline.page_url fresh)) = s ++ sent fresh
    /\ (length s
        <= S (Z.to_nat (retryAttempts
                          (config (Ref.env_with Ref.pageTitleOptions)))))%nat.
Proof.
  apply (title_route_converts_once (RefPipeline.packages 1)
           (Ref.env_with Ref.pageTitleOptions) RefPipeline.page_url fresh).
  - reflexivity.
  - intros url n. unfold RefPipeline.packages, RefPipeline.flaky.
    cbn [axios_get]. destruct (Nat.ltb n 1); [discriminate|].
    intros H. injection H as H. vm_compute in H. discriminate H.
Defined.

End PipelineProperties.

(** ** The URL sources and the command line *)

Module UrlSourceProperties.

Import UrlSource StringProperties.

Lemma forallb_trim_start : forall p s,
  forallb p s = true -> forallb p (trim_start s) = true.
Proof.
  intros p s H. destruct (trim_start_split s) as (q & Hq & _).
  rewrite Hq, forallb_app in H. apply andb_true_iff in H. apply H.
Qed.

Lemma forallb_rev : forall (p : Z -> bool) s,
  forallb p s = true -> forallb p (rev s) = true.
Proof.
  intros p s H. apply forallb_forall. intros x Hx.
  apply in_rev in Hx. revert x Hx. apply forallb_forall. exact H.
Qed.

Lemma forallb_trim : forall p s,
  forallb p s = true -> forallb p (trim s) = true.
Proof.
  intros p s H. unfold trim.
  apply forallb_rev, forallb_trim_start, forallb_rev, forallb_trim_start, H.
Qed.

Lemma parseFromUrl_catches : forall P env fuel u,
  SitemapParser.parseFromUrl P env fuel u <> Thrown.
Proof.
  intros P env [|fuel] u; cbn [SitemapParser.parseFromUrl]; [discriminate|].
  destruct (SitemapParser.axios_get P u) as [|status data]; [discriminate|].
  destruct (status =? 200); [|discriminate].
  destruct (SitemapParser.parseSitemapContent P env fuel _ data u);
    discriminate.
Qed.

(** *** Properties of the URL sources *)

(** X21.  Every URL [getFileUrls] returns is non-empty, has no white
    space at either end, holds no line feed and does not start with two
    slashes. *)
Theorem file_urls_clean :
  forall (P : Packages) (filePath u : jsstring),
    In u (getFileUrls P filePath) ->
    u <> []
    /\ trim u = u
    /\ forallb (fun c => negb (c =? 10)) u = true
    /\ startsWith u (lit "//") = false.
Proof.
  intros P filePath u H. unfold getFileUrls in H.
  destruct (readFile P filePath) as [content|]; [|destruct H].
  apply filter_In in H. destruct H as [Hin Hkeep].
  apply in_map_iff in Hin. destruct Hin as (line & <- & Hline).
  unfold keep_line in Hkeep. apply andb_true_iff in Hkeep.
  destruct Hkeep as [Ht Hs]. apply negb_true_iff in Hs.
  repeat split.
  - intros E. rewrite E in Ht. discriminate Ht.
  - apply trim_idempotent.
  - apply forallb_trim. apply (split_on_pieces _ _ _ Hline).
  - exact Hs.
Qed.

Lemma file_urls_clean_witness :
  lit "https://example.com/b" <> []
  /\ trim (lit "https://example.com/b") = lit "https://example.com/b"
  /\ forallb (fun c => negb (c =? 10)) (lit "https://example.com/b") = true
  /\ startsWith (lit "https://example.com/b") (lit "//") = false.
Proof.
  apply (file_urls_clean RefFiles.packages (lit "urls.txt")).
  vm_compute. right. left. reflexivity.
Defined.

(** X22.  [SitemapParser.parseFromUrl] never throws, so the handler of
    [getSitemapUrls] is never entered: [getSitemapUrls] gives what
    [parseFromUrl] gives, and [getUrls] never throws. *)
Theorem url_sources_never_throw :
  forall (P : Packages) (env : Env) (fuel : nat),
    (forall u,
       getSitemapUrls P env fuel u
       = SitemapParser.parseFromUrl (sitemap_packages P) env fuel u)
    /\ getUrls P env fuel <> Thrown.
Proof.
  intros P env fuel.
  assert (H : forall u,
            getSitemapUrls P env fuel u
            = SitemapParser.parseFromUrl (sitemap_packages P) env fuel u).
  { intros u. unfold getSitemapUrls.
    pose proof (parseFromUrl_catches (sitemap_packages P) env fuel u) as Hn.
    destruct (SitemapParser.parseFromUrl _ env fuel u);
      [reflexivity | contradiction | reflexivity]. }
  split; [exact H|]. unfold getUrls.
  destruct (source_type _); [discriminate|].
  destruct (truthy _); [|discriminate].
  rewrite H. apply parseFromUrl_catches.
Qed.

End UrlSourceProperties.

Module CliProperties.

Import Cli StringProperties.

Section Arguments.

Variable parseInt : jsstring -> option Z.

Lemma process_args_invariant : forall Inv : Config -> Prop,
  (forall c v, Inv c -> Inv (set_outputDir c v)) ->
  (forall c v, Inv c -> Inv (use_file c v)) ->
  (forall c v, Inv c -> Inv (use_sitemap c v)) ->
  (forall c v, Inv c -> Inv (set_maxConcurrent c v)) ->
  (forall c, Inv c -> Inv (set_naming c true false)) ->
  (forall c, Inv c -> Inv (set_naming c false true)) ->
  (forall c b, Inv c -> Inv (set_domainFolders c b)) ->
  forall args c u c' u',
    Inv c ->
    process_args parseInt args c u = Some (c', u') ->
    Inv c'.
Proof.
  intros Inv H1 H2 H3 H4 H5 H6 H7.
  assert (Hlen : forall n args, (length args <= n)%nat ->
            forall c u c' u',
              Inv c -> process_args parseInt args c u = Some (c', u') ->
              Inv c').
  { induction n as [|n IH]; intros args Hn c u c' u' Hc H.
    - destruct args; [|simpl in Hn; lia].
      cbn in H. injection H as <- _. exact Hc.
    - destruct args as [|arg rest].
      + cbn in H. injection H as <- _. exact Hc.
      + simpl in Hn. cbn [process_args] in H.
        repeat match type of H with
               | context [if ?b then _ else _] => destruct b
               | context [match ?r with [] => _ | _ :: _ => _ end] =>
                   destruct r; simpl in Hn
               | context [match parseInt ?v with _ => _ end] =>
                   destruct (parseInt v)
               end;
          try discriminate H;
          try (injection H as <- _; exact Hc);
          (eapply IH; [|shelve|exact H]); try (simpl; lia).
        Unshelve.
        all: eauto. }
  intros args. apply (Hlen (length args)). lia.
Qed.

Ltac branches H :=
  repeat match type of H with
         | context [if ?b then _ else _] => destruct b
         | context [match ?r with [] => _ | _ :: _ => _ end] => destruct r
         | context [match parseInt ?v with _ => _ end] =>
             destruct (parseInt v)
         end.

Lemma flag_stays_set : forall n args,
  (length args <= n)%nat ->
  forall c c' u',
    process_args parseInt args c true = Some (c', u') -> u' = true.
Proof.
  induction n as [|n IH]; intros args Hn c c' u' H.
  - destruct args; [|simpl in Hn; lia].
    cbn in H. injection H as _ <-. reflexivity.
  - destruct args as [|arg rest].
    + cbn in H. injection H as _ <-. reflexivity.
    + simpl in Hn. cbn [process_args] in H.
      branches H; simpl in Hn;
        try discriminate H;
        try (injection H as _ <-; reflexivity);
        (eapply IH; [|exact H]); simpl; lia.
Qed.

Lemma flag_unset_unchanged : forall n args,
  (length args <= n)%nat ->
  forall c u c',
    process_args parseInt args c u = Some (c', false) -> c' = c.
Proof.
  induction n as [|n IH]; intros args Hn c u c' H.
  - destruct args; [|simpl in Hn; lia].
    cbn in H. injection H as <- _. reflexivity.
  - destruct args as [|arg rest].
    + cbn in H. injection H as <- _. reflexivity.
    + simpl in Hn. cbn [process_args] in H.
      branches H; simpl in Hn;
        try discriminate H;
        try (injection H as <- _; reflexivity);
        try (eapply IH; [|exact H]; simpl; lia);
        exfalso;
        (assert (Hf : false = true);
         [eapply (flag_stays_set n); [|exact H]; simpl; lia
         |discriminate Hf]).
Qed.

Lemma value_of_option : forall name v v',
  forallb (fun c => negb (c =? 61)) name = true ->
  forallb (fun c => negb (c =? 61)) v = true ->
  value_of (name ++ 61 :: v ++ 61 :: v') = v
  /\ value_of (name ++ 61 :: v) = v.
Proof.
  intros name v v' Hname Hv.
  assert (Hsplit : forall a b,
            forallb (fun c => negb (c =? 61)) a = true ->
            split_on (fun c => c =? 61) (a ++ 61 :: b)
            = a :: split_on (fun c => c =? 61) b).
  { induction a as [|x a IH]; intros b Ha; [reflexivity|].
    simpl in Ha. apply andb_true_iff in Ha. destruct Ha as [Hx Ha].
    apply negb_true_iff in Hx. cbn [app split_on]. rewrite Hx.
    rewrite (IH b Ha). reflexivity. }
  assert (Hlast : forall a,
            forallb (fun c => negb (c =? 61)) a = true ->
            split_on (fun c => c =? 61) a = [a]).
  { induction a as [|x a IH]; intros Ha; [reflexivity|].
    simpl in Ha. apply andb_true_iff in Ha. destruct Ha as [Hx Ha].
    apply negb_true_iff in Hx. cbn [split_on]. rewrite Hx.
    rewrite (IH Ha). reflexivity. }
  unfold value_of. split.
  - rewrite (Hsplit name _ Hname), (Hsplit v _ Hv). reflexivity.
  - rewrite (Hsplit name _ Hname), (Hlast v Hv). reflexivity.
Qed.

End Arguments.

(** *** Properties of the command line *)

(** X23.  When exactly one of the two naming switches is on before the
    command line is processed, as in the default configuration, exactly
    one is on afterwards: no command line turns both off or both on. *)
Theorem naming_switches_exclusive :
  forall (parseInt : jsstring -> option Z) (args : list jsstring)
         (c c' : Config) (u u' : bool),
    usePageTitlesForFilenames (fileOptions c)
    = negb (preserveUrlFilenames (fileOptions c)) ->
    process_args parseInt args c u = Some (c', u') ->
    usePageTitlesForFilenames (fileOptions c')
    = negb (preserveUrlFilenames (fileOptions c')).
Proof.
  intros parseInt args c c' u u' Hc H.
  apply (process_args_invariant parseInt
           (fun c => usePageTitlesForFilenames (fileOptions c)
                     = negb (preserveUrlFilenames (fileOptions c))))
    with (args := args) (c := c) (u := u) (u' := u');
    try exact H; try exact Hc; intros; cbn; auto.
Qed.

Lemma naming_switches_exclusive_witness :
  usePageTitlesForFilenames
    (fileOptions (set_maxConcurrent (set_naming DEFAULT_CONFIG true false) 5))
  = negb (preserveUrlFilenames
            (fileOptions
               (set_maxConcurrent (set_naming DEFAULT_CONFIG true false) 5))).
Proof.
  apply (naming_switches_exclusive RefFiles.parseInt
           [lit "-t"; lit "--max-concurrent=5"] DEFAULT_CONFIG
           (set_maxConcurrent (set_naming DEFAULT_CONFIG true false) 5)
           false true).
  - reflexivity.
  - vm_compute. reflexivity.
Defined.

(** X24.  No command line changes the timeout, the retry ceiling, the
    retry delay, the selectors, the converter options, the user agent,
    or the switches for the source and date comment lines. *)
Theorem command_line_leaves_settings :
  forall (parseInt : jsstring -> option Z) (args : list jsstring)
         (c c' : Config) (u u' : bool),
    process_args parseInt args c u = Some (c', u') ->
    timeout c' = timeout c
    /\ retryAttempts c' = retryAttempts c
    /\ retryDelay c' = retryDelay c
    /\ selectors c' = selectors c
    /\ turndownOptions c' = turndownOptions c
    /\ userAgent c' = userAgent c
    /\ addSourceUrl (fileOptions c') = addSourceUrl (fileOptions c)
    /\ addDate (fileOptions c') = addDate (fileOptions c).
Proof.
  intros parseInt args c c' u u' H.
  apply (process_args_invariant parseInt
           (fun x => timeout x = timeout c
                     /\ retryAttempts x = retryAttempts c
                     /\ retryDelay x = retryDelay c
                     /\ selectors x = selectors c
                     /\ turndownOptions x = turndownOptions c
                     /\ userAgent x = userAgent c
                     /\ addSourceUrl (fileOptions x)
                        = addSourceUrl (fileOptions c)
                     /\ addDate (fileOptions x) = addDate (fileOptions c)))
    with (args := args) (c := c) (u := u) (u' := u');
    try exact H; try (intros; cbn; assumption).
  repeat split; reflexivity.
Qed.

Lemma command_line_leaves_settings_witness :
  retryAttempts
    (set_maxConcurrent (set_naming DEFAULT_CONFIG true false) 5)
  = retryAttempts DEFAULT_CONFIG.
Proof.
  assert (H : process_args RefFiles.parseInt
                [lit "-t"; lit "--max-concurrent=5"] DEFAULT_CONFIG false
              = Some (set_maxConcurrent (set_naming DEFAULT_CONFIG true false)
                        5, true))
    by (vm_compute; reflexivity).
  destruct (command_line_leaves_settings RefFiles.parseInt
              [lit "-t"; lit "--max-concurrent=5"] DEFAULT_CONFIG
              (set_maxConcurrent (set_naming DEFAULT_CONFIG true false) 5)
              false true H) as (_ & H2 & _).
  exact H2.
Defined.

(** X25.  [configUpdated] is truthful: once set it stays set, and a
    command line after which it is not set has left the configuration
    as it was. *)
Theorem configUpdated_truthful :
  forall (parseInt : jsstring -> option Z) (args : list jsstring)
         (c c' : Config) (u u' : bool),
    process_args parseInt args c u = Some (c', u') ->
    (u = true -> u' = true) /\ (u' = false -> c' = c).
Proof.
  intros parseInt args c c' u u' H. split.
  - intros ->. apply (flag_stays_set parseInt (length args) args (le_n _)
                        c c' u' H).
  - intros ->. apply (flag_unset_unchanged parseInt (length args) args
                        (le_n _) c u c' H).
Qed.

Lemma configUpdated_truthful_witness :
  (false = true -> false = true)
  /\ (false = false -> DEFAULT_CONFIG = DEFAULT_CONFIG).
Proof.
  apply (configUpdated_truthful RefFiles.parseInt
           [lit "--max-concurrent=many"; lit "--verbose"] DEFAULT_CONFIG
           DEFAULT_CONFIG false false).
  vm_compute. reflexivity.
Defined.

(** X26.  A short option joined to its value by an equals sign, the form
    the help text shows, is not recognised: the argument is skipped and
    the configuration and [configUpdated] stay as they are. *)
Theorem short_option_with_equals_ignored :
  forall (parseInt : jsstring -> option Z) (v : jsstring)
         (rest : list jsstring) (c : Config) (u : bool),
    process_args parseInt ((lit "-o=" ++ v) :: rest) c u
    = process_args parseInt rest c u
    /\ process_args parseInt ((lit "-f=" ++ v) :: rest) c u
       = process_args parseInt rest c u
    /\ process_args parseInt ((lit "-s=" ++ v) :: rest) c u
       = process_args parseInt rest c u
    /\ process_args parseInt ((lit "-c=" ++ v) :: rest) c u
       = process_args parseInt rest c u.
Proof.
  intros parseInt v rest c u. repeat split; reflexivity.
Qed.

(** X27.  The value of a long option ends at the next equals sign: what
    follows a second equals sign in the argument is dropped. *)
Theorem long_option_value_stops_at_equals :
  forall (parseInt : jsstring -> option Z) (v v' : jsstring)
         (rest : list jsstring) (c : Config) (u : bool),
    forallb (fun x => negb (x =? 61)) v = true ->
    process_args parseInt ((lit "--sitemap=" ++ v ++ 61 :: v') :: rest) c u
    = process_args parseInt rest (use_sitemap c v) true
    /\ process_args parseInt ((lit "--url-file=" ++ v ++ 61 :: v') :: rest)
         c u
       = process_args parseInt rest (use_file c v) true
    /\ process_args parseInt ((lit "--output-dir=" ++ v ++ 61 :: v') :: rest)
         c u
       = process_args parseInt rest (set_outputDir c v) true.
Proof.
  intros parseInt v v' rest c u Hv.
  assert (H1 : value_of (lit "--sitemap=" ++ v ++ 61 :: v') = v).
  { apply (value_of_option (lit "--sitemap") v v' eq_refl Hv). }
  assert (H2 : value_of (lit "--url-file=" ++ v ++ 61 :: v') = v).
  { apply (value_of_option (lit "--url-file") v v' eq_refl Hv). }
  assert (H3 : value_of (lit "--output-dir=" ++ v ++ 61 :: v') = v).
  { apply (value_of_option (lit "--output-dir") v v' eq_refl Hv). }
  repeat split.
  - rewrite <- H1 at 2. reflexivity.
  - rewrite <- H2 at 2. reflexivity.
  - rewrite <- H3 at 2. reflexivity.
Qed.

Lemma long_option_value_stops_at_equals_witness :
  process_args RefFiles.parseInt
    [lit "--sitemap=https://example.com/sitemap.xml?lang=en"]
    DEFAULT_CONFIG false
  = Some (use_sitemap DEFAULT_CONFIG
            (lit "https://example.com/sitemap.xml?lang"), true).
Proof.
  destruct (long_option_value_stops_at_equals RefFiles.parseInt
              (lit "https://example.com/sitemap.xml?lang") (lit "en") []
              DEFAULT_CONFIG false eq_refl) as [H _].
  exact H.
Defined.

End CliProperties.
